(** * Fusion Tables -> Drive export: the export pipeline, embedded in Rocq

    The development follows three source files of the server, and, for the
    further facts at the end, the redirect address of the OAuth client and
    the script of the export page (polling and visualization links):
    - [drive/log-file-export-in-index-sheet.ts]: the rows appended to the
      archive index sheet for one exported table;
    - [drive/get-archive-index-sheet.ts]: finding or creating the index sheet,
      with the [promise-retry] wrapper around the first-sheet lookup;
    - the export module ([doExport] and [saveTable]): set-up of the shared
      Drive resources, one worker per table behind [pLimit(1)], size
      bucketing and the export log.

    External services (Drive, Sheets, Fusion Tables) are oracles: the n-th
    external call of a run gets the answer the oracle holds for n.  Credentials
    ([auth]) carry no information the claims depend on and are left out. *)

From Stdlib Require Import String Ascii List ZArith QArith Qpower Lia Lqa Bool Arith.
From Stdlib Require Import DecimalString.
From Stdlib Require Import Reals Qreals Lra.
Import ListNotations.

Open Scope string_scope.

(** ** JavaScript values *)

(** The double quote character, as a one-character string. *)
Definition dquote : string := String (ascii_of_nat 34) EmptyString.

(** [`${n}`] for a non-negative integer [n]. *)
Definition numberToString (n : nat) : string :=
  NilZero.string_of_uint (Nat.to_uint n).

(** Truthiness of a possibly undefined string: [undefined] and [''] are falsy. *)
Definition truthyString (o : option string) : bool :=
  match o with
  | Some s => negb (String.eqb s EmptyString)
  | None => false
  end.

(** Truthiness of a possibly undefined number: [undefined] and [0] are falsy. *)
Definition truthyNumber (o : option Z) : bool :=
  match o with
  | Some n => negb (Z.eqb n 0)
  | None => false
  end.

(** [array.map((x, index) => f(x, index))]. *)
Fixpoint mapi_from {A B : Type} (f : A -> nat -> B) (i : nat) (l : list A) : list B :=
  match l with
  | [] => []
  | x :: l' => f x i :: mapi_from f (S i) l'
  end.

Definition mapi {A B : Type} (f : A -> nat -> B) (l : list A) : list B :=
  mapi_from f 0 l.

(** Values that can be thrown.  A [GaxiosError] is what the googleapis client
    rejects with; [response] is [error.response.data.error.code] when the
    request got an HTTP answer and [None] when [error.response] is undefined.
    [Error] is [new Error(message)], which has no [response] property.
    [TypeError] is raised by the runtime on a property read of [undefined]. *)
Inductive JsError : Type :=
| GaxiosError (response : option Z)
| Error (message : string)
| TypeError (message : string).

(** [error.message].  An [Error] and a [TypeError] have the text they were
    made with, which may be empty.  The message of a [GaxiosError] is set by
    the API client from the answer it got; the model does not look into it. *)
Inductive Message : Type :=
| text (s : string)
| clientMessage (response : option Z).

Definition messageOf (e : JsError) : Message :=
  match e with
  | GaxiosError response => clientMessage response
  | Error m => text m
  | TypeError m => text m
  end.

Inductive result (A : Type) : Type :=
| Ok (a : A)
| Err (e : JsError).
Arguments Ok {A} a.
Arguments Err {A} e.

(** ** Interfaces *)

Module ITable.
Record t : Type := mk { id : string; name : string; permissions : list string }.
End ITable.

Module IFile.
Record t : Type := mk { id : string; name : string; mimeType : string }.
End IFile.

Module ISheet.
Record t : Type := mk { spreadsheetId : string; sheetId : Z }.
End ISheet.

(** What [getCsv] resolves with. *)
Module ICsv.
Record t : Type := mk { data : string; hasGeometryData : option bool }.
End ICsv.

(** A cell's [userEnteredValue]. *)
Inductive ExtendedValue : Type :=
| stringValue (s : string)
| formulaValue (s : string).

(** A row of [appendCells]: the [userEnteredValue] of each of its cells. *)
Record RowData : Type := { values : list ExtendedValue }.

(** [Schema$Sheet], as far as [getFirstSheetWorker] reads it: both
    [properties] and [properties.sheetId] are optional. *)
Record SheetProperties : Type := { sheetId : option Z }.
Record Sheet : Type := { properties : option SheetProperties }.

(** A googleapis response. *)
Record Response (D : Type) : Type := { statusText : string; data : D }.
Arguments statusText {D} r.
Arguments data {D} r.

(** ** The outside world *)

Inductive Request : Type :=
| appendCells (sheetId : Z) (rows : list RowData)
| repeatCell (sheetId : Z)
| updateDimensionProperties (sheetId : Z)
| updateSheetProperties (sheetId : Z).

(** The external calls of a run, with their arguments. *)
Inductive ApiCall : Type :=
| call_findFile (name parent : string)
| call_spreadsheets_get (spreadsheetId : string)
| call_spreadsheets_batchUpdate (spreadsheetId : string) (requests : list Request)
| call_files_create (name parent body : string)
| call_getArchiveFolder
| call_getDriveUploadFolder (archiveFolderId : string)
| call_insertExportRowInIndexSheet (sheet : ISheet.t) (folderId : string).

(** The world is the history of external calls, oldest first; its length is
    the tick at which the next call is answered. *)
Definition World : Type := list ApiCall.

(** What the services answer at each tick. *)
Record Api : Type := {
  now : nat -> string;
  findFile_at : nat -> result (option string);
  spreadsheets_get_at : nat -> result (Response (list Sheet));
  spreadsheets_batchUpdate_at : nat -> result (Response unit);
  files_create_at : nat -> result (Response string);
  getArchiveFolder_at : nat -> result string;
  getDriveUploadFolder_at : nat -> result string;
  insertExportRowInIndexSheet_at : nat -> result unit;
  (** [Promise.all] rejects with the rejection that comes first. *)
  uploadFolderSettlesFirst : bool
}.

(** Asynchronous code that awaits external calls: state passing over the
    world, with rejection. *)
Definition M (A : Type) : Type := World -> result A * World.

Definition ret {A : Type} (a : A) : M A := fun w => (Ok a, w).

Definition throw {A : Type} (e : JsError) : M A := fun w => (Err e, w).

Definition bind {A B : Type} (m : M A) (k : A -> M B) : M B :=
  fun w =>
    match m w with
    | (Ok a, w') => k a w'
    | (Err e, w') => (Err e, w')
    end.

(** [try { m } catch (error) { h(error) }]. *)
Definition try_catch {A : Type} (m : M A) (h : JsError -> M A) : M A :=
  fun w =>
    match m w with
    | (Ok a, w') => (Ok a, w')
    | (Err e, w') => h e w'
    end.

(** An external call: recorded in the history, answered by the oracle. *)
Definition external {A : Type} (c : ApiCall) (answer : nat -> result A) : M A :=
  fun w => (answer (List.length w), (w ++ [c])%list).

Notation "x <- m ;; k" := (bind m (fun x => k))
  (at level 61, m at next level, right associativity).

(** [promiseRetry(retry => op().catch(retry), {retries})]: every rejection of
    [op] is handed to [retry]; [retry] starts another attempt while attempts
    remain and otherwise rejects with the error it was given. *)
Fixpoint promiseRetry {A : Type} (retries : nat) (op : M A) : M A :=
  fun w =>
    match op w with
    | (Ok a, w') => (Ok a, w')
    | (Err e, w') =>
        match retries with
        | O => (Err e, w')
        | S n => promiseRetry n op w'
        end
    end.

(** *** Observations on a row *)

(** [haystack.includes(needle)]. *)
Fixpoint includes (needle haystack : string) : bool :=
  String.prefix needle haystack ||
  match haystack with
  | EmptyString => false
  | String _ rest => includes needle rest
  end.

(** The fifth cell of a row is its visualization cell. *)
Definition visualizationCell (r : RowData) : option ExtendedValue :=
  nth_error (values r) 4.

(** The cell holds a link with a style parameter. *)
Definition styleQualified (v : ExtendedValue) : bool :=
  match v with
  | formulaValue f => includes "&style=" f
  | stringValue _ => false
  end.

(** The cell holds nothing. *)
Definition emptyCell (v : ExtendedValue) : bool :=
  match v with
  | formulaValue f => String.eqb f EmptyString
  | stringValue t => String.eqb t EmptyString
  end.

(** ** [log-file-export-in-index-sheet.ts] *)

Module LogFile.
Section LogFileExportInIndexSheet.
(** [IStyle], [getStyleHash] and the constants of [config/config] are
    declared outside the files at hand. *)
Variable IStyle : Type.
Variable getStyleHash : IStyle -> string.
Variable VISUALIZER_BASE_URI : string.
Variable MIME_TYPES_csv : string.
Variable RETRY_OPTIONS_retries : nat.
Variable api : Api.

Record ILogFileOptions : Type := {
  sheet : ISheet.t;
  table : ITable.t;
  driveFile : IFile.t;
  styles : list IStyle;
  hasGeometryData : bool;
  isLarge : bool
}.

Definition tableLink (options : ILogFileOptions) : string :=
  "https://fusiontables.google.com/DataSource?docid=" ++ ITable.id (table options).

Definition fileLink (options : ILogFileOptions) : string :=
  "https://drive.google.com/open?id=" ++ IFile.id (driveFile options).

Definition fileType (options : ILogFileOptions) : string :=
  if String.eqb (IFile.mimeType (driveFile options)) MIME_TYPES_csv
  then "CSV" else "Spreadsheet".

Definition visualizerBaseLink (options : ILogFileOptions) : string :=
  VISUALIZER_BASE_URI ++ "#file=" ++ IFile.id (driveFile options).

Definition largeSuffix (options : ILogFileOptions) : string :=
  if isLarge options then "&large=true" else EmptyString.

(** The formula of a visualization cell. *)
Definition hyperlink (visualizerLink visualizationId : string) : string :=
  "=HYPERLINK(" ++ dquote ++ visualizerLink ++ dquote ++ "," ++
  " " ++ dquote ++ "Visualization " ++ visualizationId ++ dquote ++ ")".

Definition noGeometryText : string := "Cannot visualize — no geometry found.".

Definition createRow (options : ILogFileOptions) (exportDate : string)
    (visualizerLink : option string) (index : option nat) : RowData :=
  let isFirstRow :=
    match index with
    | Some O => true
    | Some (S _) => false
    | None => true
    end in
  let visualizationId :=
    match index with
    | Some i => numberToString (i + 1)
    | None => EmptyString
    end in
  let visualizationValue :=
    match visualizerLink with
    | Some link =>
        if truthyString visualizerLink
        then formulaValue (hyperlink link visualizationId)
        else stringValue noGeometryText
    | None => stringValue noGeometryText
    end in
  {| values := [
       stringValue (IFile.name (driveFile options));
       stringValue (if isFirstRow then tableLink options else EmptyString);
       stringValue (if isFirstRow then fileLink options else EmptyString);
       stringValue (if isFirstRow then fileType options else EmptyString);
       visualizationValue;
       stringValue exportDate
     ] |}.

(** The link of one style's row. *)
Definition styleLink (options : ILogFileOptions) (style : IStyle) : string :=
  visualizerBaseLink options ++ "&style=" ++ getStyleHash style ++ largeSuffix options.

(** The [rows] the worker sends. *)
Definition rows (options : ILogFileOptions) (exportDate : string) : list RowData :=
  if negb (hasGeometryData options) then
    [createRow options exportDate None None]
  else if (0 <? List.length (styles options))%nat then
    mapi (fun style index =>
            createRow options exportDate (Some (styleLink options style))
              (if (1 <? List.length (styles options))%nat then Some index else None))
         (styles options)
  else
    [createRow options exportDate
       (Some (visualizerBaseLink options ++ largeSuffix options)) None].

Definition logFileExportInIndexSheetWorker (options : ILogFileOptions) : M unit :=
  fun w =>
    let exportDate := now api (List.length w) in
    (response <-
       external
         (call_spreadsheets_batchUpdate
            (ISheet.spreadsheetId (sheet options))
            [appendCells (ISheet.sheetId (sheet options)) (rows options exportDate)])
         (spreadsheets_batchUpdate_at api) ;;
     if String.eqb (statusText response) "OK"
     then ret tt
     else throw (Error ("Cannot log file export: " ++ statusText response))) w.

Definition logFileExportInIndexSheet (options : ILogFileOptions) : M unit :=
  promiseRetry RETRY_OPTIONS_retries (logFileExportInIndexSheetWorker options).

End LogFileExportInIndexSheet.

Arguments sheet {IStyle} _.
Arguments table {IStyle} _.
Arguments driveFile {IStyle} _.
Arguments styles {IStyle} _.
Arguments hasGeometryData {IStyle} _.
Arguments isLarge {IStyle} _.
Arguments tableLink {IStyle} _.
Arguments fileLink {IStyle} _.
Arguments fileType {IStyle} _ _.
Arguments visualizerBaseLink {IStyle} _ _.
Arguments largeSuffix {IStyle} _.
Arguments createRow {IStyle} _ _ _ _ _.
Arguments styleLink {IStyle} _ _ _ _.
Arguments rows {IStyle} _ _ _ _ _.
Arguments logFileExportInIndexSheetWorker {IStyle} _ _ _ _ _.
Arguments logFileExportInIndexSheet {IStyle} _ _ _ _ _ _.
End LogFile.

(** How many first-sheet lookups a history holds. *)
Definition lookups (w : World) : nat :=
  List.length
    (filter (fun c => match c with call_spreadsheets_get _ => true | _ => false end) w).

(** The lookup's answer for a spreadsheet that the Sheets API does not find. *)
Definition notFound : result (Response (list Sheet)) :=
  Err (GaxiosError (Some 404%Z)).

(** The lookup's answer for a spreadsheet whose first sheet has the id 0. *)
Definition zeroFirst (status : string) (others : list Sheet)
    : result (Response (list Sheet)) :=
  Ok {| statusText := status;
        data := {| properties := Some {| sheetId := Some 0%Z |} |} :: others |}.

(** ** [get-archive-index-sheet.ts] *)

Module IndexSheet.
Section GetArchiveIndexSheet.
(** Constants of [config/config]. *)
Variable DRIVE_ARCHIVE_INDEX_SHEET : string.
Variable RETRY_OPTIONS_retries : nat.
Variable api : Api.

Definition headerRowContent : string :=
  String.concat ","
    ["Exported file name"; "Source Fusiontable"; "Exported Spreadsheet/CSV";
     "Type"; "Visualization"; "Exported at"].

(** The message of the error raised for an index sheet of an older version. *)
Definition deprecatedFileMessage : string :=
  "The file " ++ dquote ++ DRIVE_ARCHIVE_INDEX_SHEET ++ dquote ++
  " was created by a deprecated " ++
  "version of the exporter. Please rename or remove it to allow the " ++
  "application to create a new one.".

Definition cannotFindSheetMessage (statusText : string) : string :=
  "Cannot find Sheet in Spreadsheet: " ++ statusText.

(** What the runtime raises on [undefined.data] and [undefined.properties]. *)
Definition readOfUndefined (property : string) : JsError :=
  TypeError ("Cannot read property '" ++ property ++ "' of undefined").

(** The [catch] block of [getFirstSheetWorker]: it reads
    [error.response.data.error.code] of whatever was thrown in the [try]
    block, the errors thrown by the block itself included. *)
Definition getFirstSheetWorker_catch (error : JsError) : M Z :=
  match error with
  | GaxiosError (Some code) =>
      if Z.eqb code 404
      then throw (Error deprecatedFileMessage)
      else throw error
  | GaxiosError None => throw (readOfUndefined "data")
  | Error _ => throw (readOfUndefined "data")
  | TypeError _ => throw (readOfUndefined "data")
  end.

Definition getFirstSheetWorker (spreadsheetId : string) : M Z :=
  try_catch
    (response <-
       external (call_spreadsheets_get spreadsheetId) (spreadsheets_get_at api) ;;
     match data response with
     | [] => throw (readOfUndefined "properties")
     | firstSheet :: _ =>
         let sheetId :=
           match properties firstSheet with
           | Some p => sheetId p
           | None => None
           end in
         match sheetId with
         | Some n =>
             if negb (truthyNumber sheetId)
             then throw (Error (cannotFindSheetMessage (statusText response)))
             else ret n
         | None => throw (Error (cannotFindSheetMessage (statusText response)))
         end
     end)
    getFirstSheetWorker_catch.

Definition getFirstSheet (spreadsheetId : string) : M Z :=
  promiseRetry RETRY_OPTIONS_retries (getFirstSheetWorker spreadsheetId).

Definition createSheetWorker (archiveFolderId : string) : M ISheet.t :=
  response <-
    external
      (call_files_create DRIVE_ARCHIVE_INDEX_SHEET archiveFolderId headerRowContent)
      (files_create_at api) ;;
  if negb (String.eqb (statusText response) "OK")
  then throw (Error ("Cannot create new Sheet: " ++ statusText response))
  else
    let spreadsheetId := data response in
    sheetId <- getFirstSheet spreadsheetId ;;
    _ <-
      external
        (call_spreadsheets_batchUpdate spreadsheetId
           [repeatCell sheetId; updateDimensionProperties sheetId;
            updateSheetProperties sheetId])
        (spreadsheets_batchUpdate_at api) ;;
    ret (ISheet.mk spreadsheetId sheetId).

Definition createSheet (archiveFolderId : string) : M ISheet.t :=
  promiseRetry RETRY_OPTIONS_retries (createSheetWorker archiveFolderId).

(** The default export of the file. *)
Definition getArchiveIndexSheet (archiveFolderId : string) : M ISheet.t :=
  spreadsheetId <-
    external (call_findFile DRIVE_ARCHIVE_INDEX_SHEET archiveFolderId)
      (findFile_at api) ;;
  match spreadsheetId with
  | Some id =>
      if negb (truthyString spreadsheetId)
      then createSheet archiveFolderId
      else
        sheetId <- getFirstSheet id ;;
        ret (ISheet.mk id sheetId)
  | None => createSheet archiveFolderId
  end.

End GetArchiveIndexSheet.
End IndexSheet.

(** ** The export module: sizes *)

(** Sizes are JavaScript numbers.  They are taken here as exact rationals:
    [Math.log], [/], [Math.floor] and [Math.pow] stand for the real functions
    they approximate, and the rounding error of the floating-point operations
    is outside the model.  The values the real functions do not have are the
    ones JavaScript gives: [Math.log(0)] is [-Infinity], which [Math.floor]
    keeps and [Math.pow(2, -Infinity)] turns into [0]. *)
Inductive Exponent : Type :=
| NegInfinity
| Finite (k : Z).

(** [Buffer.byteLength(data, 'utf8')], for [data] held as its UTF-8 bytes. *)
Definition Buffer_byteLength (data : string) : N := N.of_nat (String.length data).

(** [byteLength / 1024 / 1024]. *)
Definition fileSizeOf (byteLength : N) : Q :=
  inject_Z (Z.of_N byteLength) / 1024 / 1024.

(** [Math.pow(2, e)]. *)
Definition Math_pow2 (e : Exponent) : Q :=
  match e with
  | NegInfinity => 0
  | Finite k => Qpower 2 k
  end.

(** [Math.floor(Math.log(x) / Math.log(2))] for [x >= 0]: the greatest [k]
    with [2^k <= x], found from the bit lengths of numerator and denominator,
    which leave two candidates. *)
Definition Math_floor_log2 (x : Q) : Exponent :=
  if Qle_bool x 0 then NegInfinity
  else
    let k0 := (Z.log2 (Qnum x) - Z.log2 (Zpos (Qden x)))%Z in
    if Qle_bool (Qpower 2 k0) x then Finite k0 else Finite (k0 - 1).

Definition roundedFileSizeOf (fileSize : Q) : Q :=
  Math_pow2 (Math_floor_log2 fileSize).

(** [fileSize > 20]. *)
Definition isLargeOf (fileSize : Q) : bool := negb (Qle_bool fileSize 20).

(** ** The export module: [saveTable] and [doExport] *)

(** [list[i] = x]; nothing happens out of range (no such write occurs). *)
Fixpoint setNth {A : Type} (i : nat) (x : A) (l : list A) : list A :=
  match l, i with
  | [], _ => []
  | _ :: l', O => x :: l'
  | y :: l', S j => y :: setNth j x l'
  end.

Module DoExport.
Section DoExport.
Context {IStyle : Type}.
Variable DRIVE_ARCHIVE_INDEX_SHEET : string.
Variable RETRY_OPTIONS_retries : nat.
Variable api : Api.

Inductive Status : Type := success | error.

(** The calls of the export log, in the order they are made. *)
Inductive LogEvent : Type :=
| logExportStart (exportId : string) (tableCount : nat)
| logTableStart (exportId : string) (tableId : nat)
| logTableFinish (exportId : string) (tableId : nat) (status : Status)
    (roundedFileSize : Q)
| logExportFinish (exportId : string).

Record IDoExportOptions : Type := {
  do_ipHash : string;
  do_exportId : string;
  do_tables : list ITable.t
}.

Record ISaveTableOptions : Type := {
  tableId : nat;
  table : ITable.t;
  ipHash : string;
  folderId : string;
  archiveSheet : ISheet.t;
  exportId : string;
  isLast : bool
}.

(** The [let] variables of [saveTable]. *)
Record Locals : Type := {
  fileSize : Q;
  roundedFileSize : Q;
  isLarge : bool;
  hasGeometryData : bool;
  driveFile : option IFile.t;
  styles : list IStyle
}.

Definition initialLocals : Locals :=
  {| fileSize := 0; roundedFileSize := 0; isLarge := false;
     hasGeometryData := false; driveFile := None; styles := [] |}.

(** The argument of a call of [updateTableExportProgress] ([latency], a
    wall-clock difference, is left out). *)
Record ProgressUpdate : Type := {
  p_exportId : string;
  p_tableId : string;
  p_status : Status;
  p_error : option Message;
  p_driveFile : option IFile.t;
  p_styles : list IStyle;
  p_isLarge : bool;
  p_fileSize : Q;
  p_hasGeometryData : bool
}.

(** Where a call of [saveTable] stands: not yet started by the limiter, at
    one of its four [await]s, or returned.  For a [Promise.all] the phase
    records which of its promises have resolved. *)
Inductive Phase : Type :=
| Queued
| AwaitCsv
| AwaitUpload (uploaded : option IFile.t) (fetchedStyles : option (list IStyle))
| AwaitFinalize (logged permitted progressed : bool)
| AwaitErrorProgress
| Settled.

Record Worker : Type := {
  options : ISaveTableOptions;
  locals : Locals;
  phase : Phase
}.

(** The export as a whole: the workers by input index, the state of the
    limiter, and what has been logged, recorded and reported so far. *)
Record System : Type := {
  pool : list Worker;
  activeCount : nat;
  queue : list nat;
  exportLog : list LogEvent;
  progressUpdates : list ProgressUpdate;
  reported : list JsError
}.

Definition withWorker (i : nat) (wk : Worker) (s : System) : System :=
  {| pool := setNth i wk (pool s); activeCount := activeCount s;
     queue := queue s; exportLog := exportLog s;
     progressUpdates := progressUpdates s; reported := reported s |}.

Definition withLimiter (active : nat) (q : list nat) (s : System) : System :=
  {| pool := pool s; activeCount := active; queue := q;
     exportLog := exportLog s; progressUpdates := progressUpdates s;
     reported := reported s |}.

Definition logging (events : list LogEvent) (s : System) : System :=
  {| pool := pool s; activeCount := activeCount s; queue := queue s;
     exportLog := (exportLog s ++ events)%list;
     progressUpdates := progressUpdates s; reported := reported s |}.

Definition updateTableExportProgress (u : ProgressUpdate) (s : System) : System :=
  {| pool := pool s; activeCount := activeCount s; queue := queue s;
     exportLog := exportLog s;
     progressUpdates := (progressUpdates s ++ [u])%list;
     reported := reported s |}.

Definition errors_report (e : JsError) (s : System) : System :=
  {| pool := pool s; activeCount := activeCount s; queue := queue s;
     exportLog := exportLog s; progressUpdates := progressUpdates s;
     reported := (reported s ++ [e])%list |}.

Definition atPhase (p : Phase) (wk : Worker) : Worker :=
  {| options := options wk; locals := locals wk; phase := p |}.

Definition withLocals (l : Locals) (wk : Worker) : Worker :=
  {| options := options wk; locals := l; phase := phase wk |}.

(** *** The limiter ([p-limit]) *)

(** [run]: the slot is taken and [saveTable] runs up to its first [await]. *)
Definition run (i : nat) (s : System) : System :=
  match nth_error (pool s) i with
  | Some wk =>
      logging [logTableStart (exportId (options wk)) (tableId (options wk))]
        (withWorker i (atPhase AwaitCsv wk)
           (withLimiter (S (activeCount s)) (queue s) s))
  | None => s
  end.

(** [limit(fn)]: run now if a slot is free, otherwise wait in the queue. *)
Definition enqueue (concurrency : nat) (i : nat) (s : System) : System :=
  if (activeCount s <? concurrency)%nat
  then run i s
  else withLimiter (activeCount s) (queue s ++ [i])%list s.

(** [next]: a call has settled; its slot goes to the head of the queue. *)
Definition next (s : System) : System :=
  match queue s with
  | [] => withLimiter (Nat.pred (activeCount s)) [] s
  | j :: q => run j (withLimiter (Nat.pred (activeCount s)) q s)
  end.

(** *** [saveTable] *)

(** The argument of [updateTableExportProgress]; [e] is the error caught, of
    which the call passes [error.message]. *)
Definition progressOf (wk : Worker) (status : Status) (e : option JsError)
    : ProgressUpdate :=
  {| p_exportId := exportId (options wk);
     p_tableId := ITable.id (table (options wk));
     p_status := status;
     p_error := option_map messageOf e;
     p_driveFile := driveFile (locals wk);
     p_styles := styles (locals wk);
     p_isLarge := isLarge (locals wk);
     p_fileSize := roundedFileSize (locals wk);
     p_hasGeometryData := hasGeometryData (locals wk) |}.

(** The lines after [getCsv] has resolved, up to the first [Promise.all]. *)
Definition measure (csv : ICsv.t) (wk : Worker) : Worker :=
  let size := fileSizeOf (Buffer_byteLength (ICsv.data csv)) in
  withLocals
    {| fileSize := size;
       roundedFileSize := roundedFileSizeOf size;
       isLarge := isLargeOf size;
       hasGeometryData :=
         match ICsv.hasGeometryData csv with
         | Some b => b
         | None => false
         end;
       driveFile := driveFile (locals wk);
       styles := styles (locals wk) |}
    wk.

(** [[driveFile, styles] = await Promise.all([...])], both resolved. *)
Definition uploaded (file : IFile.t) (sty : list IStyle) (wk : Worker) : Worker :=
  withLocals
    {| fileSize := fileSize (locals wk);
       roundedFileSize := roundedFileSize (locals wk);
       isLarge := isLarge (locals wk);
       hasGeometryData := hasGeometryData (locals wk);
       driveFile := Some file;
       styles := sty |}
    wk.

(** Entering the [catch] block: the error is reported and the error progress
    update is started. *)
Definition catchBlock (i : nat) (wk : Worker) (e : JsError) (s : System) : System :=
  withWorker i (atPhase AwaitErrorProgress wk)
    (updateTableExportProgress (progressOf wk error (Some e))
       (errors_report e s)).

(** What the end of either block logs: [logTableFinish], and
    [logExportFinish] when [isLast]. *)
Definition finishEvents (wk : Worker) (status : Status) : list LogEvent :=
  logTableFinish (exportId (options wk)) (tableId (options wk)) status
    (roundedFileSize (locals wk))
  :: (if isLast (options wk)
      then [logExportFinish (exportId (options wk))]
      else []).

(** The end of either block: the log calls, and the call returns, which
    frees the limiter's slot. *)
Definition finish (i : nat) (wk : Worker) (status : Status) (s : System) : System :=
  next (withWorker i (atPhase Settled wk) (logging (finishEvents wk status) s)).

(** Entering the second [Promise.all]: its three calls are made. *)
Definition finalize (i : nat) (wk : Worker) (s : System) : System :=
  withWorker i (atPhase (AwaitFinalize false false false) wk)
    (updateTableExportProgress (progressOf wk success None) s).

(** After one more promise of the second [Promise.all] has resolved. *)
Definition finalized (i : nat) (wk : Worker) (l p g : bool) (s : System) : System :=
  if l && p && g
  then finish i wk success s
  else withWorker i (atPhase (AwaitFinalize l p g) wk) s.

(** What a worker can be told at an [await].  The calls of the export log
    and [errors.report] return at once and do not throw.
    [updateTableExportProgress] writes to the progress store of the process
    and resolves; the other calls resolve or reject.  A call that a rejected
    [Promise.all] leaves running is awaited by nobody, and its settlement
    resumes no worker: such calls are followed with the calls in flight,
    below. *)
Inductive Settlement : Type :=
| getCsv_settled (r : result ICsv.t)
| uploadToDrive_settled (r : result IFile.t)
| getFusiontableStyles_settled (r : result (list IStyle))
| logFileExportInIndexSheet_settled (r : result unit)
| addFilePermissions_settled (r : result unit)
| updateTableExportProgress_settled.

(** Worker [i] resumes on a settlement it is awaiting; [None] when it awaits
    no such thing. *)
Definition resume (i : nat) (ev : Settlement) (s : System) : option System :=
  match nth_error (pool s) i with
  | None => None
  | Some wk =>
      match phase wk, ev with
      | AwaitCsv, getCsv_settled (Ok csv) =>
          Some (withWorker i (atPhase (AwaitUpload None None) (measure csv wk)) s)
      | AwaitCsv, getCsv_settled (Err e) => Some (catchBlock i wk e s)
      | AwaitUpload None None, uploadToDrive_settled (Ok file) =>
          Some (withWorker i (atPhase (AwaitUpload (Some file) None) wk) s)
      | AwaitUpload None (Some sty), uploadToDrive_settled (Ok file) =>
          Some (finalize i (uploaded file sty wk) s)
      | AwaitUpload None _, uploadToDrive_settled (Err e) =>
          Some (catchBlock i wk e s)
      | AwaitUpload None None, getFusiontableStyles_settled (Ok sty) =>
          Some (withWorker i (atPhase (AwaitUpload None (Some sty)) wk) s)
      | AwaitUpload (Some file) None, getFusiontableStyles_settled (Ok sty) =>
          Some (finalize i (uploaded file sty wk) s)
      | AwaitUpload _ None, getFusiontableStyles_settled (Err e) =>
          Some (catchBlock i wk e s)
      | AwaitFinalize false p g, logFileExportInIndexSheet_settled (Ok _) =>
          Some (finalized i wk true p g s)
      | AwaitFinalize false _ _, logFileExportInIndexSheet_settled (Err e) =>
          Some (catchBlock i wk e s)
      | AwaitFinalize l false g, addFilePermissions_settled (Ok _) =>
          Some (finalized i wk l true g s)
      | AwaitFinalize _ false _, addFilePermissions_settled (Err e) =>
          Some (catchBlock i wk e s)
      | AwaitFinalize l p false, updateTableExportProgress_settled =>
          Some (finalized i wk l p true s)
      | AwaitErrorProgress, updateTableExportProgress_settled =>
          Some (finish i wk error s)
      | _, _ => None
      end
  end.

(** One step of the export: some worker resumes. *)
Definition step (s s' : System) : Prop :=
  exists i ev, resume i ev s = Some s'.

Inductive steps : System -> System -> Prop :=
| steps_refl s : steps s s
| steps_step s s' s'' : steps s s' -> step s' s'' -> steps s s''.

(** Nothing is awaited any more. *)
Definition quiescent (s : System) : Prop :=
  forall i ev, resume i ev s = None.

(** *** [doExport] *)

(** [Promise.all([a, b])]: both calls are made; the result is both values, or
    the rejection that comes first. *)
Definition Promise_all2 {A B : Type} (a : M A) (b : M B) : M (A * B) :=
  fun w =>
    let (ra, w1) := a w in
    let (rb, w2) := b w1 in
    match ra, rb with
    | Ok x, Ok y => (Ok (x, y), w2)
    | Err e, Ok _ => (Err e, w2)
    | Ok _, Err e => (Err e, w2)
    | Err ea, Err eb =>
        (Err (if uploadFolderSettlesFirst api then ea else eb), w2)
    end.

(** The [try] block of [doExport]. *)
Definition prepare : M (string * ISheet.t) :=
  archiveFolderId <- external call_getArchiveFolder (getArchiveFolder_at api) ;;
  shared <-
    Promise_all2
      (external (call_getDriveUploadFolder archiveFolderId)
         (getDriveUploadFolder_at api))
      (IndexSheet.getArchiveIndexSheet DRIVE_ARCHIVE_INDEX_SHEET
         RETRY_OPTIONS_retries api archiveFolderId) ;;
  _ <-
    external (call_insertExportRowInIndexSheet (snd shared) (fst shared))
      (insertExportRowInIndexSheet_at api) ;;
  ret shared.

(** The argument [saveTable] is called with for the table at [index]. *)
Definition saveTableOptions (o : IDoExportOptions) (folder : string)
    (sheet : ISheet.t) (t : ITable.t) (index : nat) : ISaveTableOptions :=
  {| tableId := index + 1;
     table := t;
     ipHash := do_ipHash o;
     folderId := folder;
     archiveSheet := sheet;
     exportId := do_exportId o;
     isLast := Z.eqb (Z.of_nat index) (Z.of_nat (List.length (do_tables o)) - 1) |}.

(** The export after [logExportStart], before anything is dispatched. *)
Definition started (o : IDoExportOptions) : System :=
  {| pool := []; activeCount := 0; queue := [];
     exportLog := [logExportStart (do_exportId o) (List.length (do_tables o))];
     progressUpdates := []; reported := [] |}.

(** The calls of [saveTable] that [tables.map] sets up, none started yet. *)
Definition recruits (o : IDoExportOptions) (folder : string) (sheet : ISheet.t)
    : list Worker :=
  mapi (fun t index =>
          {| options := saveTableOptions o folder sheet t index;
             locals := initialLocals;
             phase := Queued |})
       (do_tables o).

(** [tables.map((table, index) => limit(() => saveTable({...})))]. *)
Definition dispatch (concurrency : nat) (o : IDoExportOptions) (folder : string)
    (sheet : ISheet.t) (s : System) : System :=
  fold_left (fun acc i => enqueue concurrency i acc)
    (seq 0 (List.length (recruits o folder sheet)))
    {| pool := recruits o folder sheet;
       activeCount := activeCount s; queue := queue s;
       exportLog := exportLog s; progressUpdates := progressUpdates s;
       reported := reported s |}.

(** [doExport]: what the call resolves or rejects with, the world after the
    set-up, and the export as it stands when the call returns. *)
Definition doExport (o : IDoExportOptions) (w : World)
    : result string * World * System :=
  match prepare w with
  | (Ok (folder, sheet), w') =>
      (Ok folder, w', dispatch 1 o folder sheet (started o))
  | (Err e, w') => (Err e, w', started o)
  end.

(** *** Observations on a run *)

(** A schedule is run settlement by settlement. *)
Fixpoint resumeAll (schedule : list (nat * Settlement)) (s : System) : option System :=
  match schedule with
  | [] => Some s
  | (i, ev) :: rest =>
      match resume i ev s with
      | Some s' => resumeAll rest s'
      | None => None
      end
  end.

Definition isExportFinish (e : LogEvent) : bool :=
  match e with
  | logExportFinish _ => true
  | _ => false
  end.

(** How often [logExportFinish] has been called. *)
Definition exportFinishes (log : list LogEvent) : nat :=
  List.length (filter isExportFinish log).

(** Every [logExportFinish] comes directly after the [logTableFinish] of the
    table with id [n], for the same export; [prev] is the event before [log]. *)
Fixpoint finishesFollow (n : nat) (prev : option LogEvent) (log : list LogEvent) : bool :=
  match log with
  | [] => true
  | e :: log' =>
      match e with
      | logExportFinish id =>
          match prev with
          | Some (logTableFinish id' t _ _) => String.eqb id id' && Nat.eqb t n
          | _ => false
          end
      | _ => true
      end && finishesFollow n (Some e) log'
  end.

Definition isSettled (p : Phase) : bool :=
  match p with
  | Settled => true
  | _ => false
  end.

Definition isQueued (p : Phase) : bool :=
  match p with
  | Queued => true
  | _ => false
  end.

(** Started by the limiter and not yet returned. *)
Definition inProgress (p : Phase) : bool := negb (isQueued p) && negb (isSettled p).

(** Past the [await] of [getCsv] and not yet returned. *)
Definition pastFetch (p : Phase) : bool :=
  match p with
  | AwaitUpload _ _ => true
  | AwaitFinalize _ _ _ => true
  | AwaitErrorProgress => true
  | _ => false
  end.

(** Two distinct workers are past their fetch at the same time. *)
Definition overlap (s : System) : Prop :=
  exists i j wi wj,
    i <> j /\
    nth_error (pool s) i = Some wi /\ nth_error (pool s) j = Some wj /\
    pastFetch (phase wi) = true /\ pastFetch (phase wj) = true.

Definition count (b : bool) : nat := if b then 0%nat else 1%nat.

Definition unresolved {A : Type} (o : option A) : nat :=
  match o with
  | Some _ => 0%nat
  | None => 1%nat
  end.

(** How many more resumptions a worker can take at most. *)
Definition phaseWeight (p : Phase) : nat :=
  match p with
  | Queued => 10
  | AwaitCsv => 9
  | AwaitUpload f sty => 6 + unresolved f + unresolved sty
  | AwaitFinalize l p g => 2 + count l + count p + count g
  | AwaitErrorProgress => 1
  | Settled => 0
  end.

Definition weight (s : System) : nat :=
  list_sum (map (fun wk => phaseWeight (phase wk)) (pool s)).

(** *** The shape of a run *)

(** Awaiting something that can still settle. *)
Definition live (p : Phase) : bool :=
  match p with
  | AwaitCsv => true
  | AwaitUpload (Some _) (Some _) => false
  | AwaitUpload _ _ => true
  | AwaitFinalize true true true => false
  | AwaitFinalize _ _ _ => true
  | AwaitErrorProgress => true
  | _ => false
  end.

(** The worker at index [i] has the table id [i + 1], and [isLast] marks the
    last index. *)
Definition numbered (l : list ISaveTableOptions) : Prop :=
  forall i o,
    nth_error l i = Some o ->
    tableId o = (i + 1)%nat /\ isLast o = Nat.eqb (i + 1) (List.length l).

(** One worker is running: those before it have returned, those after it
    wait in the queue, in order; the export is not yet logged as finished. *)
Definition Running (s : System) (done : list Worker) (wk : Worker)
    (rest : list Worker) : Prop :=
  pool s = (done ++ wk :: rest)%list /\
  Forall (fun w => phase w = Settled) done /\
  live (phase wk) = true /\
  Forall (fun w => phase w = Queued) rest /\
  activeCount s = 1%nat /\
  queue s = seq (S (List.length done)) (List.length rest) /\
  exportFinishes (exportLog s) = 0%nat.

(** All workers have returned; the export is logged as finished once, unless
    it had no table. *)
Definition Finished (s : System) : Prop :=
  Forall (fun w => phase w = Settled) (pool s) /\
  activeCount s = 0%nat /\
  queue s = [] /\
  exportFinishes (exportLog s) =
    match pool s with
    | [] => 0%nat
    | _ :: _ => 1%nat
    end.

Definition Serial (s : System) : Prop :=
  numbered (map options (pool s)) /\
  finishesFollow (List.length (pool s)) None (exportLog s) = true /\
  ((exists done wk rest, Running s done wk rest) \/ Finished s).

(** The parts of the export that a worker's progress between its first
    [await] and its return leaves alone. *)
Definition untouched (s s1 : System) : Prop :=
  pool s1 = pool s /\ activeCount s1 = activeCount s /\
  queue s1 = queue s /\ exportLog s1 = exportLog s.

(** The last event of a log, or [prev] for the empty log. *)
Definition lastEvent (prev : option LogEvent) (log : list LogEvent) : option LogEvent :=
  fold_left (fun _ e => Some e) log prev.

End DoExport.

Arguments Locals IStyle : clear implicits.
Arguments ProgressUpdate IStyle : clear implicits.
Arguments Phase IStyle : clear implicits.
Arguments Worker IStyle : clear implicits.
Arguments System IStyle : clear implicits.
Arguments Settlement IStyle : clear implicits.
End DoExport.

(** ** Calls in flight *)

(** The calls that [saveTable] makes and awaits. *)
Inductive Call : Type :=
| getCsv_call
| uploadToDrive_call
| getFusiontableStyles_call
| logFileExportInIndexSheet_call
| addFilePermissions_call
| updateTableExportProgress_call.

Definition Call_eqb (a b : Call) : bool :=
  match a, b with
  | getCsv_call, getCsv_call => true
  | uploadToDrive_call, uploadToDrive_call => true
  | getFusiontableStyles_call, getFusiontableStyles_call => true
  | logFileExportInIndexSheet_call, logFileExportInIndexSheet_call => true
  | addFilePermissions_call, addFilePermissions_call => true
  | updateTableExportProgress_call, updateTableExportProgress_call => true
  | _, _ => false
  end.

Section Flight.
Context {IStyle : Type}.
Import DoExport.

(** The calls that a worker in phase [p] has made and is awaiting. *)
Definition awaited (p : Phase IStyle) : list Call :=
  match p with
  | AwaitCsv => [getCsv_call]
  | AwaitUpload file sty =>
      (match file with Some _ => [] | None => [uploadToDrive_call] end) ++
      (match sty with Some _ => [] | None => [getFusiontableStyles_call] end)
  | AwaitFinalize l p g =>
      (if l then [] else [logFileExportInIndexSheet_call]) ++
      (if p then [] else [addFilePermissions_call]) ++
      (if g then [] else [updateTableExportProgress_call])
  | AwaitErrorProgress => [updateTableExportProgress_call]
  | Queued | Settled => []
  end%list.

(** The call that a settlement is the end of. *)
Definition callOf (ev : Settlement IStyle) : Call :=
  match ev with
  | getCsv_settled _ => getCsv_call
  | uploadToDrive_settled _ => uploadToDrive_call
  | getFusiontableStyles_settled _ => getFusiontableStyles_call
  | logFileExportInIndexSheet_settled _ => logFileExportInIndexSheet_call
  | addFilePermissions_settled _ => addFilePermissions_call
  | updateTableExportProgress_settled => updateTableExportProgress_call
  end.

Definition isRejection (ev : Settlement IStyle) : bool :=
  match ev with
  | getCsv_settled (Err _) => true
  | uploadToDrive_settled (Err _) => true
  | getFusiontableStyles_settled (Err _) => true
  | logFileExportInIndexSheet_settled (Err _) => true
  | addFilePermissions_settled (Err _) => true
  | _ => false
  end.

(** The calls that worker [i] leaves running when it resumes on [ev]: a
    rejection takes it out of its [Promise.all], whose other calls, as far
    as they have not settled, go on; [Promise.all] cancels nothing. *)
Definition abandoned (i : nat) (ev : Settlement IStyle) (s : System IStyle)
    : list (nat * Call) :=
  match nth_error (pool s) i with
  | Some wk =>
      if isRejection ev
      then map (pair i)
             (filter (fun c => negb (Call_eqb c (callOf ev))) (awaited (phase wk)))
      else []
  | None => []
  end.

(** An export together with the calls that its workers have abandoned,
    each with the index of the worker that made it. *)
Record Flight : Type := {
  system : System IStyle;
  orphans : list (nat * Call)
}.

(** One step of an export with its abandoned calls: a worker resumes on a
    settlement it awaits, or an abandoned call settles, of which nothing
    comes. *)
Inductive fly : Flight -> Flight -> Prop :=
| fly_resume i ev s s' o :
    resume i ev s = Some s' ->
    fly {| system := s; orphans := o |}
        {| system := s'; orphans := (o ++ abandoned i ev s)%list |}
| fly_settle s o1 c o2 :
    fly {| system := s; orphans := (o1 ++ c :: o2)%list |}
        {| system := s; orphans := (o1 ++ o2)%list |}.

Inductive flies : Flight -> Flight -> Prop :=
| flies_refl f : flies f f
| flies_step f f' f'' : flies f f' -> fly f' f'' -> flies f f''.

(** The export as [doExport] leaves it: nothing is abandoned yet. *)
Definition takeoff (s : System IStyle) : Flight :=
  {| system := s; orphans := [] |}.

(** The calls that the workers are awaiting, each with its worker's index. *)
Definition awaitedCalls (s : System IStyle) : list (nat * Call) :=
  concat (mapi (fun wk i => map (pair i) (awaited (phase wk))) (pool s)).

(** The calls in flight: made and not settled. *)
Definition inFlight (f : Flight) : list (nat * Call) :=
  (awaitedCalls (system f) ++ orphans f)%list.

(** Every abandoned call is another than the fetch and was made by a worker
    that has entered its [catch] block; without a reported error nothing is
    abandoned. *)
Definition Grounded (f : Flight) : Prop :=
  (forall i c,
     In (i, c) (orphans f) ->
     c <> getCsv_call /\
     exists wk,
       nth_error (pool (system f)) i = Some wk /\
       (phase wk = AwaitErrorProgress \/ phase wk = Settled)) /\
  (reported (system f) = [] -> orphans f = []).

(** What happens in a flight: a worker resumes, or an abandoned call
    settles. *)
Inductive Happening : Type :=
| worker_resumes (i : nat) (ev : Settlement IStyle)
| orphan_settles (i : nat) (c : Call).

(** [l] without the first occurrence of the call [c] of worker [i]. *)
Fixpoint withoutFirst (i : nat) (c : Call) (l : list (nat * Call))
    : option (list (nat * Call)) :=
  match l with
  | [] => None
  | (j, d) :: l' =>
      if Nat.eqb i j && Call_eqb c d
      then Some l'
      else option_map (cons (j, d)) (withoutFirst i c l')
  end.

(** A flight is run happening by happening. *)
Fixpoint flyAll (schedule : list Happening) (f : Flight) : option Flight :=
  match schedule with
  | [] => Some f
  | worker_resumes i ev :: rest =>
      match resume i ev (system f) with
      | Some s' =>
          flyAll rest
            {| system := s';
               orphans := (orphans f ++ abandoned i ev (system f))%list |}
      | None => None
      end
  | orphan_settles i c :: rest =>
      match withoutFirst i c (orphans f) with
      | Some o => flyAll rest {| system := system f; orphans := o |}
      | None => None
      end
  end.

End Flight.

Arguments Flight IStyle : clear implicits.
Arguments Happening IStyle : clear implicits.

(** ** Sample inputs *)

Module Sample.

(** Styles are taken as their own hashes. *)
Definition getStyleHash (style : string) : string := style.

Definition VISUALIZER_BASE_URI : string := "https://visualizer.example/".

Definition MIME_TYPES_csv : string := "text/csv".

Definition DRIVE_ARCHIVE_INDEX_SHEET : string := "ft-archive-index".

Definition indexSheet : ISheet.t := ISheet.mk "SHEET" 7.

Definition cities : ITable.t := ITable.mk "T1" "cities" [].

Definition rivers : ITable.t := ITable.mk "T2" "rivers" [].

Definition citiesCsv : IFile.t := IFile.mk "F1" "cities" "text/csv".

Definition logOptions (styles : list string) (hasGeometryData : bool)
    : LogFile.ILogFileOptions string :=
  {| LogFile.sheet := indexSheet;
     LogFile.table := cities;
     LogFile.driveFile := citiesCsv;
     LogFile.styles := styles;
     LogFile.hasGeometryData := hasGeometryData;
     LogFile.isLarge := false |}.

Definition rows (styles : list string) (hasGeometryData : bool) : list RowData :=
  LogFile.rows getStyleHash VISUALIZER_BASE_URI MIME_TYPES_csv
    (logOptions styles hasGeometryData) "2019-12-03T10:00:00.000Z".

Definition sheetWithId (n : Z) : Response (list Sheet) :=
  {| statusText := "OK";
     data := [ {| properties := Some {| sheetId := Some n |} |} ] |}.

(** Services that answer every call well, except that the first-sheet lookup
    is answered by [lookup]. *)
Definition services (lookup : nat -> result (Response (list Sheet))) : Api :=
  {| now := fun _ => "2019-12-03T10:00:00.000Z";
     findFile_at := fun _ => Ok (Some "SHEET");
     spreadsheets_get_at := lookup;
     spreadsheets_batchUpdate_at := fun _ => Ok {| statusText := "OK"; data := tt |};
     files_create_at := fun _ => Ok {| statusText := "OK"; data := "NEW" |};
     getArchiveFolder_at := fun _ => Ok "ARCHIVE";
     getDriveUploadFolder_at := fun _ => Ok "UPLOAD";
     insertExportRowInIndexSheet_at := fun _ => Ok tt;
     uploadFolderSettlesFirst := true |}.

(** The lookup at tick 1, the first after the search for the file, finds no
    such spreadsheet; later lookups find the sheet with id 7. *)
Definition notFoundOnce : Api :=
  services (fun tick =>
              if (tick <=? 1)%nat
              then Err (GaxiosError (Some 404%Z))
              else Ok (sheetWithId 7)).

(** Every lookup finds no such spreadsheet. *)
Definition legacyArtifact : Api :=
  services (fun _ => Err (GaxiosError (Some 404%Z))).

(** The first sheet of the spreadsheet has the id 0. *)
Definition firstSheetZero : Api := services (fun _ => Ok (sheetWithId 0)).

Definition healthy : Api := services (fun _ => Ok (sheetWithId 7)).

(** The upload folder cannot be created. *)
Definition noUploadFolder : Api :=
  {| now := now healthy;
     findFile_at := findFile_at healthy;
     spreadsheets_get_at := spreadsheets_get_at healthy;
     spreadsheets_batchUpdate_at := spreadsheets_batchUpdate_at healthy;
     files_create_at := files_create_at healthy;
     getArchiveFolder_at := getArchiveFolder_at healthy;
     getDriveUploadFolder_at := fun _ => Err (GaxiosError (Some 403%Z));
     insertExportRowInIndexSheet_at := insertExportRowInIndexSheet_at healthy;
     uploadFolderSettlesFirst := true |}.

Definition job (tables : list ITable.t) : DoExport.IDoExportOptions :=
  {| DoExport.do_ipHash := "hash";
     DoExport.do_exportId := "E1";
     DoExport.do_tables := tables |}.

Definition doExport (api : Api) (tables : list ITable.t)
    : result string * World * DoExport.System string :=
  DoExport.doExport DRIVE_ARCHIVE_INDEX_SHEET 2 api (job tables) [].

Definition citiesData : ICsv.t := ICsv.mk "name,lat,lng" (Some true).

(** The settlements that take worker [i] through a successful export. *)
Definition finishWell (i : nat) : list (nat * DoExport.Settlement string) :=
  [(i, DoExport.getCsv_settled (Ok citiesData));
   (i, DoExport.uploadToDrive_settled (Ok citiesCsv));
   (i, DoExport.getFusiontableStyles_settled (Ok ["blue"]));
   (i, DoExport.logFileExportInIndexSheet_settled (Ok tt));
   (i, DoExport.addFilePermissions_settled (Ok tt));
   (i, DoExport.updateTableExportProgress_settled)].

(** The settlements that make worker [i] fail at its fetch. *)
Definition finishBadly (i : nat) : list (nat * DoExport.Settlement string) :=
  [(i, DoExport.getCsv_settled (Err (GaxiosError (Some 500%Z))));
   (i, DoExport.updateTableExportProgress_settled)].

(** The export of two tables as [doExport] leaves it. *)
Definition dispatched : DoExport.System string :=
  snd (doExport healthy [cities; rivers]).

(** The export of two tables after the given settlements. *)
Definition run (schedule : list (nat * DoExport.Settlement string))
    : option (DoExport.System string) :=
  DoExport.resumeAll schedule dispatched.

Definition after (schedule : list (nat * DoExport.Settlement string))
    : DoExport.System string :=
  match run schedule with
  | Some s => s
  | None => dispatched
  end.

(** The first table fails, the second is exported. *)
Definition lastSucceeds : DoExport.System string :=
  after (finishBadly 0 ++ finishWell 1).

(** The first table is exported, the second fails. *)
Definition lastFails : DoExport.System string :=
  after (finishWell 0 ++ finishBadly 1).

(** The first table is being uploaded. *)
Definition firstUploading : DoExport.System string :=
  after [(0%nat, DoExport.getCsv_settled (Ok citiesData))].

End Sample.

(** ** Further observations *)

(** How many [files.create] requests a history holds, whatever they were
    answered. *)
Definition creations (w : World) : nat :=
  List.length
    (filter (fun c => match c with call_files_create _ _ _ => true | _ => false end) w).

(** How many spreadsheets the calls [w], the first of them made at [tick],
    have created: a [files.create] request that the service answers creates
    one, whatever the status text of the answer; one that it rejects is
    taken to create none. *)
Fixpoint createdFrom (api : Api) (tick : nat) (w : World) : nat :=
  match w with
  | [] => 0%nat
  | call :: w' =>
      (match call, files_create_at api tick with
       | call_files_create _ _ _, Ok _ => 1
       | _, _ => 0
       end + createdFrom api (S tick) w')%nat
  end.

(** How many spreadsheets a history has created. *)
Definition created (api : Api) (w : World) : nat := createdFrom api 0 w.

(** The calls of [k] successive attempts that make one call each, the first
    at [tick]. *)
Fixpoint attempts (call : nat -> ApiCall) (tick k : nat) : list ApiCall :=
  match k with
  | O => []
  | S k' => call tick :: attempts call (S tick) k'
  end.

(** What an attempt to append rows fails with, if it fails: the rejection of
    the call, or the error made from a status text other than OK. *)
Definition appendFailure (answer : result (Response unit)) : option JsError :=
  match answer with
  | Err e => Some e
  | Ok r =>
      if String.eqb (statusText r) "OK"
      then None
      else Some (Error ("Cannot log file export: " ++ statusText r))
  end.

(** The call by which the worker of the index-sheet log appends the rows of
    [o] at [tick]. *)
Definition appendCall {IStyle : Type} (getStyleHash : IStyle -> string)
    (VISUALIZER_BASE_URI MIME_TYPES_csv : string) (api : Api)
    (o : LogFile.ILogFileOptions IStyle) (tick : nat) : ApiCall :=
  call_spreadsheets_batchUpdate
    (ISheet.spreadsheetId (LogFile.sheet o))
    [appendCells (ISheet.sheetId (LogFile.sheet o))
       (LogFile.rows getStyleHash VISUALIZER_BASE_URI MIME_TYPES_csv o
          (now api tick))].

(** The sheet id that an answer to the first-sheet lookup holds, if it holds
    one that JavaScript takes for present: the first sheet has properties and
    an id other than 0. *)
Definition firstSheetId (answer : result (Response (list Sheet))) : option Z :=
  match answer with
  | Ok r =>
      match data r with
      | first :: _ =>
          match properties first with
          | Some p =>
              match sheetId p with
              | Some n => if Z.eqb n 0 then None else Some n
              | None => None
              end
          | None => None
          end
      | [] => None
      end
  | Err _ => None
  end.


(** ** The journal of an export *)

Section Journal.
Context {IStyle : Type}.
Import DoExport.

(** How a call of [saveTable] ended: in its [try] block or in its [catch]
    block, with the error caught there. *)
Inductive Outcome : Type :=
| tableExported
| tableFailed (e : JsError).

Definition outcomeStatus (oc : Outcome) : Status :=
  match oc with
  | tableExported => success
  | tableFailed _ => error
  end.

(** [driveFile] has been assigned. *)
Definition hasFile (wk : Worker IStyle) : bool :=
  match driveFile (locals wk) with
  | Some _ => true
  | None => false
  end.

(** What a call of [saveTable] that ended with [oc] has logged. *)
Definition logged (wk : Worker IStyle) (oc : Outcome) : list LogEvent :=
  logTableStart (exportId (options wk)) (tableId (options wk))
  :: finishEvents wk (outcomeStatus oc).

(** The progress updates of a call of [saveTable] that ended with [oc]: the
    update of the [try] block is made once [driveFile] is assigned, the one of
    the [catch] block after an error. *)
Definition recorded (wk : Worker IStyle) (oc : Outcome)
    : list (ProgressUpdate IStyle) :=
  match oc with
  | tableExported => [progressOf wk success None]
  | tableFailed e =>
      (if hasFile wk then [progressOf wk success None] else []) ++
      [progressOf wk error (Some e)]
  end%list.

(** What it has passed to [errors.report]. *)
Definition raised (oc : Outcome) : list JsError :=
  match oc with
  | tableExported => []
  | tableFailed e => [e]
  end.

(** The messages that the progress updates with status [error] carry. *)
Definition errorsRecorded (ups : list (ProgressUpdate IStyle)) : list Message :=
  flat_map
    (fun u =>
       match p_status u, p_error u with
       | error, Some m => [m]
       | _, _ => []
       end)
    ups.

(** The progress updates and reports that the call under way has made. *)
Definition underWay (wk : Worker IStyle) (ups : list (ProgressUpdate IStyle))
    (errs : list JsError) : Prop :=
  match phase wk with
  | AwaitCsv | AwaitUpload _ _ => hasFile wk = false /\ ups = [] /\ errs = []
  | AwaitFinalize _ _ _ =>
      hasFile wk = true /\ ups = [progressOf wk success None] /\ errs = []
  | AwaitErrorProgress =>
      exists e, ups = recorded wk (tableFailed e) /\ errs = [e]
  | Queued | Settled => False
  end.

(** The export log, the progress updates and the reports are those of the
    calls that have returned, in input order, followed by those of the call
    under way; [header] is what [doExport] itself has logged. *)
Definition Journal (header : LogEvent) (s : System IStyle) : Prop :=
  exists (hist : list (Worker IStyle * Outcome)) (current : list (Worker IStyle))
         (ups : list (ProgressUpdate IStyle)) (errs : list JsError),
    pool s = (map fst hist ++ current)%list /\
    Forall (fun h => phase (fst h) = Settled /\
                     (snd h = tableExported -> hasFile (fst h) = true)) hist /\
    exportLog s =
      (header :: flat_map (fun h => logged (fst h) (snd h)) hist ++
       match current with
       | [] => []
       | wk :: _ => [logTableStart (exportId (options wk)) (tableId (options wk))]
       end)%list /\
    progressUpdates s =
      (flat_map (fun h => recorded (fst h) (snd h)) hist ++ ups)%list /\
    reported s = (flat_map (fun h => raised (snd h)) hist ++ errs)%list /\
    match current with
    | [] => ups = [] /\ errs = []
    | wk :: rest =>
        underWay wk ups errs /\ Forall (fun w => hasFile w = false) rest
    end.

End Journal.

(** ** The OAuth client *)

Module Auth.

(** A possibly undefined string inside a template literal. *)
Definition interpolated (x : option string) : string :=
  match x with
  | Some s => s
  | None => "undefined"
  end.

(** The [redirectUri] of [getOAuthClient]; [host] is [req.headers.host]. *)
Definition redirectUri (host : option string) : string :=
  if truthyString host &&
     match host with
     | Some h => String.eqb h "localhost:3000"
     | None => false
     end
  then "http://localhost:3000/auth/callback"
  else "https://" ++ interpolated host ++ "/auth/callback".

End Auth.

(** ** The page of an export *)

Module Client.

(** The values of [status]: ['loading'], ['success'] and ['error']. *)
Inductive Status : Type := status_loading | status_success | status_error.

Definition isLoading (s : Status) : bool :=
  match s with
  | status_loading => true
  | _ => false
  end.

(** [ITableExport], as far as the page reads it. *)
Record ITableExport : Type := {
  status : Status;
  error : option string;
  tableId : string;
  driveFile : option IFile.t;
  styles : list string;
  isLarge : bool;
  hasGeometryData : bool
}.

Section Page.
Variable VISUALIZER_BASE_URI : string.

(** Whether [document.querySelector] finds the list entry of a table. *)
Variable listed : string -> bool.

(** The [url] of [renderVisualizationLink]. *)
Definition visualizationUrl (id : string) (large : bool) (style : option string)
    : string :=
  let url := VISUALIZER_BASE_URI ++ "#file=" ++ id in
  let url :=
    if truthyString style
    then url ++ "&style=" ++ Auth.interpolated style
    else url in
  if large then url ++ "&large=true" else url.

(** The [type] that [updateTable] shows for a Drive file. *)
Definition fileType (mimeType : string) : string :=
  if String.eqb mimeType "application/vnd.google-apps.spreadsheet"
  then "Spreadsheet" else "CSV".

(** The visualization links that [updateTable] renders for a table that has
    a list entry. *)
Definition visualizationUrls (data : ITableExport) : list string :=
  match driveFile data with
  | None => []
  | Some file =>
      if hasGeometryData data then
        if (0 <? List.length (styles data))%nat then
          map (fun style =>
                 visualizationUrl (IFile.id file) (isLarge data) (Some style))
              (styles data)
        else [visualizationUrl (IFile.id file) (isLarge data) None]
      else []
  end.

(** What [updateTable] does to [renderedTableExports]. *)
Definition updateTable (data : ITableExport) (renderedTableExports : list string)
    : list string :=
  if listed (tableId data)
  then (renderedTableExports ++ [tableId data])%list
  else renderedTableExports.

(** [renderedTableExports.indexOf(id) === -1]. *)
Definition notRendered (renderedTableExports : list string) (id : string) : bool :=
  negb (existsb (String.eqb id) renderedTableExports).

(** The tables of a response that are passed to [updateTable]. *)
Definition fresh (renderedTableExports : list string)
    (tableExports : list ITableExport) : list ITableExport :=
  filter (fun t => negb (isLoading (status t)) &&
                   notRendered renderedTableExports (tableId t))
         tableExports.

(** [request.onload] for a response with the HTTP status [httpStatus] and the
    body [tableExports]: whether the updates are requested again, and
    [renderedTableExports] afterwards. *)
Definition onload (httpStatus : Z) (tableExports : list ITableExport)
    (renderedTableExports : list string) : bool * list string :=
  if (200 <=? httpStatus)%Z && (httpStatus <? 400)%Z then
    (existsb (fun t => isLoading (status t)) tableExports,
     fold_left (fun rendered t => updateTable t rendered)
       (fresh renderedTableExports tableExports) renderedTableExports)
  else (true, renderedTableExports).

End Page.
End Client.

(** ** More sample inputs *)

Module Cases.

(** Appending rows is refused at the first [failures] ticks. *)
Definition flaky (failures : nat) : Api :=
  {| now := now Sample.healthy;
     findFile_at := findFile_at Sample.healthy;
     spreadsheets_get_at := spreadsheets_get_at Sample.healthy;
     spreadsheets_batchUpdate_at :=
       fun tick =>
         if (tick <? failures)%nat
         then Err (GaxiosError (Some 503%Z))
         else Ok {| statusText := "OK"; data := tt |};
     files_create_at := files_create_at Sample.healthy;
     getArchiveFolder_at := getArchiveFolder_at Sample.healthy;
     getDriveUploadFolder_at := getDriveUploadFolder_at Sample.healthy;
     insertExportRowInIndexSheet_at := insertExportRowInIndexSheet_at Sample.healthy;
     uploadFolderSettlesFirst := true |}.

(** The Sheets API cannot be reached: the lookups fail without a response. *)
Definition unreachable : Api := Sample.services (fun _ => Err (GaxiosError None)).

(** An archive folder without index sheet; the first-sheet lookup is answered
    by [lookup]. *)
Definition fresh (lookup : nat -> result (Response (list Sheet))) : Api :=
  {| now := now Sample.healthy;
     findFile_at := fun _ => Ok None;
     spreadsheets_get_at := lookup;
     spreadsheets_batchUpdate_at := spreadsheets_batchUpdate_at Sample.healthy;
     files_create_at := files_create_at Sample.healthy;
     getArchiveFolder_at := getArchiveFolder_at Sample.healthy;
     getDriveUploadFolder_at := getDriveUploadFolder_at Sample.healthy;
     insertExportRowInIndexSheet_at := insertExportRowInIndexSheet_at Sample.healthy;
     uploadFolderSettlesFirst := true |}.

Definition created : Api := fresh (fun _ => Ok (Sample.sheetWithId 7)).

(** Every created spreadsheet has a first sheet with the id 0. *)
Definition createdZero : Api := fresh (fun _ => Ok (Sample.sheetWithId 0)).

(** An archive folder without index sheet, in which no file may be
    created. *)
Definition createRefused : Api :=
  {| now := now Sample.healthy;
     findFile_at := fun _ => Ok None;
     spreadsheets_get_at := spreadsheets_get_at Sample.healthy;
     spreadsheets_batchUpdate_at := spreadsheets_batchUpdate_at Sample.healthy;
     files_create_at := fun _ => Err (GaxiosError (Some 403%Z));
     getArchiveFolder_at := getArchiveFolder_at Sample.healthy;
     getDriveUploadFolder_at := getDriveUploadFolder_at Sample.healthy;
     insertExportRowInIndexSheet_at := insertExportRowInIndexSheet_at Sample.healthy;
     uploadFolderSettlesFirst := true |}.

(** The spreadsheet exists; the lookups fail with a 500 twice and then with
    a 404 (the search for the file is the call at tick 0). *)
Definition lastNotFound : Api :=
  Sample.services (fun tick =>
                     if (tick <=? 2)%nat
                     then Err (GaxiosError (Some 500%Z))
                     else Err (GaxiosError (Some 404%Z))).

(** The lookups fail with a 404 twice and then with a 500. *)
Definition lastUnavailable : Api :=
  Sample.services (fun tick =>
                     if (tick <=? 2)%nat
                     then Err (GaxiosError (Some 404%Z))
                     else Err (GaxiosError (Some 500%Z))).

Definition getArchiveIndexSheet (api : Api) : result ISheet.t * World :=
  IndexSheet.getArchiveIndexSheet Sample.DRIVE_ARCHIVE_INDEX_SHEET 2 api "ARCHIVE" [].

Definition refused : JsError := GaxiosError (Some 403%Z).

(** The settlements that take worker [i] to its second group of calls. *)
Definition upload (i : nat) : list (nat * DoExport.Settlement string) :=
  [(i, DoExport.getCsv_settled (Ok Sample.citiesData));
   (i, DoExport.uploadToDrive_settled (Ok Sample.citiesCsv));
   (i, DoExport.getFusiontableStyles_settled (Ok ["blue"]))].

(** The settlements that make worker [i] fail at the row of the index sheet,
    after its upload. *)
Definition finishLate (i : nat) : list (nat * DoExport.Settlement string) :=
  (upload i ++
   [(i, DoExport.logFileExportInIndexSheet_settled (Err refused));
    (i, DoExport.updateTableExportProgress_settled)])%list.

(** The first table has been uploaded and awaits its second group of calls. *)
Definition finalizing : DoExport.System string := Sample.after (upload 0).

(** The first table fails after its upload, the second is exported. *)
Definition lateFailure : DoExport.System string :=
  Sample.after (finishLate 0 ++ Sample.finishWell 1).

(** The styles of the first table cannot be fetched while its upload is
    still under way; the table fails and the second table is fetched and
    begins its upload. *)
Definition straying : list (Happening string) :=
  [worker_resumes 0 (DoExport.getCsv_settled (Ok Sample.citiesData));
   worker_resumes 0 (DoExport.getFusiontableStyles_settled (Err refused));
   worker_resumes 0 DoExport.updateTableExportProgress_settled;
   worker_resumes 1 (DoExport.getCsv_settled (Ok Sample.citiesData))].

Definition strayUpload : Flight string :=
  match flyAll straying (takeoff Sample.dispatched) with
  | Some f => f
  | None => takeoff Sample.dispatched
  end.

(** What the page is told about the first table, exported with two styles. *)
Definition citiesExport : Client.ITableExport :=
  {| Client.status := Client.status_success;
     Client.error := None;
     Client.tableId := "T1";
     Client.driveFile := Some Sample.citiesCsv;
     Client.styles := ["blue"; "red"];
     Client.isLarge := false;
     Client.hasGeometryData := true |}.

(** What the page is told about the second table while it is exported. *)
Definition riversExport : Client.ITableExport :=
  {| Client.status := Client.status_loading;
     Client.error := None;
     Client.tableId := "T2";
     Client.driveFile := None;
     Client.styles := [];
     Client.isLarge := false;
     Client.hasGeometryData := false |}.

End Cases.

(** * Facts *)

(** ** Strings and lists *)

Lemma length_append (a b : string) :
  String.length (a ++ b) = (String.length a + String.length b)%nat.
Proof.
  induction a as [|c a IH]; simpl; [reflexivity | now rewrite IH].
Qed.

Lemma append_assoc (a b c : string) : (a ++ b) ++ c = a ++ b ++ c.
Proof.
  induction a as [|x a IH]; simpl; [reflexivity | now rewrite IH].
Qed.

Lemma append_cancel_l (a b c : string) : a ++ b = a ++ c -> b = c.
Proof.
  induction a as [|x a IH]; simpl; intros H; [exact H | ].
  injection H as H. auto.
Qed.

Lemma append_cancel_r (a b c : string) : a ++ c = b ++ c -> a = b.
Proof.
  revert b. induction a as [|x a IH]; intros [|y b] H; simpl in H.
  - reflexivity.
  - exfalso. apply (f_equal String.length) in H. simpl in H.
    rewrite length_append in H. lia.
  - exfalso. apply (f_equal String.length) in H. simpl in H.
    rewrite length_append in H. lia.
  - injection H as Hx H. subst y. f_equal. now apply IH.
Qed.

Lemma prefix_append (n b : string) : String.prefix n (n ++ b) = true.
Proof.
  induction n as [|c n IH]; simpl.
  - now destruct b.
  - destruct (ascii_dec c c) as [_|N]; [exact IH | now elim N].
Qed.

Lemma includes_append (n a b : string) : includes n (a ++ n ++ b) = true.
Proof.
  induction a as [|c a IH]; simpl.
  - assert (U : forall h, String.prefix n h = true -> includes n h = true).
    { intros [|x h] P; cbn [includes]; rewrite P; reflexivity. }
    apply U, prefix_append.
  - rewrite IH. apply orb_true_r.
Qed.

Lemma mapi_from_length {A B : Type} (f : A -> nat -> B) (l : list A) (k : nat) :
  List.length (mapi_from f k l) = List.length l.
Proof.
  revert k. induction l as [|x l IH]; intros k; simpl; [reflexivity | now rewrite IH].
Qed.

Lemma mapi_from_nth_error {A B : Type} (f : A -> nat -> B) (l : list A) (k i : nat) :
  nth_error (mapi_from f k l) i =
  option_map (fun x => f x (k + i)%nat) (nth_error l i).
Proof.
  revert k i. induction l as [|x l IH]; intros k [|i]; simpl; try reflexivity.
  - now rewrite Nat.add_0_r.
  - rewrite IH. now rewrite Nat.add_succ_r.
Qed.

Lemma mapi_nth_error {A B : Type} (f : A -> nat -> B) (l : list A) (i : nat) :
  nth_error (mapi f l) i = option_map (fun x => f x i) (nth_error l i).
Proof. unfold mapi. now rewrite mapi_from_nth_error. Qed.

(** ** The rows of the index sheet *)

Section Rows.
Variable IStyle : Type.
Variable getStyleHash : IStyle -> string.
Variable VISUALIZER_BASE_URI : string.
Variable MIME_TYPES_csv : string.
Variable api : Api.

Local Abbreviation rows := (LogFile.rows getStyleHash VISUALIZER_BASE_URI MIME_TYPES_csv).
Local Abbreviation styleLink := (LogFile.styleLink getStyleHash VISUALIZER_BASE_URI).
Local Abbreviation baseLink := (LogFile.visualizerBaseLink VISUALIZER_BASE_URI).
Local Abbreviation createRow := (LogFile.createRow MIME_TYPES_csv).
Local Abbreviation fileType := (LogFile.fileType MIME_TYPES_csv).

Local Abbreviation logFileExportInIndexSheetWorker :=
  (LogFile.logFileExportInIndexSheetWorker getStyleHash VISUALIZER_BASE_URI
     MIME_TYPES_csv api).

(** What [w] becomes when [rows] are appended to the sheet of [o]. *)
Local Abbreviation appended o w rows :=
  (w ++ [call_spreadsheets_batchUpdate
           (ISheet.spreadsheetId (LogFile.sheet o))
           [appendCells (ISheet.sheetId (LogFile.sheet o)) rows]])%list.

(** An attempt of the worker makes one call: it appends [rows], dated with
    the time of the attempt. *)
Lemma worker_sends_rows (o : LogFile.ILogFileOptions IStyle) (w : World) :
  snd (logFileExportInIndexSheetWorker o w) =
  appended o w (rows o (now api (List.length w))).
Proof.
  unfold LogFile.logFileExportInIndexSheetWorker, bind, external.
  destruct (spreadsheets_batchUpdate_at api (List.length w)) as [r|e];
    [ | reflexivity].
  now destruct (statusText r =? "OK")%string.
Qed.

(** A link that starts with the base link is not the empty string. *)
Lemma baseLink_truthy (o : LogFile.ILogFileOptions IStyle) (rest : string) :
  truthyString (Some (baseLink o ++ rest)) = true.
Proof.
  unfold LogFile.visualizerBaseLink.
  destruct VISUALIZER_BASE_URI; reflexivity.
Qed.

Lemma createRow_linked (o : LogFile.ILogFileOptions IStyle) (date rest : string)
    (index : option nat) :
  createRow o date (Some (baseLink o ++ rest)) index =
  {| values :=
       [stringValue (IFile.name (LogFile.driveFile o));
        stringValue (match index with
                     | Some (S _) => EmptyString
                     | _ => LogFile.tableLink o
                     end);
        stringValue (match index with
                     | Some (S _) => EmptyString
                     | _ => LogFile.fileLink o
                     end);
        stringValue (match index with
                     | Some (S _) => EmptyString
                     | _ => fileType o
                     end);
        formulaValue
          (LogFile.hyperlink (baseLink o ++ rest)
             (match index with
              | Some i => numberToString (i + 1)
              | None => EmptyString
              end));
        stringValue date] |}.
Proof.
  unfold LogFile.createRow. rewrite baseLink_truthy.
  destruct index as [[|i]|]; reflexivity.
Qed.

Lemma styleLink_inj (o : LogFile.ILogFileOptions IStyle) (s1 s2 : IStyle) :
  styleLink o s1 = styleLink o s2 -> getStyleHash s1 = getStyleHash s2.
Proof.
  unfold LogFile.styleLink. intros H.
  apply append_cancel_l in H. apply append_cancel_l in H.
  now apply append_cancel_r in H.
Qed.

Lemma styleLinks_NoDup (o : LogFile.ILogFileOptions IStyle) (l : list IStyle) :
  NoDup (map (styleLink o) l) <-> NoDup (map getStyleHash l).
Proof.
  induction l as [|s l IH]; simpl.
  - split; constructor.
  - split; intros H; inversion H as [|? ? N D]; subst; constructor;
      try (now apply IH).
    + intros I. apply N. apply in_map_iff in I as (s' & E & I).
      apply in_map_iff. exists s'. split; [ | exact I].
      unfold LogFile.styleLink. now rewrite E.
    + intros I. apply N. apply in_map_iff in I as (s' & E & I).
      apply in_map_iff. exists s'. split; [ | exact I].
      now apply styleLink_inj in E.
Qed.

(** C4 (as amended).  A table without geometry data gets exactly one row,
    whatever its styles; the row carries the source, destination and type
    columns, and its visualization cell holds no link but the fixed text
    "Cannot visualize — no geometry found.", so the cell is not empty. *)
Theorem no_geometry_one_row_with_notice
    (o : LogFile.ILogFileOptions IStyle) (date : string) :
  LogFile.hasGeometryData o = false ->
  rows o date =
    [ {| values :=
           [stringValue (IFile.name (LogFile.driveFile o));
            stringValue (LogFile.tableLink o);
            stringValue (LogFile.fileLink o);
            stringValue (fileType o);
            stringValue LogFile.noGeometryText;
            stringValue date] |} ] /\
  (forall row, In row (rows o date) ->
     visualizationCell row = Some (stringValue LogFile.noGeometryText)) /\
  styleQualified (stringValue LogFile.noGeometryText) = false /\
  emptyCell (stringValue LogFile.noGeometryText) = false /\
  (forall w,
     snd (logFileExportInIndexSheetWorker o w) =
     appended o w (rows o (now api (List.length w)))).
Proof.
  intros G. unfold LogFile.rows at 1 2. rewrite G. simpl negb. cbv iota.
  split; [reflexivity | ].
  split; [ | split; [reflexivity | split; [reflexivity | ]]].
  - intros row [<- | []]. reflexivity.
  - apply worker_sends_rows.
Qed.

(** C3 (as amended).  A table with geometry data and exactly one style gets a
    single row, with the source, destination and type columns; its
    visualization link is qualified by that style (the base link followed by
    [&style=] and the hash of the style, then [&large=true] for a large
    table), and its label is "Visualization " without a number. *)
Theorem one_style_row_is_style_qualified
    (o : LogFile.ILogFileOptions IStyle) (date : string) (style : IStyle) :
  LogFile.hasGeometryData o = true ->
  LogFile.styles o = [style] ->
  rows o date =
    [ {| values :=
           [stringValue (IFile.name (LogFile.driveFile o));
            stringValue (LogFile.tableLink o);
            stringValue (LogFile.fileLink o);
            stringValue (fileType o);
            formulaValue
              (LogFile.hyperlink
                 (baseLink o ++ "&style=" ++ getStyleHash style ++
                  LogFile.largeSuffix o)
                 EmptyString);
            stringValue date] |} ] /\
  (forall row, In row (rows o date) ->
     exists v, visualizationCell row = Some v /\ styleQualified v = true) /\
  (forall w,
     snd (logFileExportInIndexSheetWorker o w) =
     appended o w (rows o (now api (List.length w)))).
Proof.
  intros G S.
  assert (E : rows o date = [createRow o date (Some (styleLink o style)) None]).
  { unfold LogFile.rows. rewrite G, S. reflexivity. }
  split; [ | split; [ | apply worker_sends_rows]];
    rewrite E; unfold LogFile.styleLink; rewrite createRow_linked;
    [reflexivity | ].
  intros row [<- | []]. eexists. split; [reflexivity | ].
  unfold styleQualified, LogFile.hyperlink.
  rewrite append_assoc.
  rewrite <- (append_assoc "=HYPERLINK(" dquote).
  rewrite <- (append_assoc ("=HYPERLINK(" ++ dquote)).
  rewrite (append_assoc "&style=").
  apply includes_append.
Qed.

(** C5 (as amended).  A table with geometry data and N > 1 styles gets N
    rows, the i-th for the i-th style: its link is the base link qualified by
    that style, its label is "Visualization i".  The first row alone carries
    the source, destination and type columns, none of which is blank there;
    in the other rows they are blank.  The links are pairwise distinct exactly
    when the hashes of the styles are. *)
Theorem many_styles_one_row_each
    (o : LogFile.ILogFileOptions IStyle) (date : string) :
  LogFile.hasGeometryData o = true ->
  (1 < List.length (LogFile.styles o))%nat ->
  List.length (rows o date) = List.length (LogFile.styles o) /\
  (forall i style,
     nth_error (LogFile.styles o) i = Some style ->
     nth_error (rows o date) i =
       Some {| values :=
                 [stringValue (IFile.name (LogFile.driveFile o));
                  stringValue (if Nat.eqb i 0 then LogFile.tableLink o else EmptyString);
                  stringValue (if Nat.eqb i 0 then LogFile.fileLink o else EmptyString);
                  stringValue (if Nat.eqb i 0 then fileType o else EmptyString);
                  formulaValue
                    (LogFile.hyperlink (styleLink o style) (numberToString (i + 1)));
                  stringValue date] |}) /\
  LogFile.tableLink o <> EmptyString /\
  LogFile.fileLink o <> EmptyString /\
  fileType o <> EmptyString /\
  (forall style label, In style (LogFile.styles o) ->
     styleQualified
       (formulaValue (LogFile.hyperlink (styleLink o style) label)) = true) /\
  (NoDup (map (styleLink o) (LogFile.styles o)) <->
   NoDup (map getStyleHash (LogFile.styles o))) /\
  (forall w,
     snd (logFileExportInIndexSheetWorker o w) =
     appended o w (rows o (now api (List.length w)))).
Proof.
  intros G N.
  assert (E : rows o date =
              mapi (fun style index =>
                      createRow o date (Some (styleLink o style)) (Some index))
                   (LogFile.styles o)).
  { unfold LogFile.rows. rewrite G. simpl negb. cbv iota.
    destruct (0 <? List.length (LogFile.styles o))%nat eqn:P;
      [ | apply Nat.ltb_ge in P; lia].
    destruct (1 <? List.length (LogFile.styles o))%nat eqn:Q;
      [reflexivity | apply Nat.ltb_ge in Q; lia]. }
  repeat split.
  - rewrite E. apply mapi_from_length.
  - intros i style I. rewrite E, mapi_nth_error, I. simpl option_map.
    unfold LogFile.styleLink. rewrite createRow_linked.
    destruct i; reflexivity.
  - discriminate.
  - discriminate.
  - unfold LogFile.fileType.
    destruct (IFile.mimeType (LogFile.driveFile o) =? MIME_TYPES_csv)%string;
      discriminate.
  - intros style label _.
    unfold styleQualified, LogFile.hyperlink, LogFile.styleLink.
    rewrite append_assoc.
    rewrite <- (append_assoc "=HYPERLINK(" dquote).
    rewrite <- (append_assoc ("=HYPERLINK(" ++ dquote)).
    rewrite (append_assoc "&style=").
    apply includes_append.
  - apply styleLinks_NoDup.
  - apply styleLinks_NoDup.
  - apply worker_sends_rows.
Qed.

End Rows.

Lemma no_geometry_one_row_with_notice_witness :
  Sample.rows ["blue"; "red"] false =
    [ {| values :=
           [stringValue "cities";
            stringValue "https://fusiontables.google.com/DataSource?docid=T1";
            stringValue "https://drive.google.com/open?id=F1";
            stringValue "CSV";
            stringValue "Cannot visualize — no geometry found.";
            stringValue "2019-12-03T10:00:00.000Z"] |} ].
Proof.
  exact (proj1 (no_geometry_one_row_with_notice string Sample.getStyleHash
                  Sample.VISUALIZER_BASE_URI Sample.MIME_TYPES_csv Sample.healthy
                  (Sample.logOptions ["blue"; "red"] false)
                  "2019-12-03T10:00:00.000Z" eq_refl)).
Defined.

(** C4 as stated fails: the visualization cell of the row is not empty. *)
Lemma no_geometry_cell_empty_fails :
  ~ (exists row,
       Sample.rows ["blue"; "red"] false = [row] /\
       exists v, visualizationCell row = Some v /\ emptyCell v = true).
Proof.
  intros (row & E & v & C & Q).
  vm_compute in E. injection E as <-.
  vm_compute in C. injection C as <-.
  vm_compute in Q. discriminate.
Qed.

Lemma one_style_row_is_style_qualified_witness :
  Sample.rows ["blue"] true =
    [ {| values :=
           [stringValue "cities";
            stringValue "https://fusiontables.google.com/DataSource?docid=T1";
            stringValue "https://drive.google.com/open?id=F1";
            stringValue "CSV";
            formulaValue
              (LogFile.hyperlink
                 "https://visualizer.example/#file=F1&style=blue" EmptyString);
            stringValue "2019-12-03T10:00:00.000Z"] |} ].
Proof.
  exact (proj1 (one_style_row_is_style_qualified string Sample.getStyleHash
                  Sample.VISUALIZER_BASE_URI Sample.MIME_TYPES_csv Sample.healthy
                  (Sample.logOptions ["blue"] true)
                  "2019-12-03T10:00:00.000Z" "blue" eq_refl eq_refl)).
Defined.

(** C3 as stated fails: the link of the single row has a style parameter. *)
Lemma one_style_row_unqualified_fails :
  ~ (exists row,
       Sample.rows ["blue"] true = [row] /\
       exists v, visualizationCell row = Some v /\ styleQualified v = false).
Proof.
  intros (row & E & v & C & Q).
  vm_compute in E. injection E as <-.
  vm_compute in C. injection C as <-.
  vm_compute in Q. discriminate.
Qed.

Lemma many_styles_one_row_each_witness :
  List.length (Sample.rows ["blue"; "red"; "green"] true) = 3%nat.
Proof.
  refine (proj1 (many_styles_one_row_each string Sample.getStyleHash
                   Sample.VISUALIZER_BASE_URI Sample.MIME_TYPES_csv Sample.healthy
                   (Sample.logOptions ["blue"; "red"; "green"] true)
                   "2019-12-03T10:00:00.000Z" _ _)).
  - reflexivity.
  - simpl. lia.
Defined.

(** C5 as stated fails: two styles with the same hash get the same link. *)
Lemma equal_styles_links_distinct_fails :
  ~ (exists l0 l1 : string,
       l0 <> l1 /\
       map visualizationCell (Sample.rows ["blue"; "blue"] true) =
         [Some (formulaValue (LogFile.hyperlink l0 "1"));
          Some (formulaValue (LogFile.hyperlink l1 "2"))]).
Proof.
  intros (l0 & l1 & N & E).
  assert (H : forall l id,
             LogFile.hyperlink
               "https://visualizer.example/#file=F1&style=blue" id =
             LogFile.hyperlink l id ->
             l = "https://visualizer.example/#file=F1&style=blue").
  { intros l id H. unfold LogFile.hyperlink in H.
    apply append_cancel_l in H. apply append_cancel_l in H.
    symmetry. now apply append_cancel_r in H. }
  change (Sample.rows ["blue"; "blue"] true) with
    [ {| values :=
           [stringValue "cities";
            stringValue "https://fusiontables.google.com/DataSource?docid=T1";
            stringValue "https://drive.google.com/open?id=F1";
            stringValue "CSV";
            formulaValue
              (LogFile.hyperlink
                 "https://visualizer.example/#file=F1&style=blue" "1");
            stringValue "2019-12-03T10:00:00.000Z"] |};
      {| values :=
           [stringValue "cities"; stringValue EmptyString;
            stringValue EmptyString; stringValue EmptyString;
            formulaValue
              (LogFile.hyperlink
                 "https://visualizer.example/#file=F1&style=blue" "2");
            stringValue "2019-12-03T10:00:00.000Z"] |} ] in E.
  cbn [map visualizationCell values nth_error] in E.
  pose (formulaAt := fun (n : nat) (l : list (option ExtendedValue)) =>
                       match nth_error l n with
                       | Some (Some (formulaValue f)) => f
                       | _ => EmptyString
                       end).
  assert (E0 := f_equal (formulaAt 0%nat) E).
  assert (E1 := f_equal (formulaAt 1%nat) E).
  unfold formulaAt in E0, E1. cbn [nth_error] in E0, E1.
  apply H in E0. apply H in E1. apply N. congruence.
Qed.

(** ** The first-sheet lookup and its retries *)

Section FirstSheet.
Variable DRIVE_ARCHIVE_INDEX_SHEET : string.
Variable api : Api.

Local Abbreviation getFirstSheetWorker :=
  (IndexSheet.getFirstSheetWorker DRIVE_ARCHIVE_INDEX_SHEET api).
Local Abbreviation getFirstSheet retries :=
  (IndexSheet.getFirstSheet DRIVE_ARCHIVE_INDEX_SHEET retries api).
Local Abbreviation getArchiveIndexSheet retries :=
  (IndexSheet.getArchiveIndexSheet DRIVE_ARCHIVE_INDEX_SHEET retries api).
Local Abbreviation deprecatedFile :=
  (Error (IndexSheet.deprecatedFileMessage DRIVE_ARCHIVE_INDEX_SHEET)).

Lemma lookups_app (w w' : World) :
  lookups (w ++ w')%list = (lookups w + lookups w')%nat.
Proof. unfold lookups. now rewrite filter_app, length_app. Qed.

Lemma lookups_repeat (id : string) (n : nat) :
  lookups (repeat (call_spreadsheets_get id) n) = n.
Proof.
  induction n as [|n IH]; [reflexivity | ].
  unfold lookups in *. simpl. now rewrite IH.
Qed.

Lemma getFirstSheetWorker_notFound (id : string) (w : World) :
  spreadsheets_get_at api (List.length w) = notFound ->
  getFirstSheetWorker id w = (Err deprecatedFile, (w ++ [call_spreadsheets_get id])%list).
Proof.
  intros H.
  unfold IndexSheet.getFirstSheetWorker, try_catch, bind, external.
  now rewrite H.
Qed.

Lemma getFirstSheetWorker_zeroFirst (id status : string) (others : list Sheet)
    (w : World) :
  spreadsheets_get_at api (List.length w) = zeroFirst status others ->
  getFirstSheetWorker id w =
    (Err (IndexSheet.readOfUndefined "data"), (w ++ [call_spreadsheets_get id])%list).
Proof.
  intros H.
  unfold IndexSheet.getFirstSheetWorker, try_catch, bind, external.
  now rewrite H.
Qed.

(** A lookup that keeps failing with the same error uses up all attempts. *)
Lemma getFirstSheet_exhausted (e : JsError) (id : string) (retries : nat) :
  forall w,
    (forall k, (k <= retries)%nat ->
       getFirstSheetWorker id (w ++ repeat (call_spreadsheets_get id) k)%list =
         (Err e, (w ++ repeat (call_spreadsheets_get id) (S k))%list)) ->
    getFirstSheet retries id w =
      (Err e, (w ++ repeat (call_spreadsheets_get id) (S retries))%list).
Proof.
  unfold IndexSheet.getFirstSheet.
  induction retries as [|n IH]; intros w H.
  - simpl promiseRetry.
    specialize (H 0%nat (Nat.le_refl _)). simpl repeat in H.
    rewrite app_nil_r in H. now rewrite H.
  - simpl promiseRetry.
    pose proof (H 0%nat (Nat.le_0_l _)) as H0. simpl repeat in H0.
    rewrite app_nil_r in H0. rewrite H0.
    rewrite IH.
    + f_equal. rewrite <- app_assoc. reflexivity.
    + intros k Hk. specialize (H (S k) (proj1 (Nat.succ_le_mono _ _) Hk)).
      rewrite <- !app_assoc. exact H.
Qed.

Lemma length_with_repeat (id : string) (w : World) (k : nat) :
  List.length (w ++ repeat (call_spreadsheets_get id) k) = (List.length w + k)%nat.
Proof. now rewrite length_app, repeat_length. Qed.

Lemma getFirstSheet_notFound (id : string) (retries : nat) (w : World) :
  (forall k, (k <= retries)%nat ->
     spreadsheets_get_at api (List.length w + k) = notFound) ->
  getFirstSheet retries id w =
    (Err deprecatedFile, (w ++ repeat (call_spreadsheets_get id) (S retries))%list).
Proof.
  intros H. apply getFirstSheet_exhausted. intros k Hk.
  rewrite getFirstSheetWorker_notFound.
  - rewrite <- app_assoc. do 2 f_equal.
    change [call_spreadsheets_get id] with (repeat (call_spreadsheets_get id) 1).
    rewrite <- repeat_app. now rewrite Nat.add_1_r.
  - rewrite length_with_repeat. now apply H.
Qed.

Lemma getFirstSheet_zeroFirst (id status : string) (others : list Sheet)
    (retries : nat) (w : World) :
  (forall k, (k <= retries)%nat ->
     spreadsheets_get_at api (List.length w + k) = zeroFirst status others) ->
  getFirstSheet retries id w =
    (Err (IndexSheet.readOfUndefined "data"),
     (w ++ repeat (call_spreadsheets_get id) (S retries))%list).
Proof.
  intros H. apply getFirstSheet_exhausted. intros k Hk.
  rewrite (getFirstSheetWorker_zeroFirst id status others).
  - rewrite <- app_assoc. do 2 f_equal.
    change [call_spreadsheets_get id] with (repeat (call_spreadsheets_get id) 1).
    rewrite <- repeat_app. now rewrite Nat.add_1_r.
  - rewrite length_with_repeat. now apply H.
Qed.

(** The resolver on a spreadsheet that exists: one search, then the lookup. *)
Lemma getArchiveIndexSheet_existing (retries : nat) (folder id : string) (w : World) :
  findFile_at api (List.length w) = Ok (Some id) ->
  id <> EmptyString ->
  getArchiveIndexSheet retries folder w =
    match getFirstSheet retries id
            (w ++ [call_findFile DRIVE_ARCHIVE_INDEX_SHEET folder])%list with
    | (Ok n, w') => (Ok (ISheet.mk id n), w')
    | (Err e, w') => (Err e, w')
    end.
Proof.
  intros F N.
  unfold IndexSheet.getArchiveIndexSheet, bind at 1. unfold external at 1.
  rewrite F. unfold truthyString.
  apply String.eqb_neq in N. rewrite N.
  cbn -[IndexSheet.getFirstSheet IndexSheet.createSheet].
  unfold bind, ret.
  destruct (IndexSheet.getFirstSheet _ _ _ _ _) as [[n|e] w']; reflexivity.
Qed.

(** What an attempt of the lookup comes to, by the answer it gets: it makes
    one call; it resolves exactly when the answer holds a first sheet with an
    id other than 0; and it rejects with the error about the file of a
    deprecated version exactly when the answer is a 404. *)
Lemma getFirstSheetWorker_cases (id : string) (w : World) :
  snd (getFirstSheetWorker id w) = (w ++ [call_spreadsheets_get id])%list /\
  match firstSheetId (spreadsheets_get_at api (List.length w)) with
  | Some n => fst (getFirstSheetWorker id w) = Ok n
  | None =>
      exists e,
        fst (getFirstSheetWorker id w) = Err e /\
        (e = deprecatedFile <-> spreadsheets_get_at api (List.length w) = notFound)
  end.
Proof.
  unfold IndexSheet.getFirstSheetWorker, try_catch, bind, external, firstSheetId,
    notFound.
  destruct (spreadsheets_get_at api (List.length w)) as [r|e]; simpl.
  - destruct (data r) as [|first rest]; simpl.
    + split; [reflexivity | ]. eexists. split; [reflexivity | ].
      split; discriminate.
    + destruct (properties first) as [[[n|]]|]; simpl;
        try (split; [reflexivity | ]; eexists; split; [reflexivity | ];
             split; discriminate).
      destruct (Z.eqb n 0); simpl; split; try reflexivity.
      eexists. split; [reflexivity | ]. split; discriminate.
  - destruct e as [[code|]|m|m]; simpl;
      try (split; [reflexivity | ]; eexists; split; [reflexivity | ];
           split; discriminate).
    destruct (Z.eqb_spec code 404) as [->|N]; simpl;
      (split; [reflexivity | ]); eexists; (split; [reflexivity | ]).
    + split; reflexivity.
    + split; [discriminate | ]. intros E. injection E as E. contradiction.
Qed.

(** A wrapper that rejects has used up its attempts. *)
Lemma getFirstSheet_rejected (id : string) (retries : nat) :
  forall w e,
    fst (getFirstSheet retries id w) = Err e ->
    snd (getFirstSheet retries id w) =
      (w ++ repeat (call_spreadsheets_get id) (S retries))%list.
Proof.
  unfold IndexSheet.getFirstSheet.
  induction retries as [|n IH]; intros w e; simpl promiseRetry;
    destruct (getFirstSheetWorker_cases id w) as [H _];
    destruct (getFirstSheetWorker id w) as [[x|e'] w1]; simpl in H; subst w1;
    try discriminate.
  - reflexivity.
  - intros R. rewrite (IH _ e R). now rewrite <- app_assoc.
Qed.

(** When the wrapper rejects with the error about the file of a deprecated
    version: every attempt has failed and the last has met a 404. *)
Lemma getFirstSheet_conflict (id : string) (retries : nat) :
  forall w,
    fst (getFirstSheet retries id w) = Err deprecatedFile <->
    (forall k, (k <= retries)%nat ->
       firstSheetId (spreadsheets_get_at api (List.length w + k)) = None) /\
    spreadsheets_get_at api (List.length w + retries) = notFound.
Proof.
  unfold IndexSheet.getFirstSheet.
  induction retries as [|n IH]; intros w; simpl promiseRetry.
  - destruct (getFirstSheetWorker_cases id w) as [_ C].
    rewrite Nat.add_0_r.
    destruct (firstSheetId (spreadsheets_get_at api (List.length w))) as [m|] eqn:F.
    + destruct (getFirstSheetWorker id w) as [[x|e'] w1]; simpl in C;
        [ | discriminate].
      simpl. split; [discriminate | ].
      intros [A _]. specialize (A 0%nat (Nat.le_refl _)).
      rewrite Nat.add_0_r in A. congruence.
    + destruct C as (e & C1 & C).
      destruct (getFirstSheetWorker id w) as [[x|e'] w1]; simpl in C1;
        [discriminate | ].
      injection C1 as ->. simpl. split.
      * intros E. injection E as ->. split; [ | now apply C].
        intros k K. assert (k = 0)%nat as -> by lia. now rewrite Nat.add_0_r.
      * intros [_ A]. f_equal. now apply C.
  - destruct (getFirstSheetWorker_cases id w) as [H C].
    destruct (getFirstSheetWorker id w) as [[x|e'] w1] eqn:W; simpl in H; subst w1.
    + simpl. split; [discriminate | ].
      intros [A _]. specialize (A 0%nat (Nat.le_0_l _)).
      rewrite Nat.add_0_r in A. rewrite A in C.
      destruct C as (e & C & _). simpl in C. discriminate.
    + rewrite IH, length_app. simpl List.length.
      assert (F : firstSheetId (spreadsheets_get_at api (List.length w)) = None).
      { destruct (firstSheetId (spreadsheets_get_at api (List.length w)));
          [simpl in C; discriminate | reflexivity]. }
      replace (List.length w + 1 + n)%nat with (List.length w + S n)%nat by lia.
      split; intros [A B]; (split; [ | exact B]); intros k K.
      * destruct k as [|k]; [now rewrite Nat.add_0_r | ].
        replace (List.length w + S k)%nat with (List.length w + 1 + k)%nat by lia.
        apply A. lia.
      * replace (List.length w + 1 + k)%nat with (List.length w + S k)%nat by lia.
        apply A. lia.
Qed.

(** C6 (as amended).  A lookup that fails with a 404 is retried like any
    other failure: with attempts left, the next attempt follows it.  When the
    spreadsheet exists, the resolver fails with the error about the file of a
    deprecated version exactly when every lookup fails, in whatever way, and
    the last one that [RETRY_OPTIONS] allows fails with a 404; it has then
    made one lookup more than retries are allowed.  A 404 met earlier decides
    nothing.  So it is when every lookup fails with a 404. *)
Theorem conflict_error_is_retried
    (retries : nat) (folder id : string) (w : World) :
  findFile_at api (List.length w) = Ok (Some id) ->
  id <> EmptyString ->
  let searched := (w ++ [call_findFile DRIVE_ARCHIVE_INDEX_SHEET folder])%list in
  let final := (searched ++ repeat (call_spreadsheets_get id) (S retries))%list in
  let answer k := spreadsheets_get_at api (S (List.length w) + k) in
  (fst (getArchiveIndexSheet retries folder w) = Err deprecatedFile <->
   (forall k, (k <= retries)%nat -> firstSheetId (answer k) = None) /\
   answer retries = notFound) /\
  (fst (getArchiveIndexSheet retries folder w) = Err deprecatedFile ->
   snd (getArchiveIndexSheet retries folder w) = final /\
   lookups final = (lookups w + S retries)%nat) /\
  ((forall k, (k <= retries)%nat -> answer k = notFound) ->
   getArchiveIndexSheet retries folder w = (Err deprecatedFile, final)) /\
  (answer 0%nat = notFound ->
   getFirstSheet (S retries) id searched =
     getFirstSheet retries id (searched ++ [call_spreadsheets_get id])%list).
Proof.
  intros F N searched final answer.
  assert (L : List.length searched = S (List.length w)).
  { unfold searched. rewrite length_app. simpl. lia. }
  assert (E : getArchiveIndexSheet retries folder w =
              match getFirstSheet retries id searched with
              | (Ok n, w') => (Ok (ISheet.mk id n), w')
              | (Err e, w') => (Err e, w')
              end)
    by exact (getArchiveIndexSheet_existing retries folder id w F N).
  assert (Fst : forall e,
            fst (getArchiveIndexSheet retries folder w) = Err e <->
            fst (getFirstSheet retries id searched) = Err e).
  { intros e. rewrite E.
    destruct (getFirstSheet retries id searched) as [[n|e'] w']; simpl;
      split; congruence. }
  split; [ | split; [ | split]].
  - rewrite Fst, getFirstSheet_conflict, L. reflexivity.
  - intros R. split.
    + apply Fst in R. pose proof (getFirstSheet_rejected id retries searched _ R) as H.
      rewrite E. destruct (getFirstSheet retries id searched) as [[n|e'] w'];
        simpl in *; [discriminate | exact H].
    + unfold final, searched. rewrite !lookups_app, lookups_repeat.
      unfold lookups at 2. simpl. lia.
  - intros H. rewrite E. rewrite getFirstSheet_notFound; [reflexivity | ].
    intros k Hk. rewrite L. now apply H.
  - intros H. unfold IndexSheet.getFirstSheet at 1. simpl promiseRetry.
    rewrite getFirstSheetWorker_notFound; [reflexivity | ].
    rewrite L. unfold answer in H. now rewrite Nat.add_0_r in H.
Qed.

(** C9.  For an existing spreadsheet whose first sheet has the id 0 the
    lookup does not return the sheet: the presence check takes 0 for absent
    and throws "Cannot find Sheet", but the [catch] block around it reads
    [error.response.data] of that error, so what the lookup rejects with is
    a [TypeError].  With every lookup answered so, the resolver fails with
    that [TypeError]; it returns neither sheet 0 nor the "Cannot find Sheet"
    error. *)
Theorem first_sheet_zero_is_type_error
    (retries : nat) (folder id status : string) (others : list Sheet) (w : World) :
  findFile_at api (List.length w) = Ok (Some id) ->
  id <> EmptyString ->
  (forall k, (k <= retries)%nat ->
     spreadsheets_get_at api (S (List.length w) + k) = zeroFirst status others) ->
  let searched := (w ++ [call_findFile DRIVE_ARCHIVE_INDEX_SHEET folder])%list in
  getFirstSheetWorker id searched =
    (Err (TypeError "Cannot read property 'data' of undefined"),
     (searched ++ [call_spreadsheets_get id])%list) /\
  getArchiveIndexSheet retries folder w =
    (Err (TypeError "Cannot read property 'data' of undefined"),
     (searched ++ repeat (call_spreadsheets_get id) (S retries))%list) /\
  fst (getArchiveIndexSheet retries folder w) <> Ok (ISheet.mk id 0) /\
  fst (getArchiveIndexSheet retries folder w) <>
    Err (Error (IndexSheet.cannotFindSheetMessage status)).
Proof.
  intros F N H searched.
  assert (L : List.length searched = S (List.length w)).
  { unfold searched. rewrite length_app. simpl. lia. }
  assert (R : getArchiveIndexSheet retries folder w =
              (Err (IndexSheet.readOfUndefined "data"),
               (searched ++ repeat (call_spreadsheets_get id) (S retries))%list)).
  { rewrite (getArchiveIndexSheet_existing retries folder id w F N).
    fold searched.
    rewrite (getFirstSheet_zeroFirst id status others); [reflexivity | ].
    intros k Hk. rewrite L. now apply H. }
  split; [ | split; [exact R | split]].
  - apply (getFirstSheetWorker_zeroFirst id status others).
    rewrite L. specialize (H 0%nat (Nat.le_0_l _)).
    now rewrite Nat.add_0_r in H.
  - rewrite R. discriminate.
  - rewrite R. discriminate.
Qed.

End FirstSheet.

Lemma conflict_error_is_retried_witness :
  IndexSheet.getArchiveIndexSheet Sample.DRIVE_ARCHIVE_INDEX_SHEET 2
    Sample.legacyArtifact "ARCHIVE" [] =
  (Err (Error (IndexSheet.deprecatedFileMessage Sample.DRIVE_ARCHIVE_INDEX_SHEET)),
   [call_findFile Sample.DRIVE_ARCHIVE_INDEX_SHEET "ARCHIVE";
    call_spreadsheets_get "SHEET"; call_spreadsheets_get "SHEET";
    call_spreadsheets_get "SHEET"]).
Proof.
  refine (proj1 (proj2 (proj2
            (conflict_error_is_retried Sample.DRIVE_ARCHIVE_INDEX_SHEET
               Sample.legacyArtifact 2 "ARCHIVE" "SHEET" [] _ _))) _).
  - reflexivity.
  - discriminate.
  - intros k _. reflexivity.
Defined.

(** C6 as stated fails: with two retries allowed, the resolver looks the
    legacy spreadsheet up three times before it fails. *)
Lemma conflict_error_not_retried_fails :
  ~ (exists w',
       IndexSheet.getArchiveIndexSheet Sample.DRIVE_ARCHIVE_INDEX_SHEET 2
         Sample.legacyArtifact "ARCHIVE" [] =
       (Err (Error (IndexSheet.deprecatedFileMessage
                      Sample.DRIVE_ARCHIVE_INDEX_SHEET)), w') /\
       lookups w' = 1%nat).
Proof.
  intros (w' & E & L).
  vm_compute in E. injection E as <-.
  vm_compute in L. discriminate.
Qed.

(** A 404 of the first lookup alone is absorbed like a transient failure:
    the second attempt finds the sheet and the resolver returns it. *)
(** What decides is the last lookup: a 404 after other failures gives the
    error about the file of a deprecated version, another failure after 404s
    gives that failure. *)
Example conflict_error_after_other_failures :
  Cases.getArchiveIndexSheet Cases.lastNotFound =
  (Err (Error (IndexSheet.deprecatedFileMessage Sample.DRIVE_ARCHIVE_INDEX_SHEET)),
   [call_findFile Sample.DRIVE_ARCHIVE_INDEX_SHEET "ARCHIVE";
    call_spreadsheets_get "SHEET"; call_spreadsheets_get "SHEET";
    call_spreadsheets_get "SHEET"]).
Proof. reflexivity. Qed.

Example earlier_conflicts_are_forgotten :
  Cases.getArchiveIndexSheet Cases.lastUnavailable =
  (Err (GaxiosError (Some 500%Z)),
   [call_findFile Sample.DRIVE_ARCHIVE_INDEX_SHEET "ARCHIVE";
    call_spreadsheets_get "SHEET"; call_spreadsheets_get "SHEET";
    call_spreadsheets_get "SHEET"]).
Proof. reflexivity. Qed.

Example not_found_once_is_absorbed :
  IndexSheet.getArchiveIndexSheet Sample.DRIVE_ARCHIVE_INDEX_SHEET 2
    Sample.notFoundOnce "ARCHIVE" [] =
  (Ok (ISheet.mk "SHEET" 7),
   [call_findFile Sample.DRIVE_ARCHIVE_INDEX_SHEET "ARCHIVE";
    call_spreadsheets_get "SHEET"; call_spreadsheets_get "SHEET"]).
Proof. reflexivity. Qed.

Lemma first_sheet_zero_is_type_error_witness :
  IndexSheet.getArchiveIndexSheet Sample.DRIVE_ARCHIVE_INDEX_SHEET 2
    Sample.firstSheetZero "ARCHIVE" [] =
  (Err (TypeError "Cannot read property 'data' of undefined"),
   [call_findFile Sample.DRIVE_ARCHIVE_INDEX_SHEET "ARCHIVE";
    call_spreadsheets_get "SHEET"; call_spreadsheets_get "SHEET";
    call_spreadsheets_get "SHEET"]).
Proof.
  refine (proj1 (proj2 (first_sheet_zero_is_type_error
                          Sample.DRIVE_ARCHIVE_INDEX_SHEET Sample.firstSheetZero
                          2 "ARCHIVE" "SHEET" "OK" [] [] _ _ _))).
  - reflexivity.
  - discriminate.
  - intros k _. reflexivity.
Defined.

(** ** Sizes *)

Lemma pow2_pos (k : Z) : 0 < 2 ^ k.
Proof. apply Qpower_0_lt. reflexivity. Qed.

Lemma pow2_succ (k : Z) : 2 ^ (k + 1) == 2 * 2 ^ k.
Proof. rewrite Qpower_plus by discriminate. change (2 ^ 1) with 2. ring. Qed.

Lemma pow2_inject (a : Z) : (0 <= a)%Z -> inject_Z (2 ^ a) == 2 ^ a.
Proof. intros H. now rewrite Zpower_Qpower. Qed.

(** [Math_floor_log2] finds the exponent of the power of two at or below
    its argument. *)
Lemma Math_floor_log2_bounds (x : Q) :
  0 < x ->
  exists k : Z, Math_floor_log2 x = Finite k /\ 2 ^ k <= x /\ x < 2 ^ (k + 1).
Proof.
  intros Hx. destruct x as [n d].
  assert (Hn : (0 < n)%Z).
  { unfold Qlt in Hx. simpl in Hx. lia. }
  unfold Math_floor_log2.
  destruct (Qle_bool (n # d) 0) eqn:Z0.
  { apply Qle_bool_iff in Z0. Lqa.lra. }
  cbn [Qnum Qden].
  set (a := Z.log2 n). set (b := Z.log2 (Z.pos d)).
  assert (Ha : (0 <= a)%Z) by apply Z.log2_nonneg.
  assert (Hb : (0 <= b)%Z) by apply Z.log2_nonneg.
  destruct (Z.log2_spec n Hn) as [A1 A2]. fold a in A1, A2.
  destruct (Z.log2_spec (Z.pos d) (Pos2Z.is_pos d)) as [B1 B2]. fold b in B1, B2.
  assert (QA1 : 2 ^ a <= inject_Z n).
  { rewrite <- pow2_inject by exact Ha. now rewrite <- Zle_Qle. }
  assert (QA2 : inject_Z n < 2 * 2 ^ a).
  { rewrite <- pow2_succ, <- pow2_inject by lia. rewrite <- Zlt_Qlt.
    now rewrite <- Z.add_1_r in A2. }
  assert (QB1 : 2 ^ b <= inject_Z (Z.pos d)).
  { rewrite <- pow2_inject by exact Hb. now rewrite <- Zle_Qle. }
  assert (QB2 : inject_Z (Z.pos d) < 2 * 2 ^ b).
  { rewrite <- pow2_succ, <- pow2_inject by lia. rewrite <- Zlt_Qlt.
    now rewrite <- Z.add_1_r in B2. }
  assert (X : (n # d) * inject_Z (Z.pos d) == inject_Z n).
  { unfold Qeq, Qmult, inject_Z. simpl. lia. }
  assert (K : 2 ^ (a - b) * 2 ^ b == 2 ^ a).
  { rewrite <- Qpower_plus by discriminate.
    now replace (a - b + b)%Z with a by lia. }
  pose proof (pow2_pos (a - b)) as P0. pose proof (pow2_pos b) as Pb.
  pose proof (pow2_pos a) as Pa.
  assert (U : (n # d) < 2 * 2 ^ (a - b)) by Lqa.nra.
  assert (L : 2 ^ (a - b) < 2 * (n # d)) by Lqa.nra.
  destruct (Qle_bool (2 ^ (a - b)) (n # d)) eqn:C.
  - exists (a - b)%Z. apply Qle_bool_iff in C. rewrite pow2_succ. auto.
  - exists (a - b - 1)%Z. split; [reflexivity | ].
    assert (C' : (n # d) < 2 ^ (a - b)).
    { apply Qnot_le_lt. intros H. apply Qle_bool_iff in H. congruence. }
    replace (a - b - 1 + 1)%Z with (a - b)%Z by lia.
    split; [ | exact C'].
    assert (S : 2 ^ (a - b) == 2 * 2 ^ (a - b - 1)).
    { rewrite <- pow2_succ. now replace (a - b - 1 + 1)%Z with (a - b)%Z by lia. }
    Lqa.lra.
Qed.

Lemma Q2R_pow2 (k : Z) : Q2R (2 ^ k) = Rpower 2 (IZR k).
Proof.
  assert (two : (0 < 2)%R) by lra.
  assert (S : forall j, Q2R (2 ^ (j + 1)) = (2 * Q2R (2 ^ j))%R).
  { intros j. rewrite <- (Qeq_eqR (2 * 2 ^ j)).
    - rewrite Q2R_mult. f_equal. unfold Q2R. simpl. lra.
    - now rewrite pow2_succ. }
  assert (T : forall j, Rpower 2 (IZR (j + 1)) = (2 * Rpower 2 (IZR j))%R).
  { intros j. rewrite plus_IZR, Rpower_plus, Rpower_1 by exact two. ring. }
  induction k as [|k IH|k IH] using Z.peano_ind.
  - rewrite Rpower_O by exact two. unfold Q2R. simpl. lra.
  - unfold Z.succ. now rewrite S, T, IH.
  - unfold Z.pred.
    specialize (S (k + -1)%Z). specialize (T (k + -1)%Z).
    replace (k + -1 + 1)%Z with k in S, T by lia.
    rewrite IH in S. rewrite T in S. lra.
Qed.

(** The exponent between whose powers of two [x] lies is the floor of the
    real logarithm of [x] to the base 2, computed as the source does. *)
Lemma floor_log2_real (x : Q) (k : Z) :
  2 ^ k <= x -> x < 2 ^ (k + 1) ->
  Int_part (ln (Q2R x) / ln 2) = k.
Proof.
  intros L U.
  apply Qle_Rle in L. apply Qlt_Rlt in U. rewrite Q2R_pow2 in L, U.
  assert (two : (0 < 2)%R) by lra.
  assert (P : (0 < Rpower 2 (IZR k))%R) by apply exp_pos.
  assert (X : (0 < Q2R x)%R) by lra.
  assert (ln2 : (0 < ln 2)%R).
  { rewrite <- ln_1. apply ln_increasing; lra. }
  assert (L' : (IZR k * ln 2 <= ln (Q2R x))%R).
  { rewrite <- ln_Rpower. destruct L as [L|L].
    - left. now apply ln_increasing.
    - right. now rewrite L. }
  assert (U' : (ln (Q2R x) < IZR (k + 1) * ln 2)%R).
  { rewrite <- ln_Rpower. now apply ln_increasing. }
  rewrite plus_IZR in U'.
  symmetry. apply Int_part_spec.
  assert (E : (ln (Q2R x) / ln 2 * ln 2 = ln (Q2R x))%R).
  { field. lra. }
  split.
  - apply (Rmult_lt_reg_r (ln 2)); [exact ln2 | ].
    rewrite Rmult_minus_distr_r, E. lra.
  - apply (Rmult_le_reg_r (ln 2)); [exact ln2 | ]. rewrite E. lra.
Qed.

Lemma fileSizeOf_pos (byteLength : positive) : 0 < fileSizeOf (Npos byteLength).
Proof. unfold fileSizeOf, Qlt. simpl. lia. Qed.

(** C8 (as amended).  For every measured size [s] above 0, that is for every
    file that is not empty, the reported size is 2 raised to the floor of
    the logarithm of [s] to the base 2: the exponent is the floor of
    [ln s / ln 2], and the reported size is a power of two, at most [s],
    more than half of [s], and no power of two at most [s] is greater.  9 MB
    are reported as 8 and 16 MB as 16.  For the empty file the logarithm is
    [-Infinity] and the reported size is 0, which is no power of two.  The
    reported size is the [roundedFileSize] that [saveTable] holds once
    [getCsv] has resolved. *)
Theorem rounded_size_is_power_of_two_below :
  (forall byteLength : N,
     let s := fileSizeOf byteLength in
     let r := roundedFileSizeOf s in
     r == Math_pow2 (Math_floor_log2 s) /\
     match byteLength with
     | N0 =>
         Math_floor_log2 s = NegInfinity /\ r == 0 /\
         (forall k : Z, ~ r == 2 ^ k)
     | Npos _ =>
         Math_floor_log2 s = Finite (Int_part (ln (Q2R s) / ln 2)) /\
         r == 2 ^ Int_part (ln (Q2R s) / ln 2) /\
         Q2R r = Rpower 2 (IZR (Int_part (ln (Q2R s) / ln 2))) /\
         r <= s /\ s < 2 * r /\
         (forall j : Z, 2 ^ j <= s -> 2 ^ j <= r)
     end) /\
  roundedFileSizeOf (fileSizeOf (9 * 1024 * 1024)) == 8 /\
  roundedFileSizeOf (fileSizeOf (16 * 1024 * 1024)) == 16 /\
  (forall (IStyle : Type) (csv : ICsv.t) (wk : DoExport.Worker IStyle),
     DoExport.roundedFileSize (DoExport.locals (DoExport.measure csv wk)) =
     roundedFileSizeOf (fileSizeOf (Buffer_byteLength (ICsv.data csv)))).
Proof.
  split; [ | split; [reflexivity | split; [reflexivity | reflexivity]]].
  intros [|byteLength] s r; (split; [reflexivity | ]).
  { split; [reflexivity | split; [reflexivity | ]].
    intros k E. pose proof (pow2_pos k) as P. rewrite <- E in P.
    now apply (Qlt_irrefl r). }
  destruct (Math_floor_log2_bounds s (fileSizeOf_pos byteLength)) as (k & E & L & U).
  assert (R : r == 2 ^ k).
  { unfold r, roundedFileSizeOf. rewrite E. reflexivity. }
  rewrite (floor_log2_real s k L U).
  split; [exact E | split; [exact R | split; [ | split; [ | split]]]].
  - now rewrite (Qeq_eqR _ _ R), Q2R_pow2.
  - now rewrite R.
  - rewrite R, <- pow2_succ. exact U.
  - intros j J. rewrite R.
    apply Qpower_le_compat_l; [ | discriminate].
    assert (j < k + 1)%Z; [ | lia].
    apply (Qpower_lt_compat_l_inv 2); [ | reflexivity].
    eapply Qle_lt_trans; eassumption.
Qed.

Lemma rounded_size_is_power_of_two_below_witness :
  2 ^ 3 <= roundedFileSizeOf (fileSizeOf (9 * 1024 * 1024)).
Proof.
  destruct (proj1 rounded_size_is_power_of_two_below 9437184%N)
    as (_ & _ & _ & _ & _ & _ & H).
  apply (H 3%Z). unfold Qle. simpl. lia.
Defined.

(** C8 as stated fails for the empty file: its reported size is 0, which is
    [2 ^ k] for no [k]. *)
Lemma empty_file_is_reported_as_zero :
  roundedFileSizeOf (fileSizeOf (Buffer_byteLength EmptyString)) == 0 /\
  ~ (exists k : Z,
       roundedFileSizeOf (fileSizeOf (Buffer_byteLength EmptyString)) == 2 ^ k).
Proof.
  split; [reflexivity | ].
  intros [k E]. pose proof (pow2_pos k) as P. rewrite <- E in P.
  revert P. apply Qlt_irrefl.
Qed.

(** C10.  For a measured size strictly between 0 and 1 MB the reported size
    is a fraction: positive, at most one half, hence below 1 and not an
    integer.  For a measured size of 0 the reported size is 0. *)
Theorem rounded_size_below_one_megabyte :
  (forall byteLength : N,
     let s := fileSizeOf byteLength in
     let r := roundedFileSizeOf s in
     0 < s -> s < 1 ->
     0 < r /\ r <= 1 # 2 /\ r < 1 /\ (forall z : Z, ~ r == inject_Z z)) /\
  Math_floor_log2 (fileSizeOf 0) = NegInfinity /\
  roundedFileSizeOf (fileSizeOf 0) == 0.
Proof.
  split; [ | split; reflexivity].
  intros byteLength s r P B.
  destruct (Math_floor_log2_bounds s P) as (k & E & L & U).
  assert (R : r == 2 ^ k).
  { unfold r, roundedFileSizeOf. rewrite E. reflexivity. }
  assert (K : (k < 0)%Z).
  { apply (Qpower_lt_compat_l_inv 2); [ | reflexivity].
    change (2 ^ 0) with 1. eapply Qle_lt_trans; eassumption. }
  assert (H : r <= 1 # 2).
  { rewrite R. change (1 # 2) with (2 ^ (-1)).
    apply Qpower_le_compat_l; [lia | discriminate]. }
  assert (Q0 : 0 < r).
  { rewrite R. apply pow2_pos. }
  repeat split.
  - exact Q0.
  - exact H.
  - Lqa.lra.
  - intros z Ez. rewrite Ez in Q0, H.
    unfold Qlt, Qle, inject_Z in Q0, H. simpl in Q0, H. lia.
Qed.

Lemma rounded_size_below_one_megabyte_witness :
  0 < roundedFileSizeOf (fileSizeOf 3) /\
  roundedFileSizeOf (fileSizeOf 3) <= 1 # 2.
Proof.
  destruct (proj1 rounded_size_below_one_megabyte 3%N) as (A & B & _).
  - reflexivity.
  - reflexivity.
  - split; [exact A | exact B].
Defined.

(** ** Runs of an export *)

Section Runs.
Context {IStyle : Type}.
Variable DRIVE_ARCHIVE_INDEX_SHEET : string.
Variable RETRY_OPTIONS_retries : nat.
Variable api : Api.
Import DoExport.

Local Abbreviation System := (DoExport.System IStyle).
Local Abbreviation Worker := (DoExport.Worker IStyle).
Local Abbreviation started := (DoExport.started (IStyle := IStyle)).
Local Abbreviation dispatch := (DoExport.dispatch (IStyle := IStyle)).
Local Abbreviation doExport := (DoExport.doExport (IStyle := IStyle)).
Local Abbreviation recruits := (DoExport.recruits (IStyle := IStyle)).

Lemma setNth_middle {A : Type} (done rest : list A) (x y : A) :
  setNth (List.length done) x (done ++ y :: rest) = (done ++ x :: rest)%list.
Proof.
  induction done as [|d done IH]; simpl; [reflexivity | now rewrite IH].
Qed.

Lemma nth_error_middle {A : Type} (done rest : list A) (y : A) :
  nth_error (done ++ y :: rest) (List.length done) = Some y.
Proof.
  induction done as [|d done IH]; simpl; [reflexivity | exact IH].
Qed.

Lemma snoc_middle {A : Type} (done rest : list A) (x y : A) :
  (done ++ x :: y :: rest)%list = ((done ++ [x]) ++ y :: rest)%list.
Proof. now rewrite <- app_assoc. Qed.

Lemma length_snoc {A : Type} (done : list A) (x : A) :
  List.length (done ++ [x]) = S (List.length done).
Proof. rewrite length_app. simpl. lia. Qed.

Lemma live_not_idle (p : Phase IStyle) :
  live p = true -> p <> Settled /\ p <> Queued.
Proof. destruct p; simpl; intros H; split; congruence. Qed.

Lemma live_weight (p : Phase IStyle) : live p = true -> (0 < phaseWeight p)%nat.
Proof. destruct p; simpl; intros H; try discriminate; lia. Qed.

(** What a resumption does: the worker moves on by itself, or it returns. *)
Lemma resume_cases (i : nat) (ev : Settlement IStyle) (s s' : System) :
  resume i ev s = Some s' ->
  exists wk,
    nth_error (pool s) i = Some wk /\ live (phase wk) = true /\
    ((exists wk' s1,
        s' = withWorker i wk' s1 /\ untouched s s1 /\
        options wk' = options wk /\ live (phase wk') = true /\
        (phaseWeight (phase wk') < phaseWeight (phase wk))%nat) \/
     (exists wk' status,
        s' = finish i wk' status s /\ options wk' = options wk)).
Proof.
  unfold resume. destruct (nth_error (pool s) i) as [wk|]; [ | discriminate].
  intros H. exists wk. split; [reflexivity | ].
  destruct (phase wk) as [ | |[f|] [sty|]|[|] [|] [|]| | ] eqn:P;
    destruct ev as [[csv|e]|[file|e]|[sty'|e]|[u|e]|[u|e]| ];
    try discriminate H;
    injection H as <-; (split; [reflexivity | ]);
    unfold finalized, catchBlock, finalize; simpl;
    first
      [ right; do 2 eexists; split; [reflexivity | reflexivity]
      | left; do 2 eexists;
        split; [reflexivity | ];
        split; [repeat split | ];
        split; [reflexivity | ];
        split; [reflexivity | rewrite ?P; simpl; lia] ].
Qed.

(** The settlement [ev] resumes the worker at hand. *)
Ltac resumed_by ev := exists ev; eexists; reflexivity.

(** A worker that awaits something can be resumed. *)
Lemma live_resumes (i : nat) (wk : Worker) (s : System) :
  nth_error (pool s) i = Some wk ->
  live (phase wk) = true ->
  exists ev s', resume i ev s = Some s'.
Proof.
  intros N L. unfold resume. rewrite N.
  pose (failed := @Err unit (Error EmptyString)).
  destruct (phase wk) as [ | |[f|] [sty|]|[|] [|] [|]| | ];
    try discriminate L;
    first
      [ resumed_by (getCsv_settled (IStyle := IStyle) (Err (Error EmptyString)))
      | resumed_by (uploadToDrive_settled (IStyle := IStyle) (Err (Error EmptyString)))
      | resumed_by (getFusiontableStyles_settled (IStyle := IStyle)
                      (Err (Error EmptyString)))
      | resumed_by (logFileExportInIndexSheet_settled (IStyle := IStyle) failed)
      | resumed_by (addFilePermissions_settled (IStyle := IStyle) failed)
      | resumed_by (updateTableExportProgress_settled (IStyle := IStyle)) ].
Qed.

(** *** The log *)

Lemma exportFinishes_app (l l' : list LogEvent) :
  exportFinishes (l ++ l') = (exportFinishes l + exportFinishes l')%nat.
Proof. unfold exportFinishes. now rewrite filter_app, length_app. Qed.

Lemma finishesFollow_app (n : nat) (l l' : list LogEvent) :
  forall prev,
    finishesFollow n prev (l ++ l') =
    finishesFollow n prev l && finishesFollow n (lastEvent prev l) l'.
Proof.
  induction l as [|e l IH]; intros prev; simpl.
  - reflexivity.
  - rewrite IH. unfold lastEvent. simpl. now rewrite andb_assoc.
Qed.

Lemma finishEvents_follow (n : nat) (wk : Worker) (status : Status)
    (prev : option LogEvent) :
  (isLast (options wk) = true -> tableId (options wk) = n) ->
  finishesFollow n prev (finishEvents wk status) = true.
Proof.
  intros H. unfold finishEvents.
  destruct (isLast (options wk)); simpl; [ | reflexivity].
  now rewrite String.eqb_refl, H, Nat.eqb_refl.
Qed.

Lemma finishEvents_count (wk : Worker) (status : Status) :
  exportFinishes (finishEvents wk status) =
  if isLast (options wk) then 1%nat else 0%nat.
Proof. unfold finishEvents. now destruct (isLast (options wk)). Qed.

(** *** The workers *)

Lemma map_options_setNth (l : list Worker) (i : nat) (wk wk' : Worker) :
  nth_error l i = Some wk ->
  options wk' = options wk ->
  map options (setNth i wk' l) = map options l.
Proof.
  revert i. induction l as [|x l IH]; intros [|i] N E; simpl in *;
    try discriminate.
  - injection N as ->. now rewrite E.
  - now rewrite (IH i N E).
Qed.

Lemma Running_at (s : System) (done rest : list Worker) (wk w : Worker) (i : nat) :
  Running s done wk rest ->
  nth_error (pool s) i = Some w ->
  live (phase w) = true ->
  i = List.length done /\ w = wk.
Proof.
  intros (Ep & D & _ & Q & _) N L.
  apply live_not_idle in L as [NS NQ].
  rewrite Ep in N.
  destruct (lt_eq_lt_dec i (List.length done)) as [[Lt|Eq]|Gt].
  - rewrite nth_error_app1 in N by exact Lt.
    apply nth_error_In in N. rewrite Forall_forall in D.
    now elim NS; apply D.
  - subst i. rewrite nth_error_middle in N. now injection N as <-.
  - rewrite nth_error_app2 in N by lia.
    destruct (i - List.length done)%nat as [|k] eqn:K; [lia | ].
    simpl in N. apply nth_error_In in N. rewrite Forall_forall in Q.
    now elim NQ; apply Q.
Qed.


Lemma weight_middle (done rest : list Worker) (wk : Worker) (s : System) :
  pool s = (done ++ wk :: rest)%list ->
  weight s =
  (list_sum (map (fun w => phaseWeight (phase w)) done) + phaseWeight (phase wk) +
   list_sum (map (fun w => phaseWeight (phase w)) rest))%nat.
Proof.
  intros E. unfold weight. rewrite E, map_app, list_sum_app. simpl. lia.
Qed.

Lemma numbered_middle (done rest : list Worker) (wk wk' : Worker) :
  options wk' = options wk ->
  map options (done ++ wk' :: rest) = map options (done ++ wk :: rest).
Proof. intros E. rewrite !map_app. simpl. now rewrite E. Qed.

Lemma length_middle {A : Type} (done rest : list A) (x : A) :
  List.length (done ++ x :: rest) = S (List.length done + List.length rest).
Proof. rewrite length_app. simpl. lia. Qed.

(** The running worker moves on by itself. *)
Lemma Serial_advance (s s1 : System) (done rest : list Worker) (wk wk' : Worker) :
  numbered (map options (pool s)) ->
  finishesFollow (List.length (pool s)) None (exportLog s) = true ->
  Running s done wk rest ->
  untouched s s1 ->
  options wk' = options wk ->
  live (phase wk') = true ->
  (phaseWeight (phase wk') < phaseWeight (phase wk))%nat ->
  Serial (withWorker (List.length done) wk' s1) /\
  (weight (withWorker (List.length done) wk' s1) < weight s)%nat.
Proof.
  intros Num Fol (Ep & D & L & Q & A & Qu & Cnt) (U1 & U2 & U3 & U4) O L' W.
  assert (P : pool (withWorker (List.length done) wk' s1) = (done ++ wk' :: rest)%list).
  { simpl. rewrite U1, Ep. apply setNth_middle. }
  split.
  - unfold Serial. rewrite P. simpl exportLog. rewrite U4.
    split; [ | split].
    + rewrite (numbered_middle done rest wk wk' O). now rewrite <- Ep.
    + rewrite length_middle, <- (length_middle done rest wk), <- Ep. exact Fol.
    + left. exists done, wk', rest. unfold Running. rewrite P. simpl.
      rewrite U2, U3, U4. repeat split; assumption.
  - rewrite (weight_middle done rest wk' _ P), (weight_middle done rest wk s Ep).
    lia.
Qed.

(** The running worker returns: the export is over, or the next one starts. *)
Lemma Serial_finish (s : System) (done rest : list Worker) (wk wk' : Worker)
    (status : Status) :
  numbered (map options (pool s)) ->
  finishesFollow (List.length (pool s)) None (exportLog s) = true ->
  Running s done wk rest ->
  options wk' = options wk ->
  Serial (finish (List.length done) wk' status s) /\
  (weight (finish (List.length done) wk' status s) < weight s)%nat.
Proof.
  intros Num Fol (Ep & D & L & Q & A & Qu & Cnt) O.
  pose proof (live_weight _ L) as LW.
  destruct (Num (List.length done) (options wk)) as [Tid Last].
  { rewrite Ep, map_app, nth_error_app2; rewrite length_map; [ | lia].
    now rewrite Nat.sub_diag. }
  rewrite length_map, Ep, length_middle in Last.
  set (wS := atPhase Settled wk').
  assert (OS : options wS = options wk) by exact O.
  unfold finish, next. simpl queue. rewrite Qu.
  destruct rest as [|wq rest'].
  - (* the last worker *)
    simpl seq. cbv iota.
    assert (IsLast : isLast (options wk') = true).
    { rewrite O, Last. simpl. apply Nat.eqb_eq. lia. }
    match goal with |- Serial ?t /\ _ => set (s' := t) end.
    assert (P : pool s' = (done ++ [wS])%list).
    { unfold s'. simpl. rewrite Ep. apply setNth_middle. }
    assert (Lg : exportLog s' = (exportLog s ++ finishEvents wk' status)%list)
      by reflexivity.
    assert (Sd : Forall (fun w => phase w = Settled) (done ++ [wS])).
    { apply Forall_app. split; [exact D | ]. now constructor. }
    split.
    + unfold Serial. rewrite P, Lg. split; [ | split].
      * rewrite (numbered_middle done [] wk wS OS). now rewrite <- Ep.
      * rewrite finishesFollow_app.
        rewrite length_middle, <- (length_middle done [] wk), <- Ep, Fol.
        apply finishEvents_follow. intros _. rewrite O, Tid, Ep, length_middle.
        simpl. lia.
      * right. unfold Finished. rewrite P, Lg.
        split; [exact Sd | split; [ | split; [reflexivity | ]]].
        -- unfold s'. simpl. now rewrite A.
        -- rewrite exportFinishes_app, Cnt, finishEvents_count, IsLast.
           now destruct done.
    + rewrite (weight_middle done [] wS s' P), (weight_middle done [] wk s Ep).
      simpl. lia.
  - (* another worker waits *)
    simpl seq. cbv iota.
    assert (NotLast : isLast (options wk') = false).
    { rewrite O, Last. simpl. apply Nat.eqb_neq. lia. }
    assert (Pq : phase wq = Queued) by now inversion Q.
    assert (Q' : Forall (fun w => phase w = Queued) rest') by now inversion Q.
    unfold run. simpl pool. fold wS. rewrite Ep, setNth_middle.
    rewrite snoc_middle, <- (length_snoc done wS), nth_error_middle.
    match goal with |- Serial ?t /\ _ => set (s' := t) end.
    set (wA := atPhase AwaitCsv wq).
    assert (P : pool s' = ((done ++ [wS]) ++ wA :: rest')%list).
    { unfold s'. simpl. rewrite Ep, setNth_middle.
      rewrite snoc_middle. apply setNth_middle. }
    assert (Lg : exportLog s' =
                 ((exportLog s ++ finishEvents wk' status) ++
                  [logTableStart (exportId (options wq)) (tableId (options wq))])%list)
      by reflexivity.
    assert (Sd : Forall (fun w => phase w = Settled) (done ++ [wS])).
    { apply Forall_app. split; [exact D | ]. now constructor. }
    assert (Mo : map options ((done ++ [wS]) ++ wA :: rest') =
                 map options (done ++ wk :: wq :: rest')).
    { rewrite <- snoc_middle. rewrite !map_app. simpl. now rewrite O. }
    assert (Ln : List.length ((done ++ [wS]) ++ wA :: rest') =
                 List.length (done ++ wk :: wq :: rest')).
    { rewrite <- snoc_middle. rewrite !length_app. reflexivity. }
    split.
    + unfold Serial. rewrite P, Lg. split; [ | split].
      * rewrite Mo. now rewrite <- Ep.
      * rewrite !finishesFollow_app, Ln, <- Ep, Fol.
        rewrite finishEvents_follow; [reflexivity | ].
        rewrite NotLast. discriminate.
      * left. exists (done ++ [wS])%list, wA, rest'. unfold Running.
        rewrite P, Lg. unfold s'. simpl activeCount. simpl queue.
        rewrite A, length_snoc.
        repeat split; try assumption; try reflexivity.
        rewrite !exportFinishes_app, Cnt, finishEvents_count, NotLast.
        reflexivity.
    + rewrite (weight_middle _ _ wA s' P), (weight_middle done _ wk s Ep).
      rewrite map_app, list_sum_app. simpl. rewrite Pq. simpl. lia.
Qed.

Lemma run_roster (j : nat) (s : System) :
  map options (pool (run j s)) = map options (pool s).
Proof.
  unfold run. destruct (nth_error (pool s) j) as [wk|] eqn:N; [ | reflexivity].
  simpl. now apply (map_options_setNth _ _ wk).
Qed.

Lemma next_roster (s : System) :
  map options (pool (next s)) = map options (pool s).
Proof.
  unfold next. destruct (queue s); [reflexivity | ]. now rewrite run_roster.
Qed.

(** No resumption changes what the workers were called with. *)
Lemma resume_roster (i : nat) (ev : Settlement IStyle) (s s' : System) :
  resume i ev s = Some s' -> map options (pool s') = map options (pool s).
Proof.
  intros H. apply resume_cases in H as (wk & N & _ & Cases).
  destruct Cases as [(wk' & s1 & -> & (U & _) & O & _) | (wk' & status & -> & O)].
  - simpl. rewrite U. now apply (map_options_setNth _ _ wk).
  - unfold finish. rewrite next_roster. simpl.
    now apply (map_options_setNth _ _ wk).
Qed.

(** Every step keeps the shape and takes the export closer to its end. *)
Lemma Serial_step (s s' : System) :
  Serial s -> step s s' ->
  Serial s' /\ (weight s' < weight s)%nat /\
  map options (pool s') = map options (pool s).
Proof.
  intros (Num & Fol & Shape) (i & ev & H).
  pose proof (resume_roster i ev s s' H) as Ro.
  apply resume_cases in H as (wk & N & L & Cases).
  destruct Shape as [(done & w0 & rest & R) | (F & _)].
  - destruct (Running_at s done rest w0 wk i R N L) as [-> ->].
    destruct Cases as [(wk' & s1 & -> & U & O & L' & W) | (wk' & status & -> & O)].
    + destruct (Serial_advance s s1 done rest w0 wk'); auto.
    + destruct (Serial_finish s done rest w0 wk' status); auto.
  - apply nth_error_In in N. rewrite Forall_forall in F.
    rewrite (F wk N) in L. discriminate.
Qed.

Lemma Serial_steps (s s' : System) :
  Serial s -> steps s s' ->
  Serial s' /\ map options (pool s') = map options (pool s).
Proof.
  intros I H. induction H as [s | s s' s'' _ IH St]; [now split | ].
  destruct (IH I) as [I' E].
  destruct (Serial_step s' s'' I' St) as (I'' & _ & E').
  split; [exact I'' | congruence].
Qed.

(** With the shape kept, nothing awaited means everything returned. *)
Lemma Serial_quiescent (s : System) : Serial s -> quiescent s -> Finished s.
Proof.
  intros (_ & _ & [(done & wk & rest & R) | F]) Q; [ | exact F].
  destruct R as (Ep & _ & L & _).
  destruct (live_resumes (List.length done) wk s) as (ev & s' & H).
  - rewrite Ep. apply nth_error_middle.
  - exact L.
  - rewrite Q in H. discriminate.
Qed.


(** *** The export as [doExport] leaves it *)

Lemma enqueue_waiting (i : nat) (s : System) :
  activeCount s = 1%nat ->
  enqueue 1 i s = withLimiter 1 (queue s ++ [i]) s.
Proof. intros A. unfold enqueue. now rewrite A. Qed.

Lemma fold_enqueue_waiting (m : nat) :
  forall a (s : System),
    activeCount s = 1%nat ->
    fold_left (fun acc i => enqueue 1 i acc) (seq a m) s =
    withLimiter 1 (queue s ++ seq a m) s.
Proof.
  induction m as [|m IH]; intros a s A.
  - simpl. rewrite app_nil_r. destruct s. simpl in A. now subst.
  - simpl. rewrite enqueue_waiting by exact A.
    rewrite IH by reflexivity. simpl. unfold withLimiter. simpl.
    now rewrite <- app_assoc.
Qed.

Lemma mapi_from_Forall {A B : Type} (P : B -> Prop) (f : A -> nat -> B)
    (l : list A) :
  (forall x i, P (f x i)) -> forall k, Forall P (mapi_from f k l).
Proof.
  intros H. induction l as [|x l IH]; intros k; simpl; constructor; auto.
Qed.

Lemma mapi_from_map {A B C : Type} (g : B -> C) (f : A -> nat -> B) (l : list A) :
  forall k, map g (mapi_from f k l) = mapi_from (fun x i => g (f x i)) k l.
Proof.
  induction l as [|x l IH]; intros k; simpl; [reflexivity | now rewrite IH].
Qed.

Lemma recruits_roster (o : IDoExportOptions) (folder : string) (sheet : ISheet.t) :
  map options (recruits o folder sheet) =
  mapi (saveTableOptions o folder sheet) (do_tables o).
Proof. unfold recruits, mapi. now rewrite mapi_from_map. Qed.

Lemma recruits_length (o : IDoExportOptions) (folder : string) (sheet : ISheet.t) :
  List.length (recruits o folder sheet) = List.length (do_tables o).
Proof. unfold recruits, mapi. apply mapi_from_length. Qed.

Lemma recruits_numbered (o : IDoExportOptions) (folder : string) (sheet : ISheet.t) :
  numbered (map options (recruits o folder sheet)).
Proof.
  intros i x N.
  rewrite length_map, recruits_length.
  rewrite recruits_roster, mapi_nth_error in N.
  destruct (nth_error (do_tables o) i) as [t|]; [ | discriminate].
  injection N as <-. simpl. split; [reflexivity | ].
  destruct (Z.eqb_spec (Z.of_nat i) (Z.of_nat (List.length (do_tables o)) - 1));
    destruct (Nat.eqb_spec (i + 1) (List.length (do_tables o)));
    try reflexivity; lia.
Qed.

Lemma recruits_queued (o : IDoExportOptions) (folder : string) (sheet : ISheet.t) :
  Forall (fun w : Worker => phase w = Queued) (recruits o folder sheet).
Proof. unfold recruits, mapi. now apply mapi_from_Forall. Qed.

Lemma dispatch_Serial (o : IDoExportOptions) (folder : string) (sheet : ISheet.t) :
  Serial (dispatch 1 o folder sheet (started o)) /\
  map options (pool (dispatch 1 o folder sheet (started o))) =
    mapi (saveTableOptions o folder sheet) (do_tables o).
Proof.
  unfold DoExport.dispatch.
  pose proof (recruits_numbered o folder sheet) as Num.
  pose proof (recruits_queued o folder sheet) as Qd.
  pose proof (recruits_roster o folder sheet) as Ro.
  destruct (recruits o folder sheet) as [|w0 ws] eqn:E.
  - simpl. split; [ | exact Ro].
    split; [exact Num | split; [reflexivity | ]].
    right. repeat split. constructor.
  - match goal with
    | |- Serial (fold_left _ _ ?t) /\ _ => set (init := t)
    end.
    assert (D : fold_left (fun acc i => enqueue 1 i acc)
                  (seq 0 (List.length (w0 :: ws))) init =
                withLimiter 1 (seq 1 (List.length ws)) (run 0 init)).
    { cbn [List.length seq fold_left].
      change (enqueue 1 0 init) with (run 0 init).
      now rewrite fold_enqueue_waiting by reflexivity. }
    rewrite D. clear D.
    assert (Pq : phase w0 = Queued) by now inversion Qd.
    assert (Q' : Forall (fun w : Worker => phase w = Queued) ws) by now inversion Qd.
    split; [ | exact Ro].
    split; [exact Num | split; [reflexivity | ]].
    left. exists [], (atPhase AwaitCsv w0), ws.
    repeat split; try assumption; constructor.
Qed.

Lemma doExport_dispatched (o : IDoExportOptions) (w w' : World) (folder : string)
    (s0 : System) :
  doExport DRIVE_ARCHIVE_INDEX_SHEET RETRY_OPTIONS_retries api o w =
    (Ok folder, w', s0) ->
  exists sheet, s0 = dispatch 1 o folder sheet (started o).
Proof.
  unfold doExport.
  destruct (prepare _ _ _ w) as [[[f sh]|e] w1]; intros H; [ | discriminate].
  injection H as -> -> <-. now exists sh.
Qed.

Lemma doExport_Serial (o : IDoExportOptions) (w w' : World) (folder : string)
    (s0 s : System) :
  doExport DRIVE_ARCHIVE_INDEX_SHEET RETRY_OPTIONS_retries api o w =
    (Ok folder, w', s0) ->
  steps s0 s ->
  Serial s /\ List.length (pool s) = List.length (do_tables o).
Proof.
  intros H St. apply doExport_dispatched in H as (sheet & ->).
  destruct (dispatch_Serial o folder sheet) as [I Ro].
  destruct (Serial_steps _ _ I St) as [I' E].
  split; [exact I' | ].
  rewrite <- (length_map options), E, Ro. apply mapi_from_length.
Qed.

(** Under the shape no two workers are under way at once. *)
Lemma Serial_in_order (s : System) (i j : nat) (wi wj : Worker) :
  Serial s ->
  (i < j)%nat ->
  nth_error (pool s) i = Some wi ->
  nth_error (pool s) j = Some wj ->
  isQueued (phase wj) = false ->
  isSettled (phase wi) = true.
Proof.
  intros (_ & _ & [(done & wk & rest & R) | (F & _)]) Lt Ni Nj Q.
  - destruct R as (Ep & D & _ & Qd & _). rewrite Ep in Ni, Nj.
    assert (J : (j <= List.length done)%nat).
    { destruct (le_lt_dec j (List.length done)) as [J|J]; [exact J | ].
      rewrite nth_error_app2 in Nj by lia.
      destruct (j - List.length done)%nat as [|k] eqn:K; [lia | ].
      simpl in Nj. apply nth_error_In in Nj. rewrite Forall_forall in Qd.
      rewrite (Qd wj Nj) in Q. discriminate. }
    rewrite nth_error_app1 in Ni by lia.
    apply nth_error_In in Ni. rewrite Forall_forall in D.
    now rewrite (D wi Ni).
  - apply nth_error_In in Ni. rewrite Forall_forall in F. now rewrite (F wi Ni).
Qed.

Lemma pastFetch_under_way (p : Phase IStyle) :
  pastFetch p = true -> isQueued p = false /\ isSettled p = false.
Proof. destruct p; simpl; intros H; try discriminate; now split. Qed.

Lemma Serial_no_overlap (s : System) : Serial s -> ~ overlap s.
Proof.
  intros I (i & j & wi & wj & N & Ni & Nj & Pi & Pj).
  apply pastFetch_under_way in Pi as [Qi Si].
  apply pastFetch_under_way in Pj as [Qj Sj].
  destruct (lt_eq_lt_dec i j) as [[Lt|Eq]|Gt].
  - rewrite (Serial_in_order s i j wi wj I Lt Ni Nj Qj) in Si. discriminate.
  - contradiction.
  - rewrite (Serial_in_order s j i wj wi I Gt Nj Ni Qi) in Sj. discriminate.
Qed.

Lemma Serial_activeCount (s : System) : Serial s -> (activeCount s <= 1)%nat.
Proof.
  intros (_ & _ & [(done & wk & rest & R) | (_ & A & _)]).
  - destruct R as (_ & _ & _ & _ & A & _). lia.
  - lia.
Qed.

Lemma Finished_quiescent (s : System) : Finished s -> quiescent s.
Proof.
  intros (F & _) i ev. unfold resume.
  destruct (nth_error (pool s) i) as [wk|] eqn:N; [ | reflexivity].
  apply nth_error_In in N. rewrite Forall_forall in F. now rewrite (F wk N).
Qed.

Lemma resumeAll_steps (schedule : list (nat * Settlement IStyle)) :
  forall s s' : System, resumeAll schedule s = Some s' -> steps s s'.
Proof.
  assert (T : forall a b c : System, step a b -> steps b c -> steps a c).
  { intros a b c S H. induction H as [b | b c d _ IH S'].
    - eapply steps_step; [apply steps_refl | exact S].
    - eapply steps_step; [now apply IH | exact S']. }
  induction schedule as [|[i ev] rest IH]; intros s s' H; simpl in H.
  - injection H as <-. apply steps_refl.
  - destruct (resume i ev s) as [s1|] eqn:R; [ | discriminate].
    apply (T s s1 s'); [now exists i, ev | now apply IH].
Qed.

(** Returning with either status, a worker marked [isLast] logs its
    [logTableFinish] and then [logExportFinish]. *)
Lemma finish_of_last_logs (i : nat) (wk : Worker) (status : Status) (s : System) :
  isLast (options wk) = true ->
  exists then_,
    exportLog (finish i wk status s) =
    (exportLog s ++
     logTableFinish (exportId (options wk)) (tableId (options wk)) status
       (roundedFileSize (locals wk))
     :: logExportFinish (exportId (options wk)) :: then_)%list.
Proof.
  intros L. unfold finish, next, finishEvents. rewrite L. simpl queue.
  destruct (queue s) as [|j q].
  - exists []. reflexivity.
  - unfold run.
    match goal with
    | |- context [match ?x with Some _ => _ | None => _ end] => destruct x
    end.
    + eexists. simpl. rewrite <- app_assoc. reflexivity.
    + exists []. reflexivity.
Qed.

Lemma Serial_nobody (s : System) :
  Serial s -> pool s = [] -> exportFinishes (exportLog s) = 0%nat.
Proof.
  intros (_ & _ & [(done & wk & rest & R) | (_ & _ & _ & C)]) E.
  - destruct R as (Ep & _). rewrite E in Ep. now destruct done.
  - now rewrite E in C.
Qed.

(** C1 (as amended).  When [doExport] has resolved for an export without
    tables, [logExportFinish] is never called.  When it has resolved for an
    export with at least one table, then at every point of every run:
    [logExportFinish] has been called at most once; each call of it comes directly after the
    [logTableFinish] of the table with the last id, for the same export and
    whatever the status logged there; it has been called exactly when the
    worker of the last table has returned.  A worker marked [isLast] makes
    the call when it returns with success and when it returns with error.  A
    run cannot go on for ever, and when nothing is awaited any more, the call
    has been made exactly once. *)
Theorem export_finish_once_by_last_worker
    (o : IDoExportOptions) (w w' : World) (folder : string) (s0 s : System) :
  doExport DRIVE_ARCHIVE_INDEX_SHEET RETRY_OPTIONS_retries api o w =
    (Ok folder, w', s0) ->
  steps s0 s ->
  let n := List.length (do_tables o) in
  List.length (pool s) = n /\
  (do_tables o = [] -> exportFinishes (exportLog s) = 0%nat) /\
  (do_tables o <> [] ->
     (exportFinishes (exportLog s) <= 1)%nat /\
     finishesFollow n None (exportLog s) = true /\
     (forall wk,
        nth_error (pool s) (n - 1) = Some wk ->
        exportFinishes (exportLog s) = if isSettled (phase wk) then 1%nat else 0%nat) /\
     (forall i wk status,
        isLast (options wk) = true ->
        exists then_,
          exportLog (finish i wk status s) =
          (exportLog s ++
           logTableFinish (exportId (options wk)) (tableId (options wk)) status
             (roundedFileSize (locals wk))
           :: logExportFinish (exportId (options wk)) :: then_)%list) /\
     (quiescent s -> exportFinishes (exportLog s) = 1%nat) /\
     (quiescent s \/ exists s', step s s') /\
     (forall s', step s s' -> (weight s' < weight s)%nat)).
Proof.
  intros H St n.
  destruct (doExport_Serial o w w' folder s0 s H St) as [I Len].
  fold n in Len.
  split; [exact Len | split].
  { intros E. apply (Serial_nobody s I). apply length_zero_iff_nil.
    rewrite Len. unfold n. now rewrite E. }
  intros NE.
  assert (Pos : (0 < n)%nat).
  { unfold n. destruct (do_tables o); [now elim NE | simpl; lia]. }
  pose proof I as (_ & Fol & Shape).
  rewrite Len in Fol.
  split; [ | split; [exact Fol | split; [ | split; [ | split; [ | split]]]]].
  - destruct Shape as [(done & wk & rest & R) | (_ & _ & _ & C)].
    + destruct R as (_ & _ & _ & _ & _ & _ & C). lia.
    + rewrite C. destruct (pool s); lia.
  - intros wl N.
    destruct Shape as [(done & wk & rest & R) | (F & _ & _ & C)].
    + destruct R as (Ep & _ & L & Q & _ & _ & C). rewrite C.
      rewrite Ep in N, Len. rewrite length_middle in Len.
      destruct rest as [|wq rest'].
      * replace (n - 1)%nat with (List.length done) in N by (simpl in Len; lia).
        rewrite nth_error_middle in N. injection N as <-.
        apply live_not_idle in L as [NS _]. now destruct (phase wk).
      * rewrite nth_error_app2 in N by (simpl in Len; lia).
        destruct (n - 1 - List.length done)%nat as [|k] eqn:K;
          [simpl in Len; lia | ].
        simpl in N. apply nth_error_In in N. rewrite Forall_forall in Q.
        now rewrite (Q wl N).
    + rewrite C. apply nth_error_In in N. rewrite Forall_forall in F.
      rewrite (F wl N). simpl. destruct (pool s); [ | reflexivity].
      simpl in Len. lia.
  - intros i wk status. apply finish_of_last_logs.
  - intros Q. destruct (Serial_quiescent s I Q) as (_ & _ & _ & C).
    rewrite C. destruct (pool s); [ | reflexivity]. simpl in Len. lia.
  - destruct Shape as [(done & wk & rest & R) | F].
    + right. destruct R as (Ep & _ & L & _).
      destruct (live_resumes (List.length done) wk s) as (ev & s' & R).
      * rewrite Ep. apply nth_error_middle.
      * exact L.
      * exists s', (List.length done), ev. exact R.
    + left. now apply Finished_quiescent.
  - intros s' S. now destruct (Serial_step s s' I S) as (_ & W & _).
Qed.

(** At most one worker is under way. *)
Lemma Serial_one_under_way (s : System) (i j : nat) (wi wj : Worker) :
  Serial s ->
  nth_error (pool s) i = Some wi ->
  nth_error (pool s) j = Some wj ->
  inProgress (phase wi) = true ->
  inProgress (phase wj) = true ->
  i = j.
Proof.
  intros I Ni Nj Pi Pj.
  apply andb_true_iff in Pi as [Qi Si]. apply andb_true_iff in Pj as [Qj Sj].
  apply negb_true_iff in Qi, Si, Qj, Sj.
  destruct (lt_eq_lt_dec i j) as [[Lt|Eq]|Gt]; [ | exact Eq | ].
  - rewrite (Serial_in_order s i j wi wj I Lt Ni Nj Qj) in Si. discriminate.
  - rewrite (Serial_in_order s j i wj wi I Gt Nj Ni Qi) in Sj. discriminate.
Qed.

Lemma started_stays (o : IDoExportOptions) (s : System) :
  steps (started o) s -> s = started o.
Proof.
  intros H. remember (started o) as s0 eqn:E.
  induction H as [s | s s' s'' _ IH (i & ev & R)]; [reflexivity | ].
  rewrite (IH E), E in R. unfold resume in R. simpl in R.
  now destruct i.
Qed.

(** C7.  [doExport] rejects, with the error of the step that failed, when the
    archive folder, the upload folder, the index sheet or the row of the
    export cannot be had; when both the upload folder and the index sheet
    fail, with the error of the one that fails first.  The export then stays
    as it was after [logExportStart]: no worker exists, no progress update
    has been made, and nothing happens later. *)
Theorem failed_preparation_dispatches_nothing
    (o : IDoExportOptions) (w : World) :
  let w1 := (w ++ [call_getArchiveFolder])%list in
  let archive := getArchiveFolder_at api (List.length w) in
  let upload := getDriveUploadFolder_at api (List.length w1) in
  let index a :=
    IndexSheet.getArchiveIndexSheet DRIVE_ARCHIVE_INDEX_SHEET
      RETRY_OPTIONS_retries api a (w1 ++ [call_getDriveUploadFolder a])%list in
  let row a := insertExportRowInIndexSheet_at api (List.length (snd (index a))) in
  (forall e,
     archive = Err e ->
     doExport DRIVE_ARCHIVE_INDEX_SHEET RETRY_OPTIONS_retries api o w =
       (Err e, w1, started o)) /\
  (forall a e sheet,
     archive = Ok a -> upload = Err e -> fst (index a) = Ok sheet ->
     doExport DRIVE_ARCHIVE_INDEX_SHEET RETRY_OPTIONS_retries api o w =
       (Err e, snd (index a), started o)) /\
  (forall a folder e,
     archive = Ok a -> upload = Ok folder -> fst (index a) = Err e ->
     doExport DRIVE_ARCHIVE_INDEX_SHEET RETRY_OPTIONS_retries api o w =
       (Err e, snd (index a), started o)) /\
  (forall a e1 e2,
     archive = Ok a -> upload = Err e1 -> fst (index a) = Err e2 ->
     doExport DRIVE_ARCHIVE_INDEX_SHEET RETRY_OPTIONS_retries api o w =
       (Err (if uploadFolderSettlesFirst api then e1 else e2),
        snd (index a), started o)) /\
  (forall a folder sheet e,
     archive = Ok a -> upload = Ok folder -> fst (index a) = Ok sheet ->
     row a = Err e ->
     doExport DRIVE_ARCHIVE_INDEX_SHEET RETRY_OPTIONS_retries api o w =
       (Err e,
        (snd (index a) ++ [call_insertExportRowInIndexSheet sheet folder])%list,
        started o)) /\
  pool (started o) = [] /\
  progressUpdates (started o) = [] /\
  exportLog (started o) =
    [logExportStart (do_exportId o) (List.length (do_tables o))] /\
  (forall s, steps (started o) s -> s = started o).
Proof.
  intros w1 archive upload index row.
  assert (U : forall a,
            archive = Ok a ->
            prepare DRIVE_ARCHIVE_INDEX_SHEET RETRY_OPTIONS_retries api w =
            match upload, fst (index a) with
            | Ok folder, Ok sheet =>
                match row a with
                | Ok _ =>
                    (Ok (folder, sheet),
                     (snd (index a) ++
                      [call_insertExportRowInIndexSheet sheet folder])%list)
                | Err e =>
                    (Err e,
                     (snd (index a) ++
                      [call_insertExportRowInIndexSheet sheet folder])%list)
                end
            | Err e, Ok _ => (Err e, snd (index a))
            | Ok _, Err e => (Err e, snd (index a))
            | Err e1, Err e2 =>
                (Err (if uploadFolderSettlesFirst api then e1 else e2),
                 snd (index a))
            end).
  { intros a A. unfold prepare, bind at 1. unfold external at 1.
    fold archive. rewrite A. fold w1.
    unfold bind at 1. unfold Promise_all2. unfold external at 1.
    fold upload. fold (index a). unfold row.
    destruct (index a) as [rs w3]. simpl fst. simpl snd.
    destruct upload as [f|e1], rs as [sh|e2]; reflexivity. }
  repeat split.
  - intros e A. unfold DoExport.doExport, prepare, bind at 1.
    unfold external at 1. fold archive. now rewrite A.
  - intros a e sheet A Up Ix. unfold DoExport.doExport.
    now rewrite (U a A), Up, Ix.
  - intros a folder e A Up Ix. unfold DoExport.doExport.
    now rewrite (U a A), Up, Ix.
  - intros a e1 e2 A Up Ix. unfold DoExport.doExport.
    now rewrite (U a A), Up, Ix.
  - intros a folder sheet e A Up Ix Rw. unfold DoExport.doExport.
    now rewrite (U a A), Up, Ix, Rw.
  - apply started_stays.
Qed.

End Runs.

(** ** The sample export *)

Lemma sample_doExport :
  Sample.doExport Sample.healthy [Sample.cities; Sample.rivers] =
  (Ok "UPLOAD",
   [call_getArchiveFolder; call_getDriveUploadFolder "ARCHIVE";
    call_findFile Sample.DRIVE_ARCHIVE_INDEX_SHEET "ARCHIVE";
    call_spreadsheets_get "SHEET";
    call_insertExportRowInIndexSheet Sample.indexSheet "UPLOAD"],
   Sample.dispatched).
Proof. reflexivity. Qed.

Lemma sample_steps (schedule : list (nat * DoExport.Settlement string)) :
  Sample.run schedule <> None ->
  DoExport.steps Sample.dispatched (Sample.after schedule).
Proof.
  intros H. apply (resumeAll_steps schedule). unfold Sample.after.
  fold (Sample.run schedule). now destruct (Sample.run schedule).
Qed.

(** Whichever way the last table's worker ends, [logExportFinish] follows
    its [logTableFinish]; the worker of the first table, which here returns
    first, does not call it. *)
Example last_worker_success_finishes_export :
  DoExport.exportLog Sample.lastSucceeds =
  [DoExport.logExportStart "E1" 2;
   DoExport.logTableStart "E1" 1;
   DoExport.logTableFinish "E1" 1 DoExport.error 0;
   DoExport.logTableStart "E1" 2;
   DoExport.logTableFinish "E1" 2 DoExport.success (1 # 131072);
   DoExport.logExportFinish "E1"].
Proof. reflexivity. Qed.

Example last_worker_error_finishes_export :
  DoExport.exportLog Sample.lastFails =
  [DoExport.logExportStart "E1" 2;
   DoExport.logTableStart "E1" 1;
   DoExport.logTableFinish "E1" 1 DoExport.success (1 # 131072);
   DoExport.logTableStart "E1" 2;
   DoExport.logTableFinish "E1" 2 DoExport.error 0;
   DoExport.logExportFinish "E1"].
Proof. reflexivity. Qed.

(** A settlement for the second table while the first is under way finds no
    worker awaiting it. *)
Example second_worker_waits_for_first :
  DoExport.resume 1 (DoExport.getCsv_settled (Ok Sample.citiesData))
    Sample.firstUploading = None.
Proof. reflexivity. Qed.

Lemma export_finish_once_by_last_worker_witness :
  DoExport.exportFinishes (DoExport.exportLog Sample.lastSucceeds) = 1%nat.
Proof.
  assert (St : DoExport.steps Sample.dispatched Sample.lastSucceeds).
  { apply sample_steps. discriminate. }
  destruct (export_finish_once_by_last_worker Sample.DRIVE_ARCHIVE_INDEX_SHEET 2
              Sample.healthy (Sample.job [Sample.cities; Sample.rivers]) [] _
              "UPLOAD" Sample.dispatched Sample.lastSucceeds
              sample_doExport St)
    as (_ & _ & H).
  destruct (H ltac:(discriminate)) as (_ & _ & L & _).
  exact (L _ eq_refl).
Defined.

(** C1 as stated fails: an export without tables is never logged as
    finished, although [doExport] resolves. *)
Lemma export_without_tables_never_finishes :
  fst (fst (Sample.doExport Sample.healthy [])) = Ok "UPLOAD" /\
  ~ (exists s,
       DoExport.steps (snd (Sample.doExport Sample.healthy [])) s /\
       DoExport.exportFinishes (DoExport.exportLog s) = 1%nat).
Proof.
  split; [reflexivity | ].
  intros (s & St & C).
  destruct (doExport_Serial Sample.DRIVE_ARCHIVE_INDEX_SHEET 2 Sample.healthy
              (Sample.job []) [] (snd (fst (Sample.doExport Sample.healthy [])))
              "UPLOAD" (snd (Sample.doExport Sample.healthy [])) s
              eq_refl St) as [I Len].
  simpl in Len. apply length_zero_iff_nil in Len.
  rewrite (Serial_nobody s I Len) in C. discriminate.
Qed.

(** C2 as stated fails: in no run of the export of two tables are the two
    workers past their fetch at the same time. *)
Lemma two_workers_never_overlap :
  ~ (exists s,
       DoExport.steps Sample.dispatched s /\ DoExport.overlap s).
Proof.
  intros (s & St & Ov).
  destruct (doExport_Serial Sample.DRIVE_ARCHIVE_INDEX_SHEET 2 Sample.healthy
              (Sample.job [Sample.cities; Sample.rivers]) [] _
              "UPLOAD" Sample.dispatched s sample_doExport St) as [I _].
  exact (Serial_no_overlap s I Ov).
Qed.

Lemma failed_preparation_dispatches_nothing_witness :
  Sample.doExport Sample.noUploadFolder [Sample.cities; Sample.rivers] =
  (Err (GaxiosError (Some 403%Z)),
   [call_getArchiveFolder; call_getDriveUploadFolder "ARCHIVE";
    call_findFile Sample.DRIVE_ARCHIVE_INDEX_SHEET "ARCHIVE";
    call_spreadsheets_get "SHEET"],
   DoExport.started (Sample.job [Sample.cities; Sample.rivers])).
Proof.
  refine (proj1 (proj2
            (failed_preparation_dispatches_nothing
               Sample.DRIVE_ARCHIVE_INDEX_SHEET 2 Sample.noUploadFolder
               (Sample.job [Sample.cities; Sample.rivers]) []))
            "ARCHIVE" (GaxiosError (Some 403%Z)) Sample.indexSheet _ _ _);
    reflexivity.
Defined.

(** * Further facts *)

(** ** The retry wrapper *)

Section Retry.
Context {A : Type}.
Variable op : M A.

(** An operation that fails [k] times and then succeeds is retried to its
    success, when [k] retries are allowed. *)
Lemma promiseRetry_recovers (ws : nat -> World) (a : A) (k : nat) :
  forall retries,
    (k <= retries)%nat ->
    (forall j, (j < k)%nat -> exists e, op (ws j) = (Err e, ws (S j))) ->
    op (ws k) = (Ok a, ws (S k)) ->
    promiseRetry retries op (ws 0%nat) = (Ok a, ws (S k)).
Proof.
  revert ws. induction k as [|k IH]; intros ws retries Le F S.
  - destruct retries; simpl; now rewrite S.
  - destruct retries as [|n]; [lia | ].
    destruct (F 0%nat) as [e E]; [lia | ].
    simpl. rewrite E.
    apply (IH (fun j => ws (Datatypes.S j)) n); [lia | | exact S].
    intros j J. apply F. lia.
Qed.

(** An operation that fails at every attempt is given up with the error of
    its last attempt. *)
Lemma promiseRetry_exhausts (ws : nat -> World) (e : JsError) :
  forall retries,
    (forall j, (j < retries)%nat -> exists e', op (ws j) = (Err e', ws (S j))) ->
    op (ws retries) = (Err e, ws (S retries)) ->
    promiseRetry retries op (ws 0%nat) = (Err e, ws (S retries)).
Proof.
  intros retries. revert ws. induction retries as [|n IH]; intros ws F L.
  - simpl. now rewrite L.
  - destruct (F 0%nat) as [e' E]; [lia | ].
    simpl. rewrite E.
    apply (IH (fun j => ws (S j))); [ | exact L].
    intros j J. apply F. lia.
Qed.

(** What the wrapper resolves with, one attempt has resolved with. *)
Lemma promiseRetry_resolved (P : A -> World -> Prop) :
  (forall w a w', op w = (Ok a, w') -> P a w') ->
  forall retries w a w',
    promiseRetry retries op w = (Ok a, w') -> P a w'.
Proof.
  intros H retries. induction retries as [|n IH]; intros w a w' R; simpl in R.
  - destruct (op w) as [[x|e] w1] eqn:E; [ | discriminate].
    injection R as <- <-. now apply (H w).
  - destruct (op w) as [[x|e] w1] eqn:E.
    + injection R as <- <-. now apply (H w).
    + now apply (IH w1).
Qed.

(** Attempts that each add [c] to a count: the wrapper adds [c] for each
    attempt it makes; it makes at least one and at most one more than retries
    are allowed, and all of them when it gives up. *)
Lemma promiseRetry_counts (count : World -> nat) (c : nat) :
  (forall w, count (snd (op w)) = (count w + c)%nat) ->
  forall retries w,
    exists made,
      (1 <= made <= S retries)%nat /\
      count (snd (promiseRetry retries op w)) = (count w + c * made)%nat /\
      (forall e, fst (promiseRetry retries op w) = Err e -> made = S retries).
Proof.
  intros H retries. induction retries as [|n IH]; intros w; simpl.
  - exists 1%nat. specialize (H w).
    destruct (op w) as [[x|e] w1]; simpl in *; repeat split; lia.
  - pose proof (H w) as H1. destruct (op w) as [[x|e] w1]; simpl in *.
    + exists 1%nat. repeat split; try lia. discriminate.
    + destruct (IH w1) as (made & B & C & E).
      exists (S made). repeat split; try lia.
      intros e' R. now rewrite (E e' R).
Qed.

(** A wrapper around an operation that never resolves rejects. *)
Lemma promiseRetry_rejects :
  (forall w, exists e, fst (op w) = Err e) ->
  forall retries w, exists e, fst (promiseRetry retries op w) = Err e.
Proof.
  intros H retries w.
  destruct (promiseRetry retries op w) as [[a|e] w'] eqn:R; [ | now exists e].
  exfalso.
  apply (promiseRetry_resolved (fun _ _ => False)) in R; [exact R | ].
  intros w0 a0 w0' E. destruct (H w0) as [e E']. rewrite E in E'. discriminate.
Qed.

End Retry.

Lemma attempts_length (call : nat -> ApiCall) (k : nat) :
  forall tick, List.length (attempts call tick k) = k.
Proof. induction k as [|k IH]; intros tick; simpl; [ | rewrite IH]; reflexivity. Qed.

Lemma attempts_snoc (call : nat -> ApiCall) (k : nat) :
  forall tick,
    attempts call tick (S k) = (attempts call tick k ++ [call (tick + k)%nat])%list.
Proof.
  induction k as [|k IH]; intros tick.
  - simpl. now rewrite Nat.add_0_r.
  - change (attempts call tick (S (S k)))
      with (call tick :: attempts call (S tick) (S k)).
    rewrite IH. simpl. now rewrite Nat.add_succ_r.
Qed.

(** ** More on the rows of the index sheet *)

Section MoreRows.
Variable IStyle : Type.
Variable getStyleHash : IStyle -> string.
Variable VISUALIZER_BASE_URI : string.
Variable MIME_TYPES_csv : string.
Variable RETRY_OPTIONS_retries : nat.
Variable api : Api.

Local Abbreviation rows := (LogFile.rows getStyleHash VISUALIZER_BASE_URI MIME_TYPES_csv).
Local Abbreviation styleLink := (LogFile.styleLink getStyleHash VISUALIZER_BASE_URI).
Local Abbreviation baseLink := (LogFile.visualizerBaseLink VISUALIZER_BASE_URI).
Local Abbreviation createRow := (LogFile.createRow MIME_TYPES_csv).
Local Abbreviation fileType := (LogFile.fileType MIME_TYPES_csv).
Local Abbreviation worker :=
  (LogFile.logFileExportInIndexSheetWorker getStyleHash VISUALIZER_BASE_URI
     MIME_TYPES_csv api).
Local Abbreviation logFileExportInIndexSheet :=
  (LogFile.logFileExportInIndexSheet getStyleHash VISUALIZER_BASE_URI
     MIME_TYPES_csv RETRY_OPTIONS_retries api).

(** The rows of a table with geometry, whatever its styles. *)
Lemma rows_with_geometry (o : LogFile.ILogFileOptions IStyle) (date : string) :
  LogFile.hasGeometryData o = true ->
  rows o date =
    match LogFile.styles o with
    | [] =>
        [createRow o date (Some (baseLink o ++ LogFile.largeSuffix o)) None]
    | [style] => [createRow o date (Some (styleLink o style)) None]
    | _ :: _ :: _ =>
        mapi (fun style index =>
                createRow o date (Some (styleLink o style)) (Some index))
             (LogFile.styles o)
    end.
Proof.
  intros G. unfold LogFile.rows. rewrite G.
  destruct (LogFile.styles o) as [|s1 [|s2 l]]; reflexivity.
Qed.

(** X1.  A table with geometry data and no style gets a single row, with the
    source, destination and type columns; its link is the base link of the
    file, followed by [&large=true] for a large table and by no style
    parameter, and its label has no number. *)
Theorem no_style_row_has_base_link
    (o : LogFile.ILogFileOptions IStyle) (date : string) :
  LogFile.hasGeometryData o = true ->
  LogFile.styles o = [] ->
  rows o date =
    [ {| values :=
           [stringValue (IFile.name (LogFile.driveFile o));
            stringValue (LogFile.tableLink o);
            stringValue (LogFile.fileLink o);
            stringValue (fileType o);
            formulaValue
              (LogFile.hyperlink
                 (VISUALIZER_BASE_URI ++ "#file=" ++ IFile.id (LogFile.driveFile o)
                  ++ (if LogFile.isLarge o then "&large=true" else EmptyString))
                 EmptyString);
            stringValue date] |} ].
Proof.
  intros G S. rewrite (rows_with_geometry o date G), S.
  rewrite createRow_linked. unfold LogFile.visualizerBaseLink, LogFile.largeSuffix.
  now rewrite !append_assoc.
Qed.

(** X2.  Whatever the table, the rows are as many as its styles when it has
    geometry data and styles, and one otherwise, never none.  Every row has
    six cells: the file name first, the export date last, and between them
    the source, destination and type, which are filled in the first row and
    blank in every other, and the visualization cell. *)
Theorem rows_count_and_layout
    (o : LogFile.ILogFileOptions IStyle) (date : string) :
  List.length (rows o date) =
    (if LogFile.hasGeometryData o
     then Nat.max 1 (List.length (LogFile.styles o))
     else 1%nat) /\
  rows o date <> [] /\
  (forall i row,
     nth_error (rows o date) i = Some row ->
     exists v,
       values row =
         [stringValue (IFile.name (LogFile.driveFile o));
          stringValue (if Nat.eqb i 0 then LogFile.tableLink o else EmptyString);
          stringValue (if Nat.eqb i 0 then LogFile.fileLink o else EmptyString);
          stringValue (if Nat.eqb i 0 then fileType o else EmptyString);
          v;
          stringValue date]).
Proof.
  destruct (LogFile.hasGeometryData o) eqn:G.
  - rewrite (rows_with_geometry o date G).
    destruct (LogFile.styles o) as [|s1 [|s2 l]] eqn:S.
    + repeat split; [discriminate | ].
      intros [|[|i]] row N; simpl in N; try discriminate.
      injection N as <-. eexists. reflexivity.
    + repeat split; [discriminate | ].
      unfold LogFile.styleLink. rewrite createRow_linked.
      intros [|[|i]] row N; simpl in N; try discriminate.
      injection N as <-. eexists. reflexivity.
    + split; [ | split].
      * unfold mapi. rewrite mapi_from_length. simpl. lia.
      * discriminate.
      * intros i row N. rewrite mapi_nth_error in N.
        destruct (nth_error (s1 :: s2 :: l) i) as [style|]; [ | discriminate].
        injection N as <-. unfold LogFile.styleLink. rewrite createRow_linked.
        eexists. destruct i; reflexivity.
  - unfold LogFile.rows. rewrite G. simpl negb. cbv iota.
    repeat split; [discriminate | ].
    intros [|[|i]] row N; simpl in N; try discriminate.
    injection N as <-. eexists. reflexivity.
Qed.

(** X3.  In a table with geometry data every row has a link in its
    visualization cell: the base link of the file, then the style parameter
    if any, then [&large=true] exactly when the table is large. *)
Theorem rows_with_geometry_link_the_file
    (o : LogFile.ILogFileOptions IStyle) (date : string) :
  LogFile.hasGeometryData o = true ->
  forall row,
    In row (rows o date) ->
    exists style label,
      visualizationCell row =
        Some (formulaValue
                (LogFile.hyperlink
                   (VISUALIZER_BASE_URI ++ "#file=" ++
                    IFile.id (LogFile.driveFile o) ++ style ++
                    (if LogFile.isLarge o then "&large=true" else EmptyString))
                   label)) /\
      (style = EmptyString <-> LogFile.styles o = []).
Proof.
  intros G row I. rewrite (rows_with_geometry o date G) in I.
  assert (Q : forall style index,
            visualizationCell (createRow o date (Some (styleLink o style)) index) =
            Some (formulaValue
                    (LogFile.hyperlink
                       (VISUALIZER_BASE_URI ++ "#file=" ++
                        IFile.id (LogFile.driveFile o) ++
                        ("&style=" ++ getStyleHash style) ++
                        (if LogFile.isLarge o then "&large=true" else EmptyString))
                       match index with
                       | Some i => numberToString (i + 1)
                       | None => EmptyString
                       end))).
  { intros style index. unfold LogFile.styleLink. rewrite createRow_linked.
    unfold visualizationCell. simpl.
    unfold LogFile.visualizerBaseLink, LogFile.largeSuffix.
    now rewrite !append_assoc. }
  destruct (LogFile.styles o) as [|s1 [|s2 l]] eqn:S.
  - destruct I as [<- | []]. exists EmptyString, EmptyString. split.
    + rewrite createRow_linked. unfold visualizationCell. simpl.
      unfold LogFile.visualizerBaseLink, LogFile.largeSuffix.
      now rewrite !append_assoc.
    + split; reflexivity.
  - destruct I as [<- | []]. eexists. eexists. split; [apply Q | ].
    split; discriminate.
  - apply In_nth_error in I as [i N]. rewrite mapi_nth_error in N.
    destruct (nth_error (s1 :: s2 :: l) i) as [style|]; [ | discriminate].
    injection N as <-. eexists. eexists. split; [apply Q | ].
    split; discriminate.
Qed.

End MoreRows.

(** ** The index-sheet log and its retries *)

Section AppendRetries.
Variable IStyle : Type.
Variable getStyleHash : IStyle -> string.
Variable VISUALIZER_BASE_URI : string.
Variable MIME_TYPES_csv : string.
Variable RETRY_OPTIONS_retries : nat.
Variable api : Api.

Local Abbreviation worker :=
  (LogFile.logFileExportInIndexSheetWorker getStyleHash VISUALIZER_BASE_URI
     MIME_TYPES_csv api).
Local Abbreviation logFileExportInIndexSheet :=
  (LogFile.logFileExportInIndexSheet getStyleHash VISUALIZER_BASE_URI
     MIME_TYPES_csv RETRY_OPTIONS_retries api).
Local Abbreviation appendCall :=
  (appendCall getStyleHash VISUALIZER_BASE_URI MIME_TYPES_csv api).

(** One attempt: one call, and the outcome read off its answer. *)
Lemma worker_attempt (o : LogFile.ILogFileOptions IStyle) (w : World) :
  worker o w =
  (match appendFailure (spreadsheets_batchUpdate_at api (List.length w)) with
   | None => Ok tt
   | Some e => Err e
   end,
   (w ++ [appendCall o (List.length w)])%list).
Proof.
  unfold LogFile.logFileExportInIndexSheetWorker, bind, external, appendFailure.
  destruct (spreadsheets_batchUpdate_at api (List.length w)) as [r|e];
    [ | reflexivity].
  now destruct (statusText r =? "OK")%string.
Qed.

Lemma worker_attempts (o : LogFile.ILogFileOptions IStyle) (w : World) (j : nat) :
  worker o (w ++ attempts (appendCall o) (List.length w) j)%list =
  (match appendFailure (spreadsheets_batchUpdate_at api (List.length w + j)) with
   | None => Ok tt
   | Some e => Err e
   end,
   (w ++ attempts (appendCall o) (List.length w) (S j))%list).
Proof.
  rewrite worker_attempt, length_app, attempts_length, attempts_snoc.
  now rewrite app_assoc.
Qed.

(** X4.  When appending the rows fails [k] times, by a rejection or by a
    status text other than OK, and then succeeds, and [k] retries are
    allowed, the index-sheet log resolves; the rows have then been sent
    [k + 1] times, each time dated anew. *)
Theorem index_log_retried_until_appended
    (o : LogFile.ILogFileOptions IStyle) (w : World) (k : nat) :
  (k <= RETRY_OPTIONS_retries)%nat ->
  (forall j, (j < k)%nat ->
     appendFailure (spreadsheets_batchUpdate_at api (List.length w + j)) <> None) ->
  appendFailure (spreadsheets_batchUpdate_at api (List.length w + k)) = None ->
  logFileExportInIndexSheet o w =
    (Ok tt, (w ++ attempts (appendCall o) (List.length w) (S k))%list).
Proof.
  intros Le F S. unfold LogFile.logFileExportInIndexSheet.
  pose (ws := fun j => (w ++ attempts (appendCall o) (List.length w) j)%list).
  replace w with (ws 0%nat) at 1 by (unfold ws; simpl; apply app_nil_r).
  apply (promiseRetry_recovers _ ws tt k); [exact Le | | ].
  - intros j J. unfold ws. rewrite worker_attempts.
    specialize (F j J).
    destruct (appendFailure _) as [e|]; [now exists e | now elim F].
  - unfold ws. rewrite worker_attempts. now rewrite S.
Qed.

(** X5.  When appending the rows fails at every attempt, the index-sheet log
    rejects with the failure of the last attempt: the rejection of the call
    as it is, or "Cannot log file export" with the status text.  The rows
    have then been sent once more than retries are allowed. *)
Theorem index_log_gives_up_with_last_failure
    (o : LogFile.ILogFileOptions IStyle) (w : World) (e : JsError) :
  (forall j, (j < RETRY_OPTIONS_retries)%nat ->
     appendFailure (spreadsheets_batchUpdate_at api (List.length w + j)) <> None) ->
  appendFailure
    (spreadsheets_batchUpdate_at api (List.length w + RETRY_OPTIONS_retries)) =
    Some e ->
  logFileExportInIndexSheet o w =
    (Err e,
     (w ++ attempts (appendCall o) (List.length w) (S RETRY_OPTIONS_retries))%list).
Proof.
  intros F L. unfold LogFile.logFileExportInIndexSheet.
  pose (ws := fun j => (w ++ attempts (appendCall o) (List.length w) j)%list).
  replace w with (ws 0%nat) at 1 by (unfold ws; simpl; apply app_nil_r).
  apply (promiseRetry_exhausts _ ws e).
  - intros j J. unfold ws. rewrite worker_attempts.
    specialize (F j J).
    destruct (appendFailure _) as [e'|]; [now exists e' | now elim F].
  - unfold ws. rewrite worker_attempts. now rewrite L.
Qed.

End AppendRetries.

(** ** More on the index-sheet resolver *)

Section Resolver.
Variable DRIVE_ARCHIVE_INDEX_SHEET : string.
Variable RETRY_OPTIONS_retries : nat.
Variable api : Api.

Local Abbreviation getFirstSheetWorker :=
  (IndexSheet.getFirstSheetWorker DRIVE_ARCHIVE_INDEX_SHEET api).
Local Abbreviation getFirstSheet :=
  (IndexSheet.getFirstSheet DRIVE_ARCHIVE_INDEX_SHEET RETRY_OPTIONS_retries api).
Local Abbreviation createSheetWorker :=
  (IndexSheet.createSheetWorker DRIVE_ARCHIVE_INDEX_SHEET RETRY_OPTIONS_retries api).
Local Abbreviation createSheet :=
  (IndexSheet.createSheet DRIVE_ARCHIVE_INDEX_SHEET RETRY_OPTIONS_retries api).
Local Abbreviation getArchiveIndexSheet :=
  (IndexSheet.getArchiveIndexSheet DRIVE_ARCHIVE_INDEX_SHEET
     RETRY_OPTIONS_retries api).
Local Abbreviation lookup id := (call_spreadsheets_get id).

(** An attempt of the lookup makes one call, whatever comes of it. *)
Lemma lookup_history (id : string) (w : World) :
  snd (getFirstSheetWorker id w) = (w ++ [lookup id])%list.
Proof.
  unfold IndexSheet.getFirstSheetWorker, try_catch, bind, external.
  destruct (spreadsheets_get_at api (List.length w)) as [r|e]; simpl.
  - destruct (data r) as [|first rest]; simpl.
    + reflexivity.
    + destruct (properties first) as [[[n|]]|]; simpl; try reflexivity.
      destruct (Z.eqb n 0); reflexivity.
  - destruct e as [[code|]| | ]; simpl; try reflexivity.
    destruct (Z.eqb code 404); reflexivity.
Qed.

(** An attempt resolves exactly when the answer holds a sheet id that counts
    as present, and then with that id. *)
Lemma lookup_outcome (id : string) (w : World) :
  match firstSheetId (spreadsheets_get_at api (List.length w)) with
  | Some n => fst (getFirstSheetWorker id w) = Ok n
  | None => exists e, fst (getFirstSheetWorker id w) = Err e
  end.
Proof.
  unfold IndexSheet.getFirstSheetWorker, try_catch, bind, external, firstSheetId.
  destruct (spreadsheets_get_at api (List.length w)) as [r|e]; simpl.
  - destruct (data r) as [|first rest]; simpl.
    + eexists. reflexivity.
    + destruct (properties first) as [[[n|]]|]; simpl;
        try (eexists; reflexivity).
      destruct (Z.eqb n 0); simpl; [eexists | ]; reflexivity.
  - destruct e as [[code|]| | ]; simpl; try (eexists; reflexivity).
    destruct (Z.eqb code 404); eexists; reflexivity.
Qed.

Lemma lookup_found (id : string) (w : World) (n : Z) :
  firstSheetId (spreadsheets_get_at api (List.length w)) = Some n ->
  getFirstSheetWorker id w = (Ok n, (w ++ [lookup id])%list).
Proof.
  intros F. pose proof (lookup_outcome id w) as O. rewrite F in O.
  pose proof (lookup_history id w) as H.
  destruct (getFirstSheetWorker id w) as [r w']. simpl in *. now subst.
Qed.

Lemma lookup_missed (id : string) (w : World) :
  firstSheetId (spreadsheets_get_at api (List.length w)) = None ->
  exists e, getFirstSheetWorker id w = (Err e, (w ++ [lookup id])%list).
Proof.
  intros F. pose proof (lookup_outcome id w) as O. rewrite F in O.
  destruct O as [e E]. exists e.
  pose proof (lookup_history id w) as H.
  destruct (getFirstSheetWorker id w) as [r w']. simpl in *. now subst.
Qed.

Lemma lookup_resolved (id : string) (w w' : World) (n : Z) :
  getFirstSheetWorker id w = (Ok n, w') ->
  n <> 0%Z /\ firstSheetId (spreadsheets_get_at api (List.length w)) = Some n /\
  w' = (w ++ [lookup id])%list.
Proof.
  intros R. pose proof (lookup_outcome id w) as O.
  pose proof (lookup_history id w) as H. rewrite R in O, H. simpl in O, H.
  destruct (firstSheetId _) as [m|] eqn:F.
  - injection O as <-. repeat split; [ | now symmetry].
    unfold firstSheetId in F.
    destruct (spreadsheets_get_at api (List.length w)) as [r|];
      [ | simpl in F; discriminate].
    destruct (data r) as [|first ?]; [simpl in F; discriminate | ].
    destruct (properties first) as [[[k|]]|]; simpl in F; try discriminate.
    destruct (Z.eqb k 0) eqn:K; [discriminate | ].
    injection F as <-. now apply Z.eqb_neq in K.
  - destruct O as [e E]. discriminate.
Qed.

Lemma repeat_snoc {T : Type} (x : T) (j : nat) :
  repeat x (S j) = (repeat x j ++ [x])%list.
Proof. simpl. apply repeat_cons. Qed.

Lemma length_lookups (id : string) (w : World) (j : nat) :
  List.length (w ++ repeat (lookup id) j) = (List.length w + j)%nat.
Proof. now rewrite length_app, repeat_length. Qed.

(** X6.  When the lookup of the first sheet fails [k] times, in whatever way,
    and then finds a sheet with an id other than 0, and [k] retries are
    allowed, the lookup resolves with that id after [k + 1] calls. *)
Theorem first_sheet_found_after_failures (id : string) (w : World) (k : nat) (n : Z) :
  (k <= RETRY_OPTIONS_retries)%nat ->
  (forall j, (j < k)%nat ->
     firstSheetId (spreadsheets_get_at api (List.length w + j)) = None) ->
  firstSheetId (spreadsheets_get_at api (List.length w + k)) = Some n ->
  getFirstSheet id w = (Ok n, (w ++ repeat (lookup id) (S k))%list).
Proof.
  intros Le F S. unfold IndexSheet.getFirstSheet.
  pose (ws := fun j => (w ++ repeat (lookup id) j)%list).
  replace w with (ws 0%nat) at 1 by (unfold ws; simpl; apply app_nil_r).
  apply (promiseRetry_recovers _ ws n k); [exact Le | | ].
  - intros j J. unfold ws.
    destruct (lookup_missed id (w ++ repeat (lookup id) j)%list) as [e E].
    + rewrite length_lookups. now apply F.
    + exists e. rewrite E, repeat_snoc. now rewrite app_assoc.
  - unfold ws. rewrite (lookup_found id _ n).
    + rewrite repeat_snoc. now rewrite app_assoc.
    + now rewrite length_lookups.
Qed.

(** A lookup that fails in the same way at every attempt is given up with
    that failure. *)
Lemma first_sheet_given_up (id : string) (w : World) (e : JsError) :
  (forall j, (j <= RETRY_OPTIONS_retries)%nat ->
     fst (getFirstSheetWorker id (w ++ repeat (lookup id) j)%list) = Err e) ->
  getFirstSheet id w =
    (Err e, (w ++ repeat (lookup id) (S RETRY_OPTIONS_retries))%list).
Proof.
  intros H. unfold IndexSheet.getFirstSheet.
  pose (ws := fun j => (w ++ repeat (lookup id) j)%list).
  assert (St : forall j, (j <= RETRY_OPTIONS_retries)%nat ->
                 getFirstSheetWorker id (ws j) = (Err e, ws (S j))).
  { intros j J. specialize (H j J).
    pose proof (lookup_history id (ws j)) as Hi. fold (ws j) in H.
    destruct (getFirstSheetWorker id (ws j)) as [r w']. simpl in *. subst.
    unfold ws. rewrite repeat_snoc. now rewrite app_assoc. }
  replace w with (ws 0%nat) at 1 by (unfold ws; simpl; apply app_nil_r).
  apply (promiseRetry_exhausts _ ws e).
  - intros j J. exists e. apply St. lia.
  - now apply St.
Qed.

(** X7.  How the lookup fails for good.  An HTTP error other than 404 comes
    out as it went in.  A rejection without an HTTP response, and a
    spreadsheet without sheets, come out as a [TypeError], because the
    [catch] block reads [error.response.data] of whatever it catches.  In
    each case every allowed attempt has been made. *)
Theorem first_sheet_failures (id : string) (w : World) :
  let final := (w ++ repeat (lookup id) (S RETRY_OPTIONS_retries))%list in
  (forall code,
     code <> 404%Z ->
     (forall j, (j <= RETRY_OPTIONS_retries)%nat ->
        spreadsheets_get_at api (List.length w + j) =
          Err (GaxiosError (Some code))) ->
     getFirstSheet id w = (Err (GaxiosError (Some code)), final)) /\
  ((forall j, (j <= RETRY_OPTIONS_retries)%nat ->
      spreadsheets_get_at api (List.length w + j) = Err (GaxiosError None)) ->
   getFirstSheet id w =
     (Err (TypeError "Cannot read property 'data' of undefined"), final)) /\
  (forall status,
     (forall j, (j <= RETRY_OPTIONS_retries)%nat ->
        spreadsheets_get_at api (List.length w + j) =
          Ok {| statusText := status; data := [] |}) ->
     getFirstSheet id w =
       (Err (TypeError "Cannot read property 'data' of undefined"), final)).
Proof.
  intros final. repeat split.
  - intros code N H. apply first_sheet_given_up. intros j J.
    unfold IndexSheet.getFirstSheetWorker, try_catch, bind, external.
    rewrite length_lookups, (H j J). simpl.
    apply Z.eqb_neq in N. now rewrite N.
  - intros H. apply first_sheet_given_up. intros j J.
    unfold IndexSheet.getFirstSheetWorker, try_catch, bind, external.
    now rewrite length_lookups, (H j J).
  - intros status H. apply first_sheet_given_up. intros j J.
    unfold IndexSheet.getFirstSheetWorker, try_catch, bind, external.
    now rewrite length_lookups, (H j J).
Qed.

(** The history of a lookup with its retries: between one call and one more
    than retries are allowed, all of them lookups. *)
Lemma first_sheet_history (id : string) (w : World) :
  exists k,
    (1 <= k <= S RETRY_OPTIONS_retries)%nat /\
    snd (getFirstSheet id w) = (w ++ repeat (lookup id) k)%list.
Proof.
  unfold IndexSheet.getFirstSheet. revert w.
  induction RETRY_OPTIONS_retries as [|n IH]; intros w; simpl.
  - exists 1%nat. split; [lia | ].
    pose proof (lookup_history id w) as H.
    destruct (getFirstSheetWorker id w) as [[x|e] w']; exact H.
  - pose proof (lookup_history id w) as H.
    destruct (getFirstSheetWorker id w) as [[x|e] w']; simpl in H; subst.
    + exists 1%nat. split; [lia | reflexivity].
    + destruct (IH (w ++ [lookup id])%list) as (k & K & E).
      exists (S k). split; [lia | ]. rewrite E, <- app_assoc. reflexivity.
Qed.

Lemma creations_app (w w' : World) :
  creations (w ++ w')%list = (creations w + creations w')%nat.
Proof. unfold creations. now rewrite filter_app, length_app. Qed.

Lemma creations_lookups (id : string) (k : nat) :
  creations (repeat (lookup id) k) = 0%nat.
Proof. induction k as [|k IH]; [reflexivity | exact IH]. Qed.

(** X8.  When the index sheet exists, the resolver only reads: after the
    search for the file it makes between one lookup and one more than retries
    are allowed, and nothing else; it creates no spreadsheet, whether it
    resolves or fails. *)
Theorem existing_index_sheet_is_only_read (folder id : string) (w : World) :
  findFile_at api (List.length w) = Ok (Some id) ->
  id <> EmptyString ->
  exists k,
    (1 <= k <= S RETRY_OPTIONS_retries)%nat /\
    snd (getArchiveIndexSheet folder w) =
      (w ++ call_findFile DRIVE_ARCHIVE_INDEX_SHEET folder
         :: repeat (lookup id) k)%list /\
    creations (snd (getArchiveIndexSheet folder w)) = creations w.
Proof.
  intros F N.
  rewrite (getArchiveIndexSheet_existing DRIVE_ARCHIVE_INDEX_SHEET api
             RETRY_OPTIONS_retries folder id w F N).
  destruct (first_sheet_history id
              (w ++ [call_findFile DRIVE_ARCHIVE_INDEX_SHEET folder])%list)
    as (k & K & E).
  exists k. split; [exact K | ].
  assert (S : snd (match getFirstSheet id
                           (w ++ [call_findFile DRIVE_ARCHIVE_INDEX_SHEET folder])%list
                   with
                   | (Ok n, w') => (Ok (ISheet.mk id n), w')
                   | (Err e, w') => (Err e, w')
                   end) =
              (w ++ call_findFile DRIVE_ARCHIVE_INDEX_SHEET folder
                 :: repeat (lookup id) k)%list).
  { destruct (getFirstSheet id _) as [[n|e] w']; simpl in *; subst;
      now rewrite <- app_assoc. }
  split; [exact S | ].
  rewrite S, creations_app.
  change (call_findFile DRIVE_ARCHIVE_INDEX_SHEET folder :: repeat (lookup id) k)
    with ([call_findFile DRIVE_ARCHIVE_INDEX_SHEET folder] ++ repeat (lookup id) k)%list.
  rewrite creations_app, creations_lookups. unfold creations. simpl. lia.
Qed.

End Resolver.

(** ** Creating the index sheet *)

Section Creation.
Variable DRIVE_ARCHIVE_INDEX_SHEET : string.
Variable RETRY_OPTIONS_retries : nat.
Variable api : Api.

Local Abbreviation getFirstSheetWorker :=
  (IndexSheet.getFirstSheetWorker DRIVE_ARCHIVE_INDEX_SHEET api).
Local Abbreviation getFirstSheet :=
  (IndexSheet.getFirstSheet DRIVE_ARCHIVE_INDEX_SHEET RETRY_OPTIONS_retries api).
Local Abbreviation createSheetWorker :=
  (IndexSheet.createSheetWorker DRIVE_ARCHIVE_INDEX_SHEET RETRY_OPTIONS_retries api).
Local Abbreviation createSheet :=
  (IndexSheet.createSheet DRIVE_ARCHIVE_INDEX_SHEET RETRY_OPTIONS_retries api).
Local Abbreviation getArchiveIndexSheet :=
  (IndexSheet.getArchiveIndexSheet DRIVE_ARCHIVE_INDEX_SHEET
     RETRY_OPTIONS_retries api).
Local Abbreviation lookup id := (call_spreadsheets_get id).
Local Abbreviation create folder :=
  (call_files_create DRIVE_ARCHIVE_INDEX_SHEET folder IndexSheet.headerRowContent).
Local Abbreviation format id n :=
  (call_spreadsheets_batchUpdate id
     [repeatCell n; updateDimensionProperties n; updateSheetProperties n]).

(** The resolver when no file is found: it creates the sheet. *)
Lemma getArchiveIndexSheet_absent (folder : string) (found : option string)
    (w : World) :
  findFile_at api (List.length w) = Ok found ->
  truthyString found = false ->
  getArchiveIndexSheet folder w =
    createSheet folder (w ++ [call_findFile DRIVE_ARCHIVE_INDEX_SHEET folder])%list.
Proof.
  intros F T.
  unfold IndexSheet.getArchiveIndexSheet, bind at 1. unfold external at 1.
  rewrite F. destruct found as [id|]; [ | reflexivity].
  now rewrite T.
Qed.

(** An attempt to create the sheet, step by step. *)
Lemma createSheetWorker_steps (folder : string) (w : World) :
  createSheetWorker folder w =
  let w1 := (w ++ [create folder])%list in
  match files_create_at api (List.length w) with
  | Err e => (Err e, w1)
  | Ok r =>
      if String.eqb (statusText r) "OK" then
        match getFirstSheet (data r) w1 with
        | (Err e, w2) => (Err e, w2)
        | (Ok n, w2) =>
            match spreadsheets_batchUpdate_at api (List.length w2) with
            | Err e => (Err e, (w2 ++ [format (data r) n])%list)
            | Ok _ => (Ok (ISheet.mk (data r) n), (w2 ++ [format (data r) n])%list)
            end
        end
      else (Err (Error ("Cannot create new Sheet: " ++ statusText r)), w1)
  end.
Proof.
  unfold IndexSheet.createSheetWorker, bind at 1. unfold external at 1.
  destruct (files_create_at api (List.length w)) as [r|e]; [ | reflexivity].
  cbv zeta. destruct (statusText r =? "OK")%string; [ | reflexivity].
  change (negb true) with false. cbv iota beta. unfold bind at 1.
  destruct (getFirstSheet (data r) (w ++ [create folder])%list) as [[n|e] w2];
    [ | reflexivity].
  unfold bind, external, ret.
  now destruct (spreadsheets_batchUpdate_at api (List.length w2)).
Qed.

(** An attempt makes one request to create the spreadsheet, whatever comes
    of it. *)
Lemma createSheetWorker_creates (folder : string) (w : World) :
  creations (snd (createSheetWorker folder w)) = (creations w + 1)%nat.
Proof.
  rewrite createSheetWorker_steps. cbv zeta.
  assert (C1 : creations (w ++ [create folder])%list = (creations w + 1)%nat).
  { rewrite creations_app. reflexivity. }
  destruct (files_create_at api (List.length w)) as [r|e]; [ | exact C1].
  destruct (statusText r =? "OK")%string; [ | exact C1].
  destruct (first_sheet_history DRIVE_ARCHIVE_INDEX_SHEET RETRY_OPTIONS_retries api
              (data r) (w ++ [create folder])%list) as (k & _ & H).
  destruct (getFirstSheet (data r) (w ++ [create folder])%list) as [[n|e] w2];
    simpl in H; subst w2.
  - assert (C2 : creations
                   ((w ++ [create folder]) ++ repeat (lookup (data r)) k ++
                    [format (data r) n])%list = (creations w + 1)%nat).
    { rewrite !creations_app, creations_lookups. unfold creations in *. simpl in *. lia. }
    rewrite <- app_assoc in C2.
    destruct (spreadsheets_batchUpdate_at api _); cbn [snd];
      rewrite <- ?app_assoc; rewrite <- ?app_assoc in C2; exact C2.
  - cbn [snd]. rewrite creations_app, creations_lookups, C1. lia.
Qed.

Lemma createdFrom_app (w w' : World) :
  forall tick,
    createdFrom api tick (w ++ w')%list =
    (createdFrom api tick w + createdFrom api (tick + List.length w) w')%nat.
Proof.
  induction w as [|c w IH]; intros tick; simpl.
  - now rewrite Nat.add_0_r.
  - rewrite IH. replace (S tick + List.length w)%nat
      with (tick + S (List.length w))%nat by lia. lia.
Qed.

Lemma createdFrom_no_request (w : World) :
  creations w = 0%nat -> forall tick, createdFrom api tick w = 0%nat.
Proof.
  induction w as [|c w IH]; intros H tick; [reflexivity | ].
  unfold creations in *. simpl in *.
  destruct c; simpl in *; try discriminate; now rewrite IH.
Qed.

(** The calls of an attempt to create the sheet: the request to create the
    spreadsheet, then calls that create nothing; an attempt that resolves
    has had its request answered. *)
Lemma createSheetWorker_history (folder : string) (w : World) :
  exists rest,
    snd (createSheetWorker folder w) = (w ++ create folder :: rest)%list /\
    creations rest = 0%nat /\
    (forall sheet,
       fst (createSheetWorker folder w) = Ok sheet ->
       exists r, files_create_at api (List.length w) = Ok r).
Proof.
  rewrite createSheetWorker_steps. cbv zeta.
  destruct (files_create_at api (List.length w)) as [r|e].
  2: { exists []. split; [reflexivity | split; [reflexivity | discriminate]]. }
  destruct (statusText r =? "OK")%string.
  2: { exists []. split; [reflexivity | split; [reflexivity | discriminate]]. }
  destruct (first_sheet_history DRIVE_ARCHIVE_INDEX_SHEET RETRY_OPTIONS_retries api
              (data r) (w ++ [create folder])%list) as (k & _ & H).
  destruct (getFirstSheet (data r) (w ++ [create folder])%list) as [[n|e] w2];
    simpl in H; subst w2.
  - exists (repeat (lookup (data r)) k ++ [format (data r) n])%list.
    assert (C : creations (repeat (lookup (data r)) k ++ [format (data r) n])%list
                = 0%nat).
    { rewrite creations_app, creations_lookups. reflexivity. }
    destruct (spreadsheets_batchUpdate_at api _); cbn [fst snd];
      (split; [now rewrite <- !app_assoc | split; [exact C | ]]);
      intros sheet _; now exists r.
  - exists (repeat (lookup (data r)) k). cbn [fst snd].
    split; [now rewrite <- app_assoc | split; [apply creations_lookups | ]].
    discriminate.
Qed.

(** What an attempt adds to the spreadsheets created: one if its request is
    answered, none if it is rejected. *)
Lemma createSheetWorker_created (folder : string) (w : World) :
  created api (snd (createSheetWorker folder w)) =
  (created api w +
   match files_create_at api (List.length w) with
   | Ok _ => 1
   | Err _ => 0
   end)%nat.
Proof.
  destruct (createSheetWorker_history folder w) as (rest & -> & C & _).
  unfold created. rewrite createdFrom_app. simpl.
  rewrite (createdFrom_no_request rest C).
  destruct (files_create_at api (List.length w)); lia.
Qed.

(** The requests and the spreadsheets of the attempts to create the sheet. *)
Lemma createSheet_tally (folder : string) (retries : nat) :
  forall w,
    let outcome := promiseRetry retries (createSheetWorker folder) w in
    exists made,
      (1 <= made <= S retries)%nat /\
      creations (snd outcome) = (creations w + made)%nat /\
      (forall e, fst outcome = Err e -> made = S retries) /\
      (created api w <= created api (snd outcome) <= created api w + made)%nat /\
      ((forall tick, exists r, files_create_at api tick = Ok r) ->
       created api (snd outcome) = (created api w + made)%nat) /\
      ((forall tick, exists e, files_create_at api tick = Err e) ->
       created api (snd outcome) = created api w) /\
      (forall sheet,
         fst outcome = Ok sheet ->
         (created api w + 1 <= created api (snd outcome))%nat).
Proof.
  induction retries as [|n IH]; intros w; cbv zeta; simpl promiseRetry;
    pose proof (createSheetWorker_creates folder w) as Rq;
    pose proof (createSheetWorker_created folder w) as Cr;
    destruct (createSheetWorker_history folder w) as (_ & _ & _ & Ans);
    destruct (createSheetWorker folder w) as [[x|e] w1] eqn:W;
    cbn [fst snd] in *.
  - exists 1%nat. destruct (Ans x eq_refl) as [r A]. rewrite A in Cr.
    repeat split; try lia; try discriminate.
    intros R. destruct (R (List.length w)) as [e E]. congruence.
  - exists 1%nat. repeat split; try lia; try discriminate;
      destruct (files_create_at api (List.length w)) eqn:A; try lia.
    + intros R. destruct (R (List.length w)) as [r E]. congruence.
    + intros R. destruct (R (List.length w)) as [e' E]. congruence.
  - exists 1%nat. destruct (Ans x eq_refl) as [r A]. rewrite A in Cr.
    repeat split; try lia; try discriminate.
    intros R. destruct (R (List.length w)) as [e E]. congruence.
  - destruct (IH w1) as (made & B & C & E & D & All & Non & Res).
    cbv zeta in *.
    exists (S made). repeat split; try lia.
    + intros e' R. now rewrite (E e' R).
    + destruct (files_create_at api (List.length w)); lia.
    + intros R. rewrite (All R). destruct (R (List.length w)) as [r A].
      rewrite A in Cr. lia.
    + intros R. rewrite (Non R). destruct (R (List.length w)) as [e' A].
      rewrite A in Cr. lia.
    + intros sheet R. specialize (Res sheet R).
      destruct (files_create_at api (List.length w)); lia.
Qed.

(** X9.  When no index sheet is found, the resolver sets out to create one.
    Every attempt makes one request to create the spreadsheet: at least one
    request is made and at most one more than retries are allowed, and
    exactly that many when the resolver fails.  A request that is answered
    has created a spreadsheet, and an attempt that fails afterwards leaves it
    behind: the spreadsheets created are at most the requests made, all of
    them when every request is answered, none when every request is
    rejected, and at least one when the resolver returns a sheet. *)
Theorem failed_creations_leave_spreadsheets
    (folder : string) (found : option string) (w : World) :
  findFile_at api (List.length w) = Ok found ->
  truthyString found = false ->
  let outcome := getArchiveIndexSheet folder w in
  exists made,
    (1 <= made <= S RETRY_OPTIONS_retries)%nat /\
    creations (snd outcome) = (creations w + made)%nat /\
    (forall e, fst outcome = Err e -> made = S RETRY_OPTIONS_retries) /\
    (created api w <= created api (snd outcome) <= created api w + made)%nat /\
    ((forall tick, exists r, files_create_at api tick = Ok r) ->
     created api (snd outcome) = (created api w + made)%nat) /\
    ((forall tick, exists e, files_create_at api tick = Err e) ->
     created api (snd outcome) = created api w) /\
    (forall sheet,
       fst outcome = Ok sheet ->
       (created api w + 1 <= created api (snd outcome))%nat).
Proof.
  intros F T. cbv zeta. rewrite (getArchiveIndexSheet_absent folder found w F T).
  unfold IndexSheet.createSheet.
  set (w0 := (w ++ [call_findFile DRIVE_ARCHIVE_INDEX_SHEET folder])%list).
  destruct (createSheet_tally folder RETRY_OPTIONS_retries w0)
    as (made & B & C & E & D & All & Non & Res).
  cbv zeta in *.
  assert (Rq : creations w0 = creations w).
  { unfold w0. rewrite creations_app. unfold creations at 2. simpl. lia. }
  assert (Cr : created api w0 = created api w).
  { unfold w0, created. rewrite createdFrom_app. simpl. lia. }
  rewrite Rq, Cr in *.
  exists made. repeat split; try assumption; try lia.
Qed.

(** X10.  The sheet is created in four calls: the search that finds nothing
    (or an empty id), the creation of the spreadsheet from the header row, the
    lookup of its first sheet, and the formatting of that sheet.  The resolver
    returns the id of the created spreadsheet and the id of the sheet looked
    up; the status text of the formatting is not looked at. *)
Theorem index_sheet_created_in_four_calls
    (folder newId : string) (found : option string) (n : Z)
    (formatted : Response unit) (w : World) :
  findFile_at api (List.length w) = Ok found ->
  truthyString found = false ->
  files_create_at api (1 + List.length w) =
    Ok {| statusText := "OK"; data := newId |} ->
  firstSheetId (spreadsheets_get_at api (2 + List.length w)) = Some n ->
  spreadsheets_batchUpdate_at api (3 + List.length w) = Ok formatted ->
  getArchiveIndexSheet folder w =
    (Ok (ISheet.mk newId n),
     (w ++ [call_findFile DRIVE_ARCHIVE_INDEX_SHEET folder;
            call_files_create DRIVE_ARCHIVE_INDEX_SHEET folder
              "Exported file name,Source Fusiontable,Exported Spreadsheet/CSV,Type,Visualization,Exported at";
            call_spreadsheets_get newId;
            call_spreadsheets_batchUpdate newId
              [repeatCell n; updateDimensionProperties n;
               updateSheetProperties n]])%list).
Proof.
  intros F T C L B. rewrite (getArchiveIndexSheet_absent folder found w F T).
  set (w0 := (w ++ [call_findFile DRIVE_ARCHIVE_INDEX_SHEET folder])%list).
  assert (L0 : List.length w0 = (1 + List.length w)%nat).
  { unfold w0. rewrite length_app. simpl. lia. }
  assert (W : createSheetWorker folder w0 =
              (Ok (ISheet.mk newId n),
               (w0 ++ [create folder; lookup newId; format newId n])%list)).
  { rewrite createSheetWorker_steps. cbv zeta. rewrite L0, C. simpl statusText.
    simpl data. cbv iota.
    assert (G : getFirstSheet newId (w0 ++ [create folder])%list =
                (Ok n, ((w0 ++ [create folder]) ++ [lookup newId])%list)).
    { assert (Fd : getFirstSheetWorker newId (w0 ++ [create folder])%list =
                   (Ok n, ((w0 ++ [create folder]) ++ [lookup newId])%list)).
      { apply (lookup_found DRIVE_ARCHIVE_INDEX_SHEET api).
        rewrite length_app, L0. simpl List.length.
        now replace (1 + List.length w + 1)%nat with (2 + List.length w)%nat by lia. }
      unfold IndexSheet.getFirstSheet.
      destruct RETRY_OPTIONS_retries; simpl; now rewrite Fd. }
    rewrite G. rewrite !length_app, L0. simpl List.length.
    replace (1 + List.length w + 1 + 1)%nat with (3 + List.length w)%nat by lia.
    rewrite B. now rewrite <- !app_assoc. }
  unfold IndexSheet.createSheet.
  assert (R : forall retries,
            promiseRetry retries (createSheetWorker folder) w0 =
            (Ok (ISheet.mk newId n),
             (w0 ++ [create folder; lookup newId; format newId n])%list)).
  { intros [|r]; simpl; now rewrite W. }
  rewrite R. unfold w0. now rewrite <- app_assoc.
Qed.

(** What the wrapper around the lookup resolves with. *)
Lemma first_sheet_resolved (id : string) (w w' : World) (n : Z) :
  getFirstSheet id w = (Ok n, w') ->
  n <> 0%Z /\ In (lookup id) w'.
Proof.
  unfold IndexSheet.getFirstSheet.
  apply (promiseRetry_resolved (getFirstSheetWorker id)
           (fun n w' => n <> 0%Z /\ In (lookup id) w')).
  intros w0 a w0' R.
  apply (lookup_resolved DRIVE_ARCHIVE_INDEX_SHEET api) in R as (N & _ & ->).
  split; [exact N | ]. apply in_or_app. right. now left.
Qed.

(** X11.  A sheet that the resolver returns, found or created, has an id
    other than 0, and the first sheet of its spreadsheet has been looked up:
    the resolver never returns the sheet with id 0. *)
Theorem resolved_sheet_is_never_zero (folder : string) (w w' : World)
    (sheet : ISheet.t) :
  getArchiveIndexSheet folder w = (Ok sheet, w') ->
  ISheet.sheetId sheet <> 0%Z /\
  In (call_spreadsheets_get (ISheet.spreadsheetId sheet)) w'.
Proof.
  assert (Cr : forall w0 s w1,
            createSheet folder w0 = (Ok s, w1) ->
            ISheet.sheetId s <> 0%Z /\
            In (call_spreadsheets_get (ISheet.spreadsheetId s)) w1).
  { unfold IndexSheet.createSheet.
    apply (promiseRetry_resolved (createSheetWorker folder)
             (fun s w1 => ISheet.sheetId s <> 0%Z /\
                          In (call_spreadsheets_get (ISheet.spreadsheetId s)) w1)).
    intros w0 s w1 R. rewrite createSheetWorker_steps in R. cbv zeta in R.
    destruct (files_create_at api (List.length w0)) as [r|e]; [ | discriminate].
    destruct (statusText r =? "OK")%string; [ | discriminate].
    destruct (getFirstSheet (data r) (w0 ++ [create folder])%list)
      as [[n|e] w2] eqn:G; [ | discriminate].
    apply first_sheet_resolved in G as [N I].
    destruct (spreadsheets_batchUpdate_at api (List.length w2)); [ | discriminate].
    injection R as <- <-. simpl. split; [exact N | ].
    apply in_or_app. now left. }
  unfold IndexSheet.getArchiveIndexSheet, bind at 1. unfold external at 1.
  destruct (findFile_at api (List.length w)) as [[id|]|e]; try discriminate.
  - destruct (negb (truthyString (Some id))); [apply Cr | ].
    unfold bind, ret.
    destruct (IndexSheet.getFirstSheet _ _ _ _ _) as [[n|e] w2] eqn:G;
      [ | discriminate].
    intros R. injection R as <- <-. simpl. now apply first_sheet_resolved in G.
  - apply Cr.
Qed.

(** The lookups of a wrapper none of whose lookups finds a usable sheet. *)
Lemma first_sheet_never_found (id : string) (w : World) :
  (forall tick, firstSheetId (spreadsheets_get_at api tick) = None) ->
  (exists e, fst (getFirstSheet id w) = Err e) /\
  lookups (snd (getFirstSheet id w)) = (lookups w + S RETRY_OPTIONS_retries)%nat.
Proof.
  intros H. unfold IndexSheet.getFirstSheet.
  assert (R : exists e,
            fst (promiseRetry RETRY_OPTIONS_retries (getFirstSheetWorker id) w) = Err e).
  { apply promiseRetry_rejects. intros w0.
    destruct (lookup_missed DRIVE_ARCHIVE_INDEX_SHEET api id w0 (H _)) as [e E].
    exists e. now rewrite E. }
  split; [exact R | ].
  destruct (promiseRetry_counts (getFirstSheetWorker id) lookups 1) with
    (retries := RETRY_OPTIONS_retries) (w := w) as (made & _ & C & E).
  { intros w0. rewrite (lookup_history DRIVE_ARCHIVE_INDEX_SHEET api id w0).
    rewrite lookups_app. reflexivity. }
  destruct R as [e R]. rewrite (E e R) in C. rewrite C. lia.
Qed.

(** X12.  The retries of the creation and of the lookup multiply.  When no
    index sheet is found, every creation succeeds and no lookup ever finds a
    usable first sheet, the resolver fails after creating one spreadsheet
    more than retries are allowed and looking each of them up as many times:
    the square of that number of lookups. *)
Theorem creation_and_lookup_retries_multiply
    (folder : string) (found : option string) (w : World) :
  findFile_at api (List.length w) = Ok found ->
  truthyString found = false ->
  (forall tick, exists r,
     files_create_at api tick = Ok r /\ statusText r = "OK") ->
  (forall tick, firstSheetId (spreadsheets_get_at api tick) = None) ->
  (exists e, fst (getArchiveIndexSheet folder w) = Err e) /\
  creations (snd (getArchiveIndexSheet folder w)) =
    (creations w + S RETRY_OPTIONS_retries)%nat /\
  lookups (snd (getArchiveIndexSheet folder w)) =
    (lookups w + S RETRY_OPTIONS_retries * S RETRY_OPTIONS_retries)%nat.
Proof.
  intros F T C L. rewrite (getArchiveIndexSheet_absent folder found w F T).
  set (w0 := (w ++ [call_findFile DRIVE_ARCHIVE_INDEX_SHEET folder])%list).
  assert (W : forall w1,
            (exists e, fst (createSheetWorker folder w1) = Err e) /\
            lookups (snd (createSheetWorker folder w1)) =
              (lookups w1 + S RETRY_OPTIONS_retries)%nat).
  { intros w1. rewrite createSheetWorker_steps. cbv zeta.
    destruct (C (List.length w1)) as (r & -> & S). rewrite S.
    change ("OK" =? "OK")%string with true. cbv iota.
    destruct (first_sheet_never_found (data r) (w1 ++ [create folder])%list L)
      as [[e E] N].
    destruct (getFirstSheet (data r) (w1 ++ [create folder])%list) as [[n|e'] w2];
      simpl in E; [discriminate | ].
    split; [now exists e' | ].
    cbn [snd] in *. rewrite N, lookups_app. unfold lookups at 2. simpl. lia. }
  assert (R : exists e, fst (createSheet folder w0) = Err e).
  { unfold IndexSheet.createSheet. apply promiseRetry_rejects.
    intros w1. apply W. }
  destruct R as [e R]. split; [now exists e | ].
  unfold IndexSheet.createSheet in *. split.
  - destruct (promiseRetry_counts (createSheetWorker folder) creations 1
                (createSheetWorker_creates folder) RETRY_OPTIONS_retries w0)
      as (made & _ & N & E).
    rewrite (E e R) in N. rewrite N. unfold w0. rewrite creations_app.
    unfold creations at 2. simpl. lia.
  - destruct (promiseRetry_counts (createSheetWorker folder) lookups
                (S RETRY_OPTIONS_retries) (fun w1 => proj2 (W w1))
                RETRY_OPTIONS_retries w0)
      as (made & _ & N & E).
    rewrite (E e R) in N. rewrite N. unfold w0. rewrite lookups_app.
    unfold lookups at 2. simpl. lia.
Qed.

End Creation.

(** ** The journal of a run *)

Section Journals.
Context {IStyle : Type}.
Variable DRIVE_ARCHIVE_INDEX_SHEET : string.
Variable RETRY_OPTIONS_retries : nat.
Variable api : Api.
Import DoExport.

Local Abbreviation System := (DoExport.System IStyle).
Local Abbreviation Worker := (DoExport.Worker IStyle).
Local Abbreviation started := (DoExport.started (IStyle := IStyle)).
Local Abbreviation dispatch := (DoExport.dispatch (IStyle := IStyle)).
Local Abbreviation doExport := (DoExport.doExport (IStyle := IStyle)).
Local Abbreviation recruits := (DoExport.recruits (IStyle := IStyle)).

Lemma middle_unique {A : Type} (P : A -> Prop) (d1 d2 r1 r2 : list A) (x1 x2 : A) :
  (d1 ++ x1 :: r1 = d2 ++ x2 :: r2)%list ->
  Forall P d1 -> Forall P d2 -> ~ P x1 -> ~ P x2 ->
  d1 = d2 /\ x1 = x2 /\ r1 = r2.
Proof.
  revert d2. induction d1 as [|a d1 IH]; intros [|b d2] E F1 F2 N1 N2; simpl in E.
  - injection E as -> ->. auto.
  - injection E as -> _. inversion F2; subst. contradiction.
  - injection E as <- _. inversion F1; subst. contradiction.
  - injection E as -> E. inversion F1; inversion F2; subst.
    destruct (IH d2 E) as (-> & -> & ->); auto.
Qed.

(** The export after the running worker has returned. *)
Lemma finish_explicit (s : System) (done rest : list Worker) (wk wk' : Worker)
    (status : Status) :
  Running s done wk rest ->
  pool (finish (List.length done) wk' status s) =
    (done ++ atPhase Settled wk' ::
     match rest with
     | [] => []
     | wq :: rest' => atPhase AwaitCsv wq :: rest'
     end)%list /\
  exportLog (finish (List.length done) wk' status s) =
    (exportLog s ++ finishEvents wk' status ++
     match rest with
     | [] => []
     | wq :: _ => [logTableStart (exportId (options wq)) (tableId (options wq))]
     end)%list /\
  progressUpdates (finish (List.length done) wk' status s) = progressUpdates s /\
  reported (finish (List.length done) wk' status s) = reported s.
Proof.
  intros (Ep & D & L & Q & A & Qu & Cnt).
  unfold finish.
  remember (withWorker (List.length done) (atPhase Settled wk')
              (logging (finishEvents wk' status) s)) as s1 eqn:E1.
  assert (P1 : pool s1 = (done ++ atPhase Settled wk' :: rest)%list).
  { subst s1. simpl. rewrite Ep. apply setNth_middle. }
  assert (L1 : exportLog s1 = (exportLog s ++ finishEvents wk' status)%list)
    by now subst s1.
  assert (U1 : progressUpdates s1 = progressUpdates s) by now subst s1.
  assert (R1 : reported s1 = reported s) by now subst s1.
  assert (Q1 : queue s1 = queue s) by now subst s1.
  clear E1. unfold next. rewrite Q1, Qu.
  destruct rest as [|wq rest'].
  - simpl. rewrite P1, L1, U1, R1, app_nil_r. auto.
  - simpl seq. cbv iota.
    assert (Rn : forall a q,
              run (S (List.length done)) (withLimiter a q s1) =
              logging [logTableStart (exportId (options wq)) (tableId (options wq))]
                (withWorker (S (List.length done)) (atPhase AwaitCsv wq)
                   (withLimiter (S a) q s1))).
    { intros a q. unfold run. simpl pool. rewrite P1.
      rewrite snoc_middle, <- (length_snoc done (atPhase Settled wk')).
      now rewrite nth_error_middle. }
    rewrite Rn.
    cbn [pool exportLog progressUpdates reported logging withWorker withLimiter].
    rewrite P1, L1, U1, R1.
    rewrite snoc_middle, <- (length_snoc done (atPhase Settled wk')).
    rewrite setNth_middle, <- !app_assoc. auto.
Qed.

Section Step.
Variable header : LogEvent.
Variable s : System.
Variable hist : list (Worker * Outcome).
Variables (wk : Worker) (rest : list Worker).
Variables (ups : list (ProgressUpdate IStyle)) (errs : list JsError).
Hypothesis Ep : pool s = (map fst hist ++ wk :: rest)%list.
Hypothesis Hs :
  Forall (fun h => phase (fst h) = Settled /\
                   (snd h = tableExported -> hasFile (fst h) = true)) hist.
Hypothesis Lg :
  exportLog s =
    (header :: flat_map (fun h => logged (fst h) (snd h)) hist ++
     [logTableStart (exportId (options wk)) (tableId (options wk))])%list.
Hypothesis Pu :
  progressUpdates s = (flat_map (fun h => recorded (fst h) (snd h)) hist ++ ups)%list.
Hypothesis Re : reported s = (flat_map (fun h => raised (snd h)) hist ++ errs)%list.
Hypothesis Fr : Forall (fun w : Worker => hasFile w = false) rest.

(** The call under way moves on. *)
Lemma Journal_advance (wk' : Worker) (s1 : System)
    (du : list (ProgressUpdate IStyle)) (de : list JsError) :
  pool s1 = pool s ->
  exportLog s1 = exportLog s ->
  progressUpdates s1 = (progressUpdates s ++ du)%list ->
  reported s1 = (reported s ++ de)%list ->
  options wk' = options wk ->
  underWay wk' (ups ++ du) (errs ++ de) ->
  Journal header (withWorker (List.length (map fst hist)) wk' s1).
Proof.
  intros P1 L1 U1 R1 O UW.
  exists hist, (wk' :: rest), (ups ++ du)%list, (errs ++ de)%list.
  simpl pool. simpl exportLog. simpl progressUpdates. simpl reported.
  rewrite P1, Ep, setNth_middle, L1, Lg, U1, Pu, R1, Re, O, <- !app_assoc.
  repeat split; assumption.
Qed.

(** The call under way returns. *)
Lemma Journal_finish (wk' : Worker) (oc : Outcome) :
  Running s (map fst hist) wk rest ->
  options wk' = options wk ->
  ups = recorded wk' oc ->
  errs = raised oc ->
  (oc = tableExported -> hasFile wk' = true) ->
  Journal header (finish (List.length (map fst hist)) wk' (outcomeStatus oc) s).
Proof.
  intros R O U E F.
  destruct (finish_explicit s (map fst hist) rest wk wk' (outcomeStatus oc) R)
    as (P' & L' & U' & R').
  exists (hist ++ [(atPhase Settled wk', oc)])%list,
         (match rest with
          | [] => []
          | wq :: rest' => atPhase AwaitCsv wq :: rest'
          end),
         [], [].
  rewrite P', L', U', R', Lg, Pu, Re, U, E.
  rewrite !flat_map_app, map_app, !app_nil_r. simpl.
  rewrite !app_nil_r, <- !app_assoc. simpl. unfold logged. rewrite <- O. simpl.
  split; [reflexivity | split; [ | split; [ | split; [reflexivity | split]]]].
  - apply Forall_app. split; [exact Hs | ]. constructor; [ | constructor].
    split; [reflexivity | exact F].
  - destruct rest; reflexivity.
  - reflexivity.
  - destruct rest as [|wq rest']; [now split | ].
    inversion Fr; subst. split; [ | assumption].
    unfold underWay. simpl. auto.
Qed.

End Step.

Lemma underWay_busy (wk : Worker) (ups : list (ProgressUpdate IStyle))
    (errs : list JsError) :
  underWay wk ups errs -> phase wk <> Settled.
Proof.
  unfold underWay. destruct (phase wk); intros H E; try discriminate E.
  contradiction.
Qed.

(** The worker that can resume is the one the journal has under way. *)
Lemma Journal_current (header : LogEvent) (s : System) (i : nat) (wk : Worker) :
  Serial s -> Journal header s ->
  nth_error (pool s) i = Some wk -> live (phase wk) = true ->
  exists hist rest ups errs,
    i = List.length (map fst hist) /\
    Running s (map fst hist) wk rest /\
    pool s = (map fst hist ++ wk :: rest)%list /\
    Forall (fun h => phase (fst h) = Settled /\
                     (snd h = tableExported -> hasFile (fst h) = true)) hist /\
    exportLog s =
      (header :: flat_map (fun h => logged (fst h) (snd h)) hist ++
       [logTableStart (exportId (options wk)) (tableId (options wk))])%list /\
    progressUpdates s =
      (flat_map (fun h => recorded (fst h) (snd h)) hist ++ ups)%list /\
    reported s = (flat_map (fun h => raised (snd h)) hist ++ errs)%list /\
    Forall (fun w : Worker => hasFile w = false) rest /\
    underWay wk ups errs.
Proof.
  intros (Num & Fol & Shape) J N L.
  destruct Shape as [(done & w0 & rest & R) | (F & _)].
  2: { apply nth_error_In in N. rewrite Forall_forall in F.
       rewrite (F wk N) in L. discriminate. }
  destruct (Running_at s done rest w0 wk i R N L) as [-> ->].
  destruct J as (hist & current & ups & errs & Ep & Hs & Lg & Pu & Re & Cur).
  pose proof R as (Ep' & D & _ & Q & _).
  assert (Sd : Forall (fun w : Worker => phase w = Settled) (map fst hist)).
  { apply Forall_map. eapply Forall_impl; [ | exact Hs]. now intros h [S _]. }
  destruct current as [|c rest0].
  - exfalso. rewrite app_nil_r in Ep.
    assert (I : In w0 (map fst hist)).
    { rewrite <- Ep, Ep'. apply in_elt. }
    rewrite Forall_forall in Sd. rewrite (Sd w0 I) in L. discriminate.
  - destruct Cur as [UW Fr].
    pose proof Ep as Ep2. rewrite Ep' in Ep2.
    apply (middle_unique (fun w : Worker => phase w = Settled)) in Ep2
      as (E1 & E2 & E3);
      [ | exact D | exact Sd | now apply live_not_idle
        | now apply (underWay_busy c ups errs) ].
    subst done c rest0.
    exists hist, rest, ups, errs.
    split; [reflexivity | split; [exact R | ]].
    repeat split; assumption.
Qed.

Ltac stay Adv s :=
  apply (Adv _ s [] []);
  [ reflexivity | reflexivity | symmetry; apply app_nil_r
  | symmetry; apply app_nil_r | reflexivity | unfold underWay; simpl; auto ].

Ltac caught Adv wk e F :=
  apply (Adv _ _ [progressOf wk error (Some e)] [e]);
  [ reflexivity .. | ];
  unfold underWay; simpl; exists e; unfold recorded;
  change (hasFile (atPhase AwaitErrorProgress wk)) with (hasFile wk);
  rewrite F; auto.

Ltac entered Adv file sty wk :=
  apply (Adv _ _ [progressOf (uploaded file sty wk) success None] []);
  [ reflexivity | reflexivity | reflexivity | symmetry; apply app_nil_r
  | reflexivity | unfold underWay; simpl; auto ].

(** Every step keeps the journal. *)
Lemma Journal_step (header : LogEvent) (s s' : System) :
  Serial s -> Journal header s -> step s s' -> Journal header s'.
Proof.
  intros I J (i & ev & H).
  pose proof H as H0. apply resume_cases in H0 as (wk & N & L & _).
  destruct (Journal_current header s i wk I J N L)
    as (hist & rest & ups & errs & -> & R & Ep & Hs & Lg & Pu & Re & Fr & UW).
  pose proof (Journal_advance header s hist wk rest ups errs Ep Hs Lg Pu Re Fr)
    as Adv.
  pose proof (fun wk' oc =>
                Journal_finish header s hist wk rest ups errs Ep Hs Lg Pu Re Fr
                  wk' oc R) as Fin.
  unfold resume in H. rewrite N in H. unfold underWay in UW.
  destruct (phase wk) as [ | |f sty|l p g| | ] eqn:Ph; try discriminate.
  - (* awaiting the fetch *)
    destruct UW as (F & -> & ->).
    destruct ev as [[csv|e]|r|r|r|r| ]; try discriminate; injection H as <-;
      [stay Adv s | caught Adv wk e F].
  - (* awaiting the upload and the styles *)
    destruct UW as (F & -> & ->).
    destruct f, sty, ev as [r|[file|e]|[y|e]|r|r| ]; try discriminate;
      injection H as <-;
      try solve [stay Adv s]; try solve [caught Adv wk e F];
      try solve [match goal with
                 | |- Journal _ (finalize _ (uploaded ?f ?y ?w) _) =>
                     entered Adv f y w
                 end].
  - (* awaiting the row, the permissions and the progress update *)
    destruct UW as (F & -> & ->).
    destruct l, p, g, ev as [r|r|r|[u|e]|[u|e]| ]; try discriminate;
      injection H as <-; unfold finalized; cbn [andb];
      try solve [stay Adv s]; try solve [caught Adv wk e F];
      try solve [apply (Fin wk tableExported); [reflexivity .. | intros _; exact F]].
  - (* awaiting the progress update of the catch block *)
    destruct UW as (e & -> & ->).
    destruct ev; try discriminate. injection H as <-.
    apply (Fin wk (tableFailed e)); try reflexivity. discriminate.
Qed.

(** The export as [doExport] leaves it, part by part. *)
Lemma dispatch_explicit (o : IDoExportOptions) (folder : string) (sheet : ISheet.t) :
  let s0 := dispatch 1 o folder sheet (started o) in
  pool s0 =
    match recruits o folder sheet with
    | [] => []
    | w0 :: ws => atPhase AwaitCsv w0 :: ws
    end /\
  exportLog s0 =
    logExportStart (do_exportId o) (List.length (do_tables o))
    :: match recruits o folder sheet with
       | [] => []
       | w0 :: _ => [logTableStart (exportId (options w0)) (tableId (options w0))]
       end /\
  progressUpdates s0 = [] /\ reported s0 = [] /\
  queue s0 = seq 1 (List.length (recruits o folder sheet) - 1).
Proof.
  cbv zeta. unfold DoExport.dispatch.
  destruct (recruits o folder sheet) as [|w0 ws] eqn:E.
  - simpl. auto.
  - match goal with
    | |- context [fold_left _ _ ?t] => set (init := t)
    end.
    assert (D : fold_left (fun acc i => enqueue 1 i acc)
                  (seq 0 (List.length (w0 :: ws))) init =
                withLimiter 1 (seq 1 (List.length ws)) (run 0 init)).
    { cbn [List.length seq fold_left].
      change (enqueue 1 0 init) with (run 0 init).
      now rewrite fold_enqueue_waiting by reflexivity. }
    rewrite D. simpl. rewrite Nat.sub_0_r. auto.
Qed.

Lemma recruits_fresh (o : IDoExportOptions) (folder : string) (sheet : ISheet.t) :
  Forall (fun w : Worker => hasFile w = false) (recruits o folder sheet).
Proof. unfold DoExport.recruits, mapi. now apply mapi_from_Forall. Qed.

Lemma dispatch_Journal (o : IDoExportOptions) (folder : string) (sheet : ISheet.t) :
  Journal (logExportStart (do_exportId o) (List.length (do_tables o)))
    (dispatch 1 o folder sheet (started o)).
Proof.
  destruct (dispatch_explicit o folder sheet) as (P & L & U & R & _).
  pose proof (recruits_fresh o folder sheet) as Fr.
  destruct (recruits o folder sheet) as [|w0 ws].
  - exists [], [], [], []. rewrite P, L, U, R. simpl. repeat split; auto.
  - exists [], (atPhase AwaitCsv w0 :: ws), [], [].
    rewrite P, L, U, R. simpl.
    inversion Fr; subst. repeat split; auto.
Qed.

(** The journal is kept at every point of every run. *)
Lemma doExport_Journal (o : IDoExportOptions) (w w' : World) (folder : string)
    (s0 s : System) :
  doExport DRIVE_ARCHIVE_INDEX_SHEET RETRY_OPTIONS_retries api o w =
    (Ok folder, w', s0) ->
  steps s0 s ->
  Serial s /\
  Journal (logExportStart (do_exportId o) (List.length (do_tables o))) s /\
  exists sheet,
    map options (pool s) = mapi (saveTableOptions o folder sheet) (do_tables o).
Proof.
  intros H St. apply doExport_dispatched in H as (sheet & ->).
  destruct (dispatch_Serial (IStyle := IStyle) o folder sheet) as [I Ro].
  pose proof (dispatch_Journal o folder sheet) as J.
  remember (dispatch 1 o folder sheet (started o)) as s0 eqn:E0. clear E0.
  induction St as [s | s s' s'' St IH Step].
  - split; [exact I | split; [exact J | now exists sheet]].
  - destruct (IH I Ro J) as (I' & J' & sh & Ro').
    destruct (Serial_step s' s'' I' Step) as (I'' & _ & E).
    split; [exact I'' | split].
    + now apply (Journal_step _ s' s'').
    + exists sh. now rewrite E.
Qed.

Lemma combine_fst_snd {A B : Type} (l : list (A * B)) :
  combine (map fst l) (map snd l) = l.
Proof.
  induction l as [|[a b] l IH]; simpl; [reflexivity | now rewrite IH].
Qed.

Lemma errorsRecorded_recorded (wk : Worker) (oc : Outcome) :
  errorsRecorded (recorded wk oc) = map messageOf (raised oc).
Proof.
  destruct oc as [|e]; [reflexivity | ].
  unfold recorded. now destruct (hasFile wk).
Qed.

Lemma errorsRecorded_app (a b : list (ProgressUpdate IStyle)) :
  errorsRecorded (a ++ b) = (errorsRecorded a ++ errorsRecorded b)%list.
Proof. unfold errorsRecorded. apply flat_map_app. Qed.

Lemma errorsRecorded_hist (hist : list (Worker * Outcome)) :
  errorsRecorded (flat_map (fun h => recorded (fst h) (snd h)) hist) =
  map messageOf (flat_map (fun h => raised (snd h)) hist).
Proof.
  induction hist as [|h hist IH]; [reflexivity | ].
  simpl. now rewrite errorsRecorded_app, errorsRecorded_recorded, IH, map_app.
Qed.

(** X13.  When nothing is awaited any more, the export has left a sequential
    journal.  Each table, in input order, has ended in the [try] block or in
    the [catch] block of its call.  The export log holds the start of the
    export and then, table by table, the start and the finish of the table
    with the status of that end, the last table followed by the finish of the
    export.  The progress updates hold, table by table, the success update if
    the table was exported; the error update if it failed before its file was
    assigned; the success update followed by the error update if it failed
    after.  The errors reported are those of the failed tables, in order. *)
Theorem finished_export_leaves_sequential_journal
    (o : IDoExportOptions) (w w' : World) (folder : string) (s0 s : System) :
  doExport DRIVE_ARCHIVE_INDEX_SHEET RETRY_OPTIONS_retries api o w =
    (Ok folder, w', s0) ->
  steps s0 s ->
  quiescent s ->
  exists (sheet : ISheet.t) (outcomes : list Outcome),
    map options (pool s) = mapi (saveTableOptions o folder sheet) (do_tables o) /\
    List.length outcomes = List.length (do_tables o) /\
    exportLog s =
      logExportStart (do_exportId o) (List.length (do_tables o))
      :: flat_map (fun c => logged (fst c) (snd c)) (combine (pool s) outcomes) /\
    progressUpdates s =
      flat_map (fun c => recorded (fst c) (snd c)) (combine (pool s) outcomes) /\
    reported s = flat_map raised outcomes /\
    (forall wk, In (wk, tableExported) (combine (pool s) outcomes) ->
                hasFile wk = true).
Proof.
  intros H St Qt.
  destruct (doExport_Journal o w w' folder s0 s H St) as (I & J & sheet & Ro).
  pose proof (Serial_quiescent s I Qt) as (F & _).
  destruct J as (hist & current & ups & errs & Ep & Hs & Lg & Pu & Re & Cur).
  destruct current as [|c rest].
  2: { exfalso. destruct Cur as [UW _]. apply underWay_busy in UW. apply UW.
       rewrite Forall_forall in F. apply F. rewrite Ep. apply in_elt. }
  destruct Cur as [-> ->]. rewrite !app_nil_r in *.
  exists sheet, (map snd hist).
  rewrite Ep, combine_fst_snd. repeat split.
  - now rewrite <- Ep.
  - rewrite length_map, <- (length_map fst), <- Ep, <- (length_map options), Ro.
    apply mapi_from_length.
  - exact Lg.
  - exact Pu.
  - now rewrite flat_map_concat_map, map_map, <- flat_map_concat_map.
  - intros wk In. rewrite Forall_forall in Hs. now apply (Hs _ In).
Qed.

(** X14.  At every point of every run, the progress updates with status
    [error] carry the messages of the errors that have been passed to
    [errors.report], one update for each error and in the same order: the
    [catch] block reports the error it caught and records its message (which
    may be empty; the message is not looked into).  A progress update with
    status [success] carries no error and names the Drive file. *)
Theorem reports_match_error_records
    (o : IDoExportOptions) (w w' : World) (folder : string) (s0 s : System) :
  doExport DRIVE_ARCHIVE_INDEX_SHEET RETRY_OPTIONS_retries api o w =
    (Ok folder, w', s0) ->
  steps s0 s ->
  map messageOf (reported s) = errorsRecorded (progressUpdates s) /\
  List.length (reported s) =
    List.length
      (filter (fun u => match p_status u with error => true | success => false end)
         (progressUpdates s)) /\
  Forall
    (fun u =>
       match p_status u with
       | success => p_error u = None /\ p_driveFile u <> None
       | error => exists e, p_error u = Some (messageOf e)
       end)
    (progressUpdates s).
Proof.
  intros H St.
  destruct (doExport_Journal o w w' folder s0 s H St) as (_ & J & _).
  destruct J as (hist & current & ups & errs & _ & Hs & _ & Pu & Re & Cur).
  set (Q := fun u : ProgressUpdate IStyle =>
              match p_status u with
              | success => p_error u = None /\ p_driveFile u <> None
              | error => exists e, p_error u = Some (messageOf e)
              end).
  assert (Qs : forall wk, hasFile wk = true -> Q (progressOf wk success None)).
  { intros wk F. unfold Q. simpl. split; [reflexivity | ].
    unfold hasFile in F. now destruct (driveFile (locals wk)). }
  assert (Qe : forall wk e, Q (progressOf wk error (Some e))).
  { intros wk e. unfold Q. simpl. now exists e. }
  assert (Qr : forall wk oc,
            (oc = tableExported -> hasFile wk = true) ->
            Forall Q (recorded wk oc)).
  { intros wk [|e] F; unfold recorded.
    - constructor; [now apply Qs, F | constructor].
    - destruct (hasFile wk) eqn:Fl; simpl.
      + constructor; [now apply Qs | constructor; [apply Qe | constructor]].
      + constructor; [apply Qe | constructor]. }
  assert (U : errorsRecorded ups = map messageOf errs /\ Forall Q ups).
  { destruct current as [|c rest].
    - destruct Cur as [-> ->]. now split.
    - destruct Cur as [UW _]. unfold underWay in UW.
      destruct (phase c); try contradiction.
      + destruct UW as (_ & -> & ->). now split.
      + destruct UW as (_ & -> & ->). now split.
      + destruct UW as (F & -> & ->). split; [reflexivity | ].
        constructor; [now apply Qs | constructor].
      + destruct UW as (e & -> & ->). split.
        * apply errorsRecorded_recorded.
        * apply Qr. discriminate. }
  destruct U as [U1 U2].
  assert (All : Forall Q (progressUpdates s)).
  { rewrite Pu. apply Forall_app. split; [ | exact U2].
    clear - Hs Qr. induction Hs as [|h hist [_ F] _ IH]; simpl; [constructor | ].
    apply Forall_app. split; [now apply Qr | exact IH]. }
  assert (Eq : map messageOf (reported s) = errorsRecorded (progressUpdates s)).
  { rewrite Pu, Re.
    now rewrite errorsRecorded_app, errorsRecorded_hist, U1, map_app. }
  split; [exact Eq | split; [ | exact All]].
  rewrite <- (length_map messageOf), Eq.
  clear - All. induction All as [|u ups Hu _ IH]; [reflexivity | ].
  unfold errorsRecorded in *. simpl. rewrite length_app, IH.
  unfold Q in Hu. destruct (p_status u).
  - reflexivity.
  - destruct Hu as [e E]. rewrite E. reflexivity.
Qed.

(** X15.  A table can be recorded as a success and then as an error.  The
    success update is made when the second group of calls is entered; when,
    after that, the row of the index sheet or the permissions fail, the
    [catch] block reports the error and makes the error update for the same
    table, with the same file, styles and size: at that point the progress
    updates end with the success update followed by the error update. *)
Theorem late_failure_follows_success_record
    (o : IDoExportOptions) (w w' : World) (folder : string) (s0 s : System)
    (i : nat) (wk : Worker) (l p g : bool) (e : JsError) :
  doExport DRIVE_ARCHIVE_INDEX_SHEET RETRY_OPTIONS_retries api o w =
    (Ok folder, w', s0) ->
  steps s0 s ->
  nth_error (pool s) i = Some wk ->
  phase wk = AwaitFinalize l p g ->
  l && p = false ->
  let s' := catchBlock i wk e s in
  (l = false -> resume i (logFileExportInIndexSheet_settled (Err e)) s = Some s') /\
  (p = false -> resume i (addFilePermissions_settled (Err e)) s = Some s') /\
  (exists front,
     progressUpdates s = (front ++ [progressOf wk success None])%list /\
     progressUpdates s' =
       (front ++ [progressOf wk success None; progressOf wk error (Some e)])%list) /\
  reported s' = (reported s ++ [e])%list /\
  p_driveFile (progressOf wk error (Some e)) <> None /\
  exportLog s' = exportLog s.
Proof.
  intros H St N Ph LP s'.
  destruct (doExport_Journal o w w' folder s0 s H St) as (I & J & _).
  assert (L : live (phase wk) = true).
  { rewrite Ph. destruct l, p, g; try reflexivity; discriminate. }
  destruct (Journal_current _ s i wk I J N L)
    as (hist & rest & ups & errs & _ & _ & _ & _ & _ & Pu & _ & _ & UW).
  unfold underWay in UW. rewrite Ph in UW. destruct UW as (F & -> & ->).
  split; [ | split; [ | split; [ | split; [ | split]]]].
  - intros ->. unfold resume. rewrite N, Ph. now destruct p, g.
  - intros ->. unfold resume. rewrite N, Ph. now destruct l, g.
  - exists (flat_map (fun h => recorded (fst h) (snd h)) hist).
    split; [exact Pu | ]. unfold s'. simpl. rewrite Pu.
    now rewrite <- app_assoc.
  - reflexivity.
  - simpl. unfold hasFile in F. now destruct (driveFile (locals wk)).
  - reflexivity.
Qed.

Lemma mapi_from_const {A B : Type} (b : B) (l : list A) :
  forall k, mapi_from (fun _ _ => b) k l = map (fun _ => b) l.
Proof.
  induction l as [|x l IH]; intros k; simpl; [reflexivity | now rewrite IH].
Qed.

(** The [try] block of [doExport], call by call. *)
Lemma prepare_resolved (w wi : World) (a folder : string) (sheet : ISheet.t)
    (inserted : unit) :
  getArchiveFolder_at api (List.length w) = Ok a ->
  getDriveUploadFolder_at api (1 + List.length w) = Ok folder ->
  IndexSheet.getArchiveIndexSheet DRIVE_ARCHIVE_INDEX_SHEET RETRY_OPTIONS_retries
    api a (w ++ [call_getArchiveFolder; call_getDriveUploadFolder a])%list =
    (Ok sheet, wi) ->
  insertExportRowInIndexSheet_at api (List.length wi) = Ok inserted ->
  prepare DRIVE_ARCHIVE_INDEX_SHEET RETRY_OPTIONS_retries api w =
    (Ok (folder, sheet),
     (wi ++ [call_insertExportRowInIndexSheet sheet folder])%list).
Proof.
  intros A U X R.
  unfold prepare, bind at 1. unfold external at 1. rewrite A.
  unfold bind at 1. unfold Promise_all2. unfold external at 1.
  rewrite length_app. simpl List.length.
  replace (List.length w + 1)%nat with (1 + List.length w)%nat by lia.
  rewrite U, <- app_assoc. simpl app. rewrite X.
  unfold bind, external, ret. simpl. now rewrite R.
Qed.

(** X16.  When the archive folder, the upload folder, the index sheet and the
    row of the export are had, [doExport] resolves with the id of the upload
    folder, the row being inserted last, with the sheet and the folder found.
    It returns before any table is exported: a call of [saveTable] exists for
    every table, with the table's index plus one as its id, with that folder
    and sheet, and marked last for the last index only; the first of them has
    been started and awaits its fetch, the others wait in the limiter's queue
    in input order; the export log holds the start of the export and of the
    first table, and no progress update has been made. *)
Theorem prepared_export_starts_first_table
    (o : IDoExportOptions) (w wi : World) (a folder : string) (sheet : ISheet.t)
    (inserted : unit) :
  getArchiveFolder_at api (List.length w) = Ok a ->
  getDriveUploadFolder_at api (1 + List.length w) = Ok folder ->
  IndexSheet.getArchiveIndexSheet DRIVE_ARCHIVE_INDEX_SHEET RETRY_OPTIONS_retries
    api a (w ++ [call_getArchiveFolder; call_getDriveUploadFolder a])%list =
    (Ok sheet, wi) ->
  insertExportRowInIndexSheet_at api (List.length wi) = Ok inserted ->
  exists s0 : System,
    doExport DRIVE_ARCHIVE_INDEX_SHEET RETRY_OPTIONS_retries api o w =
      (Ok folder, (wi ++ [call_insertExportRowInIndexSheet sheet folder])%list, s0) /\
    map options (pool s0) = mapi (saveTableOptions o folder sheet) (do_tables o) /\
    (forall i x,
       nth_error (map options (pool s0)) i = Some x ->
       tableId x = (i + 1)%nat /\ folderId x = folder /\ archiveSheet x = sheet /\
       exportId x = do_exportId o /\
       isLast x = Nat.eqb (i + 1) (List.length (do_tables o))) /\
    map (fun wk => phase wk) (pool s0) =
      match do_tables o with
      | [] => []
      | _ :: others => AwaitCsv :: map (fun _ => Queued) others
      end /\
    queue s0 = seq 1 (List.length (do_tables o) - 1) /\
    exportLog s0 =
      logExportStart (do_exportId o) (List.length (do_tables o))
      :: match do_tables o with
         | [] => []
         | _ :: _ => [logTableStart (do_exportId o) 1]
         end /\
    progressUpdates s0 = [] /\
    reported s0 = [].
Proof.
  intros A U X R.
  exists (dispatch 1 o folder sheet (started o)).
  unfold DoExport.doExport.
  rewrite (prepare_resolved w wi a folder sheet inserted A U X R).
  destruct (dispatch_Serial (IStyle := IStyle) o folder sheet) as [(Num & _) Ro].
  destruct (dispatch_explicit o folder sheet) as (P & L & Up & Rp & Qu).
  rewrite recruits_length in Qu.
  split; [reflexivity | split; [exact Ro | split; [ | split]]].
  - intros i x N. pose proof (Num i x N) as [T Last].
    rewrite length_map in Last.
    assert (Len : List.length (pool (dispatch 1 o folder sheet (started o))) =
                  List.length (do_tables o)).
    { rewrite <- (length_map options), Ro. apply mapi_from_length. }
    rewrite Len in Last.
    rewrite Ro, mapi_nth_error in N.
    destruct (nth_error (do_tables o) i) as [t|]; [ | discriminate].
    injection N as <-. simpl. repeat split. exact Last.
  - rewrite P. unfold DoExport.recruits, mapi.
    destruct (do_tables o) as [|t ts]; [reflexivity | ].
    simpl. f_equal. rewrite mapi_from_map. simpl. apply mapi_from_const.
  - split; [exact Qu | split; [ | split; [exact Up | exact Rp]]].
    rewrite L. unfold DoExport.recruits, mapi.
    now destruct (do_tables o).
Qed.

End Journals.

(** ** Calls in flight *)

Section Flights.
Context {IStyle : Type}.
Variable DRIVE_ARCHIVE_INDEX_SHEET : string.
Variable RETRY_OPTIONS_retries : nat.
Variable api : Api.
Import DoExport.

Local Abbreviation System := (DoExport.System IStyle).
Local Abbreviation Worker := (DoExport.Worker IStyle).
Local Abbreviation Flight := (Flight IStyle).
Local Abbreviation doExport := (DoExport.doExport (IStyle := IStyle)).

Lemma nth_error_setNth_same {A : Type} (l : list A) (i : nat) (x y : A) :
  nth_error l i = Some x -> nth_error (setNth i y l) i = Some y.
Proof.
  revert i. induction l as [|a l IH]; intros [|i] H; simpl in *;
    try discriminate; [reflexivity | now apply IH].
Qed.

Lemma nth_error_setNth_other {A : Type} (l : list A) (i j : nat) (y : A) :
  i <> j -> nth_error (setNth i y l) j = nth_error l j.
Proof.
  revert i j. induction l as [|a l IH]; intros [|i] [|j] H; simpl;
    try reflexivity; [now elim H | apply IH; congruence].
Qed.

Lemma Call_eqb_eq (a b : Call) : Call_eqb a b = true -> a = b.
Proof. destruct a, b; simpl; intros H; try reflexivity; discriminate. Qed.

(** A worker that resumes on a rejection enters its [catch] block. *)
Lemma resume_rejected (i : nat) (ev : Settlement IStyle) (s s' : System) :
  isRejection ev = true ->
  resume i ev s = Some s' ->
  exists wk e, nth_error (pool s) i = Some wk /\ s' = catchBlock i wk e s.
Proof.
  intros R H. unfold resume in H.
  destruct (nth_error (pool s) i) as [wk|]; [ | discriminate].
  exists wk.
  destruct (phase wk) as [ | |[file|] [sty|]|[|] [|] [|]| | ];
    destruct ev as [[x|e]|[x|e]|[x|e]|[x|e]|[x|e]| ];
    simpl in R; try discriminate R; try discriminate H;
    injection H as <-; exists e; split; reflexivity.
Qed.

(** The fetch is awaited alone: no resumption abandons it. *)
Lemma abandoned_no_fetch (i j : nat) (ev : Settlement IStyle) (s s' : System) :
  resume i ev s = Some s' -> ~ In (j, getCsv_call) (abandoned i ev s).
Proof.
  unfold resume, abandoned.
  destruct (nth_error (pool s) i) as [wk|]; [ | discriminate].
  destruct (isRejection ev) eqn:R; [ | intros _ []].
  intros H I. apply in_map_iff in I as (c & E & I). injection E as _ ->.
  apply filter_In in I as [I N].
  destruct (phase wk) as [ | |[file|] [sty|]|[|] [|] [|]| | ];
    destruct ev as [[x|e]|[x|e]|[x|e]|[x|e]|[x|e]| ];
    simpl in *; try discriminate; intuition discriminate.
Qed.

Lemma reported_run (j : nat) (s : System) : reported (run j s) = reported s.
Proof. unfold run. now destruct (nth_error (pool s) j). Qed.

Lemma reported_finish (i : nat) (wk : Worker) (status : Status) (s : System) :
  reported (finish i wk status s) = reported s.
Proof.
  unfold finish, next. simpl queue.
  destruct (queue s); [reflexivity | now rewrite reported_run].
Qed.

(** What has been reported stays reported. *)
Lemma resume_reported (i : nat) (ev : Settlement IStyle) (s s' : System) :
  resume i ev s = Some s' ->
  exists more, reported s' = (reported s ++ more)%list.
Proof.
  intros H. destruct (isRejection ev) eqn:R.
  - destruct (resume_rejected i ev s s' R H) as (wk & e & _ & ->).
    now exists [e].
  - exists []. rewrite app_nil_r.
    unfold resume in H. destruct (nth_error (pool s) i) as [wk|]; [ | discriminate].
    destruct (phase wk) as [ | |[file|] [sty|]|[|] [|] [|]| | ];
      destruct ev as [[x|e]|[x|e]|[x|e]|[x|e]|[x|e]| ];
      simpl in R; try discriminate R; try discriminate H;
      injection H as <-; unfold finalized; cbn [andb];
      try reflexivity; apply reported_finish.
Qed.

(** A worker that has entered its [catch] block or has returned stays so. *)
Lemma resume_failed_stays (i j : nat) (ev : Settlement IStyle) (s s' : System)
    (wj : Worker) :
  Serial s ->
  resume i ev s = Some s' ->
  nth_error (pool s) j = Some wj ->
  phase wj = AwaitErrorProgress \/ phase wj = Settled ->
  exists wj',
    nth_error (pool s') j = Some wj' /\
    (phase wj' = AwaitErrorProgress \/ phase wj' = Settled).
Proof.
  intros (Num & Fol & Shape) H Nj Pj.
  pose proof H as H0. apply resume_cases in H0 as (wk & N & L & Cases).
  destruct Shape as [(done & w0 & rest & R) | (F & _)].
  2: { apply nth_error_In in N. rewrite Forall_forall in F.
       rewrite (F wk N) in L. discriminate. }
  destruct (Running_at s done rest w0 wk i R N L) as [-> ->].
  pose proof R as (Ep & D & _ & Q & _).
  destruct (Nat.eq_dec j (List.length done)) as [->|Ne].
  - (* the worker under way: it is in its [catch] block and returns *)
    rewrite N in Nj. injection Nj as <-.
    destruct Pj as [Pj|Pj]; [ | rewrite Pj in L; discriminate].
    unfold resume in H. rewrite N, Pj in H.
    destruct ev; try discriminate. injection H as <-.
    destruct (finish_explicit s done rest w0 w0 error R) as (P' & _).
    exists (atPhase Settled w0). split; [ | now right].
    rewrite P'. apply nth_error_middle.
  - (* another worker: it has returned, and nothing touches it *)
    assert (Lt : (j < List.length done)%nat).
    { destruct (lt_eq_lt_dec j (List.length done)) as [[Lt|Eq]|Gt];
        [exact Lt | contradiction | ].
      exfalso. rewrite Ep in Nj. rewrite nth_error_app2 in Nj by lia.
      destruct (j - List.length done)%nat as [|k] eqn:K; [lia | ].
      simpl in Nj. apply nth_error_In in Nj. rewrite Forall_forall in Q.
      rewrite (Q wj Nj) in Pj. destruct Pj; discriminate. }
    exists wj. split; [ | exact Pj].
    assert (Dj : nth_error done j = Some wj).
    { rewrite Ep in Nj. now rewrite nth_error_app1 in Nj. }
    destruct Cases as [(wk' & s1 & -> & (U & _) & _) | (wk' & status & -> & _)].
    + simpl. rewrite U, nth_error_setNth_other by congruence.
      rewrite Ep. now rewrite nth_error_app1.
    + destruct (finish_explicit s done rest w0 wk' status R) as (P' & _).
      rewrite P'. now rewrite nth_error_app1.
Qed.

(** Every step keeps abandoned calls to workers that have failed. *)
Lemma Grounded_fly (f f' : Flight) :
  Serial (system f) -> Grounded f -> fly f f' ->
  Serial (system f') /\ Grounded f'.
Proof.
  intros I [G Z] Step.
  destruct Step as [i ev s s' o H | s o1 c o2]; simpl in *.
  - split; [now apply (Serial_step s s' I); exists i, ev | ].
    split.
    + intros j c In. simpl in In |- *. apply in_app_or in In as [In|In].
      * destruct (G j c In) as (Nf & wj & Nj & Pj).
        split; [exact Nf | ].
        now apply (resume_failed_stays i j ev s s' wj).
      * split.
        { intros ->. now apply (abandoned_no_fetch i j ev s s' H). }
        unfold abandoned in In.
        destruct (nth_error (pool s) i) as [wk|] eqn:N; [ | destruct In].
        destruct (isRejection ev) eqn:R; [ | destruct In].
        apply in_map_iff in In as (c' & E & _). injection E as -> ->.
        destruct (resume_rejected j ev s s' R H) as (wk' & e & N' & ->).
        exists (atPhase AwaitErrorProgress wk'). split; [ | now left].
        simpl. now apply (nth_error_setNth_same _ _ wk').
    + intros E. simpl in E |- *.
      destruct (resume_reported i ev s s' H) as [more M].
      rewrite M in E. apply app_eq_nil in E as [E1 E2].
      rewrite (Z E1). simpl. unfold abandoned.
      destruct (nth_error (pool s) i) as [wk|]; [ | reflexivity].
      destruct (isRejection ev) eqn:R; [ | reflexivity].
      destruct (resume_rejected i ev s s' R H) as (wk' & e & _ & ->).
      simpl in M. rewrite E1 in M. simpl in M. subst more. discriminate.
  - split; [exact I | split].
    + intros j d In. simpl in In |- *. apply (G j d).
      apply in_app_or in In as [In|In]; apply in_or_app; [now left | right].
      now right.
    + intros E. simpl in E |- *. specialize (Z E). now destruct o1.
Qed.

(** The export of a flight is reached by the steps of its workers. *)
Lemma flies_steps (f f' : Flight) :
  flies f f' -> steps (system f) (system f').
Proof.
  intros H. induction H as [f | f f' f'' _ IH Step]; [apply steps_refl | ].
  destruct Step as [i ev s s' o H | s o1 c o2]; simpl in *; [ | exact IH].
  eapply steps_step; [exact IH | now exists i, ev].
Qed.

(** Every run of the workers is the export of a flight. *)
Lemma steps_flies (s0 s : System) :
  steps s0 s -> exists o, flies (takeoff s0) {| system := s; orphans := o |}.
Proof.
  intros H. induction H as [s | s s' s'' _ [o IH] (i & ev & R)].
  - exists []. apply flies_refl.
  - exists (o ++ abandoned i ev s')%list.
    eapply flies_step; [exact IH | now apply fly_resume].
Qed.

Lemma Grounded_flies (f f' : Flight) :
  Serial (system f) -> Grounded f -> flies f f' ->
  Serial (system f') /\ Grounded f'.
Proof.
  intros I G H. induction H as [f | f f' f'' _ IH Step]; [now split | ].
  destruct (IH I G) as [I' G']. now apply (Grounded_fly f' f'').
Qed.

Lemma doExport_Grounded (o : IDoExportOptions) (w w' : World) (folder : string)
    (s0 : System) (f : Flight) :
  doExport DRIVE_ARCHIVE_INDEX_SHEET RETRY_OPTIONS_retries api o w =
    (Ok folder, w', s0) ->
  flies (takeoff s0) f ->
  Serial (system f) /\ Grounded f.
Proof.
  intros H Fl.
  destruct (doExport_Serial DRIVE_ARCHIVE_INDEX_SHEET RETRY_OPTIONS_retries api
              o w w' folder s0 s0 H (steps_refl s0)) as [I _].
  apply (Grounded_flies (takeoff s0) f); [exact I | | exact Fl].
  split; [intros i c [] | reflexivity].
Qed.

(** The awaited calls, worker by worker. *)
Lemma awaitedCalls_In (s : System) (i : nat) (c : Call) :
  In (i, c) (awaitedCalls s) <->
  exists wk, nth_error (pool s) i = Some wk /\ In c (awaited (phase wk)).
Proof.
  unfold awaitedCalls, mapi.
  assert (G : forall (l : list Worker) k,
            In (i, c)
              (concat (mapi_from (fun wk i => map (pair i) (awaited (phase wk))) k l))
            <->
            exists wk, (k <= i)%nat /\ nth_error l (i - k) = Some wk /\
                       In c (awaited (phase wk))).
  { induction l as [|a l IH]; intros k; simpl.
    - split; [intros [] | intros (wk & _ & N & _)].
      now destruct (i - k)%nat.
    - rewrite in_app_iff, IH. split.
      + intros [In|(wk & K & N & In)].
        * apply in_map_iff in In as (c' & E & In). injection E as -> ->.
          exists a. rewrite Nat.sub_diag. auto.
        * exists wk. split; [lia | split; [ | exact In]].
          destruct (i - k)%nat as [|m] eqn:M; [lia | ].
          simpl. now replace m with (i - S k)%nat by lia.
      + intros (wk & K & N & In).
        destruct (i - k)%nat as [|m] eqn:M.
        * left. injection N as <-. assert (i = k) as -> by lia.
          now apply in_map.
        * right. exists wk. split; [lia | split; [ | exact In]].
          simpl in N. now replace (i - S k)%nat with m by lia. }
  rewrite G. rewrite Nat.sub_0_r. split.
  - intros (wk & _ & N & In). now exists wk.
  - intros (wk & N & In). exists wk. split; [lia | now split].
Qed.

Lemma awaited_inProgress (p : Phase IStyle) (c : Call) :
  In c (awaited p) -> inProgress p = true.
Proof. destruct p; simpl; intros H; try reflexivity; destruct H. Qed.

(** C2 (as amended).  The limiter of degree 1 holds its one slot for a whole
    call of [saveTable], not for the fetch alone: a worker is started only
    when every worker before it in input order has returned.  So at most one
    worker is under way at any time, every call that is awaited is awaited by
    that worker, and the fetches of two tables are never in flight together.
    Calls of two tables are in flight together only when one of them has been
    abandoned: it was left running by a [Promise.all] of an earlier table that
    rejected, its worker has entered its [catch] block, and nobody awaits it.
    As long as no error has been reported, all calls in flight are those of
    one table. *)
Theorem limiter_serializes_whole_workers
    (o : IDoExportOptions) (w w' : World) (folder : string) (s0 : System)
    (f : Flight) :
  doExport DRIVE_ARCHIVE_INDEX_SHEET RETRY_OPTIONS_retries api o w =
    (Ok folder, w', s0) ->
  flies (takeoff s0) f ->
  let s := system f in
  steps s0 s /\
  (activeCount s <= 1)%nat /\
  (forall i j wi wj,
     (i < j)%nat ->
     nth_error (pool s) i = Some wi ->
     nth_error (pool s) j = Some wj ->
     isQueued (phase wj) = false ->
     isSettled (phase wi) = true) /\
  (forall i j wi wj,
     nth_error (pool s) i = Some wi ->
     nth_error (pool s) j = Some wj ->
     inProgress (phase wi) = true ->
     inProgress (phase wj) = true ->
     i = j) /\
  ~ overlap s /\
  (forall i c,
     In (i, c) (awaitedCalls s) ->
     exists wk, nth_error (pool s) i = Some wk /\ inProgress (phase wk) = true) /\
  (forall i j c d,
     In (i, c) (awaitedCalls s) -> In (j, d) (awaitedCalls s) -> i = j) /\
  (forall i c,
     In (i, c) (orphans f) ->
     c <> getCsv_call /\
     exists wk,
       nth_error (pool s) i = Some wk /\
       (phase wk = AwaitErrorProgress \/ phase wk = Settled)) /\
  (forall i j c d,
     In (i, c) (inFlight f) -> In (j, d) (inFlight f) -> i <> j ->
     In (i, c) (orphans f) \/ In (j, d) (orphans f)) /\
  (forall i j,
     In (i, getCsv_call) (inFlight f) -> In (j, getCsv_call) (inFlight f) ->
     i = j) /\
  (reported s = [] ->
   orphans f = [] /\
   forall i j c d, In (i, c) (inFlight f) -> In (j, d) (inFlight f) -> i = j).
Proof.
  intros H Fl s.
  destruct (doExport_Grounded o w w' folder s0 f H Fl) as [I [G Z]].
  fold s in I, G, Z.
  assert (Aw : forall i c,
            In (i, c) (awaitedCalls s) ->
            exists wk, nth_error (pool s) i = Some wk /\
                       inProgress (phase wk) = true).
  { intros i c In. apply awaitedCalls_In in In as (wk & N & In).
    exists wk. split; [exact N | now apply (awaited_inProgress _ c)]. }
  assert (One : forall i j c d,
            In (i, c) (awaitedCalls s) -> In (j, d) (awaitedCalls s) -> i = j).
  { intros i j c d Ii Ij.
    destruct (Aw i c Ii) as (wi & Ni & Pi). destruct (Aw j d Ij) as (wj & Nj & Pj).
    now apply (Serial_one_under_way s i j wi wj). }
  split; [exact (flies_steps (takeoff s0) f Fl) | ].
  split; [now apply Serial_activeCount | ].
  split; [intros i j wi wj; now apply Serial_in_order | ].
  split; [intros i j wi wj; now apply Serial_one_under_way | ].
  split; [now apply Serial_no_overlap | ].
  split; [exact Aw | split; [exact One | split; [exact G | ]]].
  split; [ | split].
  - intros i j c d Ii Ij Ne. unfold inFlight in Ii, Ij.
    apply in_app_or in Ii as [Ii|Ii]; [ | now left].
    apply in_app_or in Ij as [Ij|Ij]; [ | now right].
    elim Ne. now apply (One i j c d).
  - intros i j Ii Ij. unfold inFlight in Ii, Ij.
    apply in_app_or in Ii as [Ii|Ii]; [ | now destruct (G i _ Ii) as [N _]].
    apply in_app_or in Ij as [Ij|Ij]; [ | now destruct (G j _ Ij) as [N _]].
    now apply (One i j getCsv_call getCsv_call).
  - intros E. specialize (Z E). split; [exact Z | ].
    intros i j c d Ii Ij. unfold inFlight in Ii, Ij. rewrite Z, app_nil_r in Ii, Ij.
    now apply (One i j c d).
Qed.

End Flights.

(** ** More on sizes *)

Lemma Math_floor_log2_unique (x : Q) (k : Z) :
  2 ^ k <= x -> x < 2 ^ (k + 1) -> Math_floor_log2 x = Finite k.
Proof.
  intros L U.
  assert (P : 0 < x) by (eapply Qlt_le_trans; [apply (pow2_pos k) | exact L]).
  destruct (Math_floor_log2_bounds x P) as (k' & -> & L' & U').
  f_equal.
  assert (k < k' + 1)%Z.
  { apply (Qpower_lt_compat_l_inv 2); [ | reflexivity].
    eapply Qle_lt_trans; eassumption. }
  assert (k' < k + 1)%Z.
  { apply (Qpower_lt_compat_l_inv 2); [ | reflexivity].
    eapply Qle_lt_trans; eassumption. }
  lia.
Qed.

Lemma Math_floor_log2_nonpositive (x : Q) :
  x <= 0 -> Math_floor_log2 x = NegInfinity.
Proof.
  intros H. unfold Math_floor_log2.
  now rewrite (proj2 (Qle_bool_iff x 0) H).
Qed.

Lemma roundedFileSizeOf_nonneg (x : Q) : 0 <= roundedFileSizeOf x.
Proof.
  unfold roundedFileSizeOf.
  destruct (Math_floor_log2 x) as [|k]; simpl; [apply Qle_refl | ].
  apply Qlt_le_weak, pow2_pos.
Qed.

Lemma fileSizeOf_pow2 (j : N) :
  fileSizeOf (2 ^ j) == 2 ^ (Z.of_N j - 20).
Proof.
  unfold fileSizeOf. rewrite N2Z.inj_pow. change (Z.of_N 2) with 2%Z.
  rewrite pow2_inject by lia.
  unfold Zminus. rewrite Qpower_plus by discriminate.
  change (2 ^ (- (20))) with (/ (1024 * 1024)). field.
Qed.

(** X17.  In the exact arithmetic of the model, the reported size grows with
    the measured size; a size that is a power of two is reported as it is, a
    file of [2 ^ j] bytes with the size [2 ^ (j - 20)]; so the reported size
    of a reported size is that size. *)
Theorem rounded_size_is_monotone_and_idempotent :
  (forall s t : Q, s <= t -> roundedFileSizeOf s <= roundedFileSizeOf t) /\
  (forall k : Z, roundedFileSizeOf (2 ^ k) = 2 ^ k) /\
  (forall j : N, roundedFileSizeOf (fileSizeOf (2 ^ j)) = 2 ^ (Z.of_N j - 20)) /\
  (forall s : Q, roundedFileSizeOf (roundedFileSizeOf s) = roundedFileSizeOf s).
Proof.
  assert (Pw : forall k : Z, roundedFileSizeOf (2 ^ k) = 2 ^ k).
  { intros k. unfold roundedFileSizeOf.
    rewrite (Math_floor_log2_unique (2 ^ k) k); [reflexivity | apply Qle_refl | ].
    apply Qpower_lt_compat_l; [lia | reflexivity]. }
  split; [ | split; [exact Pw | split]].
  2: { intros j. unfold roundedFileSizeOf.
       rewrite (Math_floor_log2_unique (fileSizeOf (2 ^ j)) (Z.of_N j - 20));
         [reflexivity | | ]; rewrite fileSizeOf_pow2;
         [apply Qle_refl | apply Qpower_lt_compat_l; [lia | reflexivity]]. }
  - intros s t H.
    destruct (Qlt_le_dec 0 s) as [P | N].
    + assert (P' : 0 < t) by (eapply Qlt_le_trans; eassumption).
      destruct (Math_floor_log2_bounds s P) as (k & E & L & U).
      destruct (Math_floor_log2_bounds t P') as (k' & E' & L' & U').
      unfold roundedFileSizeOf. rewrite E, E'. simpl.
      apply Qpower_le_compat_l; [ | discriminate].
      assert (k < k' + 1)%Z; [ | lia].
      apply (Qpower_lt_compat_l_inv 2); [ | reflexivity].
      eapply Qle_lt_trans; [exact L | ].
      eapply Qle_lt_trans; eassumption.
    + unfold roundedFileSizeOf at 1.
      rewrite (Math_floor_log2_nonpositive s N). simpl.
      apply roundedFileSizeOf_nonneg.
  - intros s. unfold roundedFileSizeOf at 2 3.
    destruct (Math_floor_log2 s) as [|k]; simpl; [reflexivity | apply Pw].
Qed.

(** X18.  A file is large when it has more than 20 times 1024 times 1024
    bytes; a file of exactly that size is not.  The size reported for a large
    file is at least 16 and every file of a reported size above 16 is large,
    but the reported size 16 is that of large and of other files alike. *)
Theorem large_is_more_than_twenty_megabytes :
  (forall byteLength : N,
     isLargeOf (fileSizeOf byteLength) = true <->
     (20 * 1024 * 1024 < byteLength)%N) /\
  (forall s : Q, isLargeOf s = true -> 16 <= roundedFileSizeOf s) /\
  (forall s : Q, 16 < roundedFileSizeOf s -> isLargeOf s = true) /\
  (exists small large : N,
     roundedFileSizeOf (fileSizeOf small) == 16 /\
     roundedFileSizeOf (fileSizeOf large) == 16 /\
     isLargeOf (fileSizeOf small) = false /\
     isLargeOf (fileSizeOf large) = true).
Proof.
  assert (Lg : forall s, isLargeOf s = true <-> 20 < s).
  { intros s. unfold isLargeOf. rewrite negb_true_iff.
    destruct (Qle_bool s 20) eqn:B.
    - apply Qle_bool_iff in B. split; [discriminate | ].
      intros H. exfalso. now apply (Qlt_not_le _ _ H).
    - split; [intros _ | reflexivity].
      apply Qnot_le_lt. intros H. apply Qle_bool_iff in H. congruence. }
  split; [ | split; [ | split]].
  - intros b. rewrite Lg. unfold fileSizeOf, Qlt. simpl. lia.
  - intros s H. apply Lg in H.
    assert (P : 0 < s) by (eapply Qlt_trans; [ | exact H]; reflexivity).
    destruct (Math_floor_log2_bounds s P) as (k & E & L & U).
    unfold roundedFileSizeOf. rewrite E. simpl.
    change 16 with (2 ^ 4). apply Qpower_le_compat_l; [ | discriminate].
    assert (4 < k + 1)%Z; [ | lia].
    apply (Qpower_lt_compat_l_inv 2); [ | reflexivity].
    eapply Qlt_trans; [ | exact U].
    eapply Qlt_trans; [ | exact H]. reflexivity.
  - intros s H. apply Lg.
    destruct (Qlt_le_dec 0 s) as [P | N].
    + destruct (Math_floor_log2_bounds s P) as (k & E & L & U).
      unfold roundedFileSizeOf in H. rewrite E in H. simpl in H.
      assert (K : (4 < k)%Z).
      { apply (Qpower_lt_compat_l_inv 2); [exact H | reflexivity]. }
      eapply Qlt_le_trans; [ | exact L].
      eapply Qlt_le_trans with (y := 2 ^ 5); [reflexivity | ].
      apply Qpower_le_compat_l; [lia | discriminate].
    + unfold roundedFileSizeOf in H.
      rewrite (Math_floor_log2_nonpositive s N) in H. discriminate H.
  - exists (20 * 1024 * 1024)%N, (20 * 1024 * 1024 + 1)%N.
    repeat split; reflexivity.
Qed.

(** ** The OAuth client *)

(** X19.  The redirect URI of the OAuth client uses [http] for the host
    [localhost:3000] and for no other; for every other host it is the [https]
    address of that host.  Different hosts have different redirect URIs; a
    request without a host header is sent to the host named [undefined], and
    one with an empty host header gets an address without a host. *)
Theorem redirect_uri_is_https_except_on_localhost :
  Auth.redirectUri (Some "localhost:3000") = "http://localhost:3000/auth/callback" /\
  (forall host : option string,
     host <> Some "localhost:3000" ->
     Auth.redirectUri host = "https://" ++ Auth.interpolated host ++ "/auth/callback") /\
  (forall a b : string,
     Auth.redirectUri (Some a) = Auth.redirectUri (Some b) -> a = b) /\
  Auth.redirectUri None = Auth.redirectUri (Some "undefined") /\
  Auth.redirectUri (Some EmptyString) = "https:///auth/callback".
Proof.
  assert (Other : forall host : option string,
            host <> Some "localhost:3000" ->
            Auth.redirectUri host =
            "https://" ++ Auth.interpolated host ++ "/auth/callback").
  { intros [h|] N; unfold Auth.redirectUri; [ | reflexivity].
    destruct (String.eqb_spec h "localhost:3000") as [->|_]; [now elim N | ].
    now rewrite andb_false_r. }
  split; [reflexivity | split; [exact Other | split; [ | split; reflexivity]]].
  intros a b.
  destruct (string_dec a "localhost:3000") as [->|Na],
           (string_dec b "localhost:3000") as [->|Nb].
  - reflexivity.
  - rewrite (Other (Some b)) by congruence. discriminate.
  - rewrite (Other (Some a)) by congruence. discriminate.
  - rewrite (Other (Some a)), (Other (Some b)) by congruence.
    simpl Auth.interpolated. intros E.
    apply append_cancel_l in E. now apply append_cancel_r in E.
Qed.

(** ** The page of an export *)

Section Page.
Variable VISUALIZER_BASE_URI : string.
Variable listed : string -> bool.

Local Abbreviation updateTable := (Client.updateTable listed).
Local Abbreviation onload := (Client.onload listed).

Lemma updateTable_all (l : list Client.ITableExport) :
  forall rendered,
    fold_left (fun r t => updateTable t r) l rendered =
    (rendered ++
     map Client.tableId (filter (fun t => listed (Client.tableId t)) l))%list.
Proof.
  induction l as [|t l IH]; intros rendered; simpl.
  - now rewrite app_nil_r.
  - rewrite IH. unfold Client.updateTable.
    destruct (listed (Client.tableId t)); simpl; [ | reflexivity].
    now rewrite <- app_assoc.
Qed.

Lemma notRendered_spec (rendered : list string) (id : string) :
  Client.notRendered rendered id = true <-> ~ In id rendered.
Proof.
  unfold Client.notRendered. rewrite negb_true_iff. split.
  - intros E I. assert (X : existsb (String.eqb id) rendered = true).
    { apply existsb_exists. exists id. split; [exact I | apply String.eqb_refl]. }
    congruence.
  - intros N. destruct (existsb (String.eqb id) rendered) eqn:E; [ | reflexivity].
    apply existsb_exists in E as (x & I & E). apply String.eqb_eq in E.
    subst x. contradiction.
Qed.

(** Leaving tables out of a response keeps their ids distinct. *)
Lemma tableIds_distinct (keep : Client.ITableExport -> bool)
    (tableExports : list Client.ITableExport) :
  NoDup (map Client.tableId tableExports) ->
  NoDup (map Client.tableId (filter keep tableExports)).
Proof.
  intros Distinct.
  induction tableExports as [|t rest IH]; simpl; [constructor | ].
  simpl in Distinct. apply NoDup_cons_iff in Distinct as [Out Distinct].
  destruct (keep t); simpl; [ | now apply IH].
  apply NoDup_cons; [ | now apply IH].
  intros I. apply Out. apply in_map_iff in I as (t' & E & I).
  apply filter_In in I as [I _]. rewrite <- E. now apply in_map.
Qed.

(** X20.  A response with an HTTP status from 200 to 399 is followed by
    another request exactly when one of its tables is still loading.  It adds
    to the rendered tables those of its tables that are not loading, have not
    been rendered and have an entry in the list, in the order of the response;
    afterwards every table of the response that is not loading and has an
    entry is among the rendered ones.  No table is rendered twice as long as
    no response names a table twice.  Any other response changes nothing and
    is followed by another request. *)
Theorem poll_renders_settled_tables_once
    (httpStatus : Z) (tableExports : list Client.ITableExport)
    (rendered : list string) :
  let recheck := fst (onload httpStatus tableExports rendered) in
  let rendered' := snd (onload httpStatus tableExports rendered) in
  ((200 <= httpStatus < 400)%Z ->
     (recheck = false <->
      Forall (fun t => Client.status t <> Client.status_loading) tableExports) /\
     rendered' =
       (rendered ++
        map Client.tableId
          (filter (fun t => listed (Client.tableId t))
             (Client.fresh rendered tableExports)))%list /\
     (forall t,
        In t tableExports ->
        Client.status t <> Client.status_loading ->
        listed (Client.tableId t) = true ->
        In (Client.tableId t) rendered') /\
     (NoDup rendered -> NoDup (map Client.tableId tableExports) ->
      NoDup rendered')) /\
  (~ (200 <= httpStatus < 400)%Z -> recheck = true /\ rendered' = rendered).
Proof.
  intros recheck rendered'. unfold recheck, rendered', Client.onload.
  destruct (Z.leb_spec 200 httpStatus) as [Lo|Lo],
           (Z.ltb_spec httpStatus 400) as [Hi|Hi]; simpl;
    (split; [intros R | intros R]); try lia; try (now split).
  rewrite updateTable_all.
  assert (Ld : forall s, Client.isLoading s = false <-> s <> Client.status_loading).
  { intros []; simpl; split; congruence. }
  split; [ | split; [reflexivity | split]].
  - split.
    + intros E. apply Forall_forall. intros t I. apply Ld.
      destruct (Client.isLoading (Client.status t)) eqn:L; [ | reflexivity].
      assert (X : existsb (fun t => Client.isLoading (Client.status t))
                    tableExports = true).
      { apply existsb_exists. now exists t. }
      congruence.
    + intros F.
      destruct (existsb _ tableExports) eqn:E; [ | reflexivity].
      apply existsb_exists in E as (t & I & L).
      rewrite Forall_forall in F. apply F, Ld in I. congruence.
  - intros t I S Li. apply in_or_app.
    destruct (in_dec string_dec (Client.tableId t) rendered) as [Y|N];
      [now left | right].
    apply in_map. apply filter_In. split; [ | exact Li].
    apply filter_In. split; [exact I | ].
    apply andb_true_iff. split.
    + apply negb_true_iff. now apply Ld.
    + now apply notRendered_spec.
  - intros Nr Nt. apply NoDup_app; [exact Nr | | ].
    + unfold Client.fresh. now apply tableIds_distinct, tableIds_distinct.
    + intros id I J. apply in_map_iff in J as (t & <- & J).
      apply filter_In in J as [J _]. apply filter_In in J as [_ J].
      apply andb_true_iff in J as [_ J]. now apply notRendered_spec in J.
Qed.

End Page.

(** ** The links of the page and of the index sheet *)

Section Links.
Variable IStyle : Type.
Variable getStyleHash : IStyle -> string.
Variable VISUALIZER_BASE_URI : string.
Variable MIME_TYPES_csv : string.

Local Abbreviation rows := (LogFile.rows getStyleHash VISUALIZER_BASE_URI MIME_TYPES_csv).
Local Abbreviation createRow := (LogFile.createRow MIME_TYPES_csv).
Local Abbreviation styleLink := (LogFile.styleLink getStyleHash VISUALIZER_BASE_URI).
Local Abbreviation visualizationUrl := (Client.visualizationUrl VISUALIZER_BASE_URI).
Local Abbreviation visualizationUrls := (Client.visualizationUrls VISUALIZER_BASE_URI).

Lemma append_nil_r (a : string) : a ++ EmptyString = a.
Proof. induction a as [|c a IH]; simpl; [reflexivity | now rewrite IH]. Qed.

Lemma mapi_from_of_map {A B C : Type} (f : B -> nat -> C) (g : A -> B) (l : list A) :
  forall k, mapi_from f k (map g l) = mapi_from (fun x i => f (g x) i) k l.
Proof.
  induction l as [|x l IH]; intros k; simpl; [reflexivity | now rewrite IH].
Qed.

Lemma mapi_from_ext_in {A B : Type} (f g : A -> nat -> B) (l : list A) :
  (forall x i, In x l -> f x i = g x i) ->
  forall k, mapi_from f k l = mapi_from g k l.
Proof.
  induction l as [|x l IH]; intros H k; simpl; [reflexivity | ].
  rewrite (H x k) by now left. f_equal. apply IH.
  intros y i I. apply H. now right.
Qed.

(** The link of a style on the page and in the index sheet. *)
Lemma styleLink_on_page (o : LogFile.ILogFileOptions IStyle) (style : IStyle) :
  getStyleHash style <> EmptyString ->
  styleLink o style =
  visualizationUrl (IFile.id (LogFile.driveFile o)) (LogFile.isLarge o)
    (Some (getStyleHash style)).
Proof.
  intros N. unfold LogFile.styleLink, Client.visualizationUrl,
    LogFile.visualizerBaseLink, LogFile.largeSuffix.
  cbv zeta. unfold truthyString.
  destruct (String.eqb_spec (getStyleHash style) EmptyString) as [E|_];
    [contradiction | ].
  simpl negb. cbv iota. simpl Auth.interpolated.
  destruct (LogFile.isLarge o).
  - now rewrite !append_assoc.
  - now rewrite append_nil_r, !append_assoc.
Qed.

(** X21.  The visualization links that the page shows for a table are the
    links of the rows logged in the index sheet, one row per link and in the
    same order, when the page is given the hashes of the table's styles and
    none of them is empty.  For a style with an empty hash the two differ:
    the link in the sheet keeps the style parameter, the one on the page has
    none. *)
Theorem page_links_are_sheet_links
    (o : LogFile.ILogFileOptions IStyle) (data : Client.ITableExport)
    (exportDate : string) :
  (LogFile.hasGeometryData o = true ->
   Client.hasGeometryData data = true ->
   Client.driveFile data = Some (LogFile.driveFile o) ->
   Client.isLarge data = LogFile.isLarge o ->
   Client.styles data = map getStyleHash (LogFile.styles o) ->
   Forall (fun style => getStyleHash style <> EmptyString) (LogFile.styles o) ->
   rows o exportDate =
     mapi (fun url index =>
             createRow o exportDate (Some url)
               (if (1 <? List.length (visualizationUrls data))%nat
                then Some index else None))
          (visualizationUrls data)) /\
  (forall style,
     getStyleHash style = EmptyString ->
     styleLink o style <>
     visualizationUrl (IFile.id (LogFile.driveFile o)) (LogFile.isLarge o)
       (Some (getStyleHash style))).
Proof.
  split.
  - intros G G' F L S N.
    unfold LogFile.rows, Client.visualizationUrls.
    rewrite G, G', F, L, S, length_map. simpl negb. cbv iota.
    destruct (LogFile.styles o) as [|s ss] eqn:E.
    + simpl. unfold mapi. simpl. f_equal. f_equal. f_equal.
      unfold Client.visualizationUrl, LogFile.visualizerBaseLink,
        LogFile.largeSuffix. simpl.
      destruct (LogFile.isLarge o); [reflexivity | apply append_nil_r].
    + change (0 <? List.length (s :: ss))%nat with true. cbv iota.
      rewrite !length_map. unfold mapi. rewrite !mapi_from_of_map.
      apply mapi_from_ext_in. intros x i I.
      rewrite Forall_forall in N. now rewrite (styleLink_on_page o x (N x I)).
  - intros style E H.
    unfold LogFile.styleLink, Client.visualizationUrl in H.
    rewrite E in H. simpl in H.
    unfold LogFile.visualizerBaseLink, LogFile.largeSuffix in H.
    destruct (LogFile.isLarge o).
    + rewrite !append_assoc in H.
      apply append_cancel_l in H. simpl in H.
      apply (f_equal String.length) in H. simpl in H.
      rewrite !length_append in H. simpl in H. lia.
    + rewrite !append_assoc in H.
      apply append_cancel_l in H. simpl in H.
      apply (f_equal String.length) in H. simpl in H.
      rewrite !length_append in H. simpl in H. lia.
Qed.

(** X22.  The index sheet and the page name the type of a Drive file by
    different tests: the sheet says CSV for the CSV type and Spreadsheet for
    everything else, the page says Spreadsheet for the spreadsheet type and
    CSV for everything else.  They agree exactly on files of one of these two
    types. *)
Theorem sheet_and_page_agree_on_known_types
    (o : LogFile.ILogFileOptions IStyle) :
  MIME_TYPES_csv <> "application/vnd.google-apps.spreadsheet" ->
  (LogFile.fileType MIME_TYPES_csv o =
   Client.fileType (IFile.mimeType (LogFile.driveFile o)) <->
   IFile.mimeType (LogFile.driveFile o) = MIME_TYPES_csv \/
   IFile.mimeType (LogFile.driveFile o) =
     "application/vnd.google-apps.spreadsheet").
Proof.
  intros D. unfold LogFile.fileType, Client.fileType.
  destruct (String.eqb_spec (IFile.mimeType (LogFile.driveFile o)) MIME_TYPES_csv)
    as [E|N],
    (String.eqb_spec (IFile.mimeType (LogFile.driveFile o))
       "application/vnd.google-apps.spreadsheet") as [E'|N'].
  - congruence.
  - split; [now left | reflexivity].
  - split; [now right | reflexivity].
  - split; [discriminate | intros [E|E]; contradiction].
Qed.

End Links.

(** ** The further facts at sample inputs *)

Lemma no_style_row_has_base_link_witness :
  Sample.rows [] true =
  [ {| values :=
         [stringValue "cities";
          stringValue "https://fusiontables.google.com/DataSource?docid=T1";
          stringValue "https://drive.google.com/open?id=F1";
          stringValue "CSV";
          formulaValue
            (LogFile.hyperlink "https://visualizer.example/#file=F1" EmptyString);
          stringValue "2019-12-03T10:00:00.000Z"] |} ].
Proof.
  exact (no_style_row_has_base_link string Sample.getStyleHash
           Sample.VISUALIZER_BASE_URI Sample.MIME_TYPES_csv
           (Sample.logOptions [] true) "2019-12-03T10:00:00.000Z"
           eq_refl eq_refl).
Defined.

Lemma rows_count_and_layout_witness :
  List.length (Sample.rows ["blue"; "red"] true) = 2%nat /\
  List.length (Sample.rows ["blue"; "red"] false) = 1%nat.
Proof.
  split.
  - exact (proj1 (rows_count_and_layout string Sample.getStyleHash
                    Sample.VISUALIZER_BASE_URI Sample.MIME_TYPES_csv
                    (Sample.logOptions ["blue"; "red"] true)
                    "2019-12-03T10:00:00.000Z")).
  - exact (proj1 (rows_count_and_layout string Sample.getStyleHash
                    Sample.VISUALIZER_BASE_URI Sample.MIME_TYPES_csv
                    (Sample.logOptions ["blue"; "red"] false)
                    "2019-12-03T10:00:00.000Z")).
Defined.

Lemma rows_with_geometry_link_the_file_witness :
  exists style label,
    visualizationCell (hd {| values := [] |} (Sample.rows ["blue"] true)) =
      Some (formulaValue
              (LogFile.hyperlink
                 ("https://visualizer.example/" ++ "#file=" ++ "F1" ++ style ++
                  EmptyString)
                 label)) /\
    (style = EmptyString <-> ["blue"] = []).
Proof.
  apply (rows_with_geometry_link_the_file string Sample.getStyleHash
           Sample.VISUALIZER_BASE_URI Sample.MIME_TYPES_csv
           (Sample.logOptions ["blue"] true) "2019-12-03T10:00:00.000Z" eq_refl).
  simpl. left. reflexivity.
Defined.

Lemma index_log_retried_until_appended_witness :
  LogFile.logFileExportInIndexSheet Sample.getStyleHash Sample.VISUALIZER_BASE_URI
    Sample.MIME_TYPES_csv 2 (Cases.flaky 1) (Sample.logOptions ["blue"] true) [] =
  (Ok tt,
   attempts
     (appendCall Sample.getStyleHash Sample.VISUALIZER_BASE_URI
        Sample.MIME_TYPES_csv (Cases.flaky 1) (Sample.logOptions ["blue"] true))
     0 2).
Proof.
  apply (index_log_retried_until_appended string Sample.getStyleHash
           Sample.VISUALIZER_BASE_URI Sample.MIME_TYPES_csv 2 (Cases.flaky 1)
           (Sample.logOptions ["blue"] true) [] 1).
  - lia.
  - intros j J. assert (E : j = 0%nat) by lia. subst j. discriminate.
  - reflexivity.
Defined.

Lemma index_log_gives_up_with_last_failure_witness :
  LogFile.logFileExportInIndexSheet Sample.getStyleHash Sample.VISUALIZER_BASE_URI
    Sample.MIME_TYPES_csv 2 (Cases.flaky 5) (Sample.logOptions ["blue"] true) [] =
  (Err (GaxiosError (Some 503%Z)),
   attempts
     (appendCall Sample.getStyleHash Sample.VISUALIZER_BASE_URI
        Sample.MIME_TYPES_csv (Cases.flaky 5) (Sample.logOptions ["blue"] true))
     0 3).
Proof.
  apply (index_log_gives_up_with_last_failure string Sample.getStyleHash
           Sample.VISUALIZER_BASE_URI Sample.MIME_TYPES_csv 2 (Cases.flaky 5)
           (Sample.logOptions ["blue"] true) []).
  - intros j J. destruct j as [|[|j]]; [discriminate | discriminate | lia].
  - reflexivity.
Defined.

Lemma first_sheet_found_after_failures_witness :
  IndexSheet.getFirstSheet Sample.DRIVE_ARCHIVE_INDEX_SHEET 2 Sample.notFoundOnce
    "SHEET" [] =
  (Ok 7%Z, repeat (call_spreadsheets_get "SHEET") 3).
Proof.
  apply (first_sheet_found_after_failures Sample.DRIVE_ARCHIVE_INDEX_SHEET 2
           Sample.notFoundOnce "SHEET" [] 2 7).
  - lia.
  - intros j J. destruct j as [|[|j]]; [reflexivity | reflexivity | lia].
  - reflexivity.
Defined.

Lemma first_sheet_failures_witness :
  IndexSheet.getFirstSheet Sample.DRIVE_ARCHIVE_INDEX_SHEET 2 Cases.unreachable
    "SHEET" [] =
  (Err (TypeError "Cannot read property 'data' of undefined"),
   repeat (call_spreadsheets_get "SHEET") 3).
Proof.
  apply (proj1 (proj2 (first_sheet_failures Sample.DRIVE_ARCHIVE_INDEX_SHEET 2
                         Cases.unreachable "SHEET" []))).
  intros j J. reflexivity.
Defined.

Lemma existing_index_sheet_is_only_read_witness :
  exists k,
    (1 <= k <= 3)%nat /\
    snd (Cases.getArchiveIndexSheet Sample.healthy) =
      (call_findFile Sample.DRIVE_ARCHIVE_INDEX_SHEET "ARCHIVE"
         :: repeat (call_spreadsheets_get "SHEET") k) /\
    creations (snd (Cases.getArchiveIndexSheet Sample.healthy)) = 0%nat.
Proof.
  apply (existing_index_sheet_is_only_read Sample.DRIVE_ARCHIVE_INDEX_SHEET 2
           Sample.healthy "ARCHIVE" "SHEET" []).
  - reflexivity.
  - discriminate.
Defined.

Lemma failed_creations_leave_spreadsheets_witness :
  creations (snd (Cases.getArchiveIndexSheet Cases.createdZero)) = 3%nat /\
  created Cases.createdZero (snd (Cases.getArchiveIndexSheet Cases.createdZero)) =
    3%nat /\
  creations (snd (Cases.getArchiveIndexSheet Cases.createRefused)) = 3%nat /\
  created Cases.createRefused (snd (Cases.getArchiveIndexSheet Cases.createRefused)) =
    0%nat.
Proof.
  pose proof (failed_creations_leave_spreadsheets Sample.DRIVE_ARCHIVE_INDEX_SHEET
                2 Cases.createdZero "ARCHIVE" None [] eq_refl eq_refl) as Z.
  pose proof (failed_creations_leave_spreadsheets Sample.DRIVE_ARCHIVE_INDEX_SHEET
                2 Cases.createRefused "ARCHIVE" None [] eq_refl eq_refl) as R.
  cbv zeta in Z, R.
  destruct Z as (made & _ & Rq & E & _ & All & _).
  destruct R as (made' & _ & Rq' & E' & _ & _ & Non & _).
  rewrite (E _ eq_refl) in Rq, All. rewrite (E' _ eq_refl) in Rq'.
  split; [exact Rq | split; [ | split; [exact Rq' | ]]].
  - apply All. intros tick. eexists. reflexivity.
  - apply Non. intros tick. eexists. reflexivity.
Defined.

Lemma index_sheet_created_in_four_calls_witness :
  Cases.getArchiveIndexSheet Cases.created =
  (Ok (ISheet.mk "NEW" 7),
   [call_findFile Sample.DRIVE_ARCHIVE_INDEX_SHEET "ARCHIVE";
    call_files_create Sample.DRIVE_ARCHIVE_INDEX_SHEET "ARCHIVE"
      "Exported file name,Source Fusiontable,Exported Spreadsheet/CSV,Type,Visualization,Exported at";
    call_spreadsheets_get "NEW";
    call_spreadsheets_batchUpdate "NEW"
      [repeatCell 7; updateDimensionProperties 7; updateSheetProperties 7]]).
Proof.
  apply (index_sheet_created_in_four_calls Sample.DRIVE_ARCHIVE_INDEX_SHEET 2
           Cases.created "ARCHIVE" "NEW" None 7
           {| statusText := "OK"; data := tt |} []); reflexivity.
Defined.

Lemma resolved_sheet_is_never_zero_witness :
  ISheet.sheetId Sample.indexSheet <> 0%Z /\
  In (call_spreadsheets_get (ISheet.spreadsheetId Sample.indexSheet))
     [call_findFile Sample.DRIVE_ARCHIVE_INDEX_SHEET "ARCHIVE";
      call_spreadsheets_get "SHEET"].
Proof.
  apply (resolved_sheet_is_never_zero Sample.DRIVE_ARCHIVE_INDEX_SHEET 2
           Sample.healthy "ARCHIVE" []).
  reflexivity.
Defined.

Lemma creation_and_lookup_retries_multiply_witness :
  (exists e, fst (Cases.getArchiveIndexSheet Cases.createdZero) = Err e) /\
  creations (snd (Cases.getArchiveIndexSheet Cases.createdZero)) = (0 + 3)%nat /\
  lookups (snd (Cases.getArchiveIndexSheet Cases.createdZero)) = (0 + 3 * 3)%nat.
Proof.
  apply (creation_and_lookup_retries_multiply Sample.DRIVE_ARCHIVE_INDEX_SHEET 2
           Cases.createdZero "ARCHIVE" None []).
  - reflexivity.
  - reflexivity.
  - intros tick. exists {| statusText := "OK"; data := "NEW" |}.
    split; reflexivity.
  - intros tick. reflexivity.
Defined.

Lemma sample_finished (schedule : list (nat * DoExport.Settlement string)) :
  Forall (fun w => DoExport.phase w = DoExport.Settled)
    (DoExport.pool (Sample.after schedule)) ->
  DoExport.activeCount (Sample.after schedule) = 0%nat ->
  DoExport.queue (Sample.after schedule) = [] ->
  DoExport.exportFinishes (DoExport.exportLog (Sample.after schedule)) =
    match DoExport.pool (Sample.after schedule) with
    | [] => 0%nat
    | _ :: _ => 1%nat
    end ->
  DoExport.quiescent (Sample.after schedule).
Proof.
  intros F A Q E. apply Finished_quiescent. repeat split; assumption.
Qed.

Lemma finished_export_leaves_sequential_journal_witness :
  exists outcomes : list Outcome,
    List.length outcomes = 2%nat /\
    DoExport.progressUpdates Cases.lateFailure =
      flat_map (fun c => recorded (fst c) (snd c))
        (combine (DoExport.pool Cases.lateFailure) outcomes) /\
    DoExport.reported Cases.lateFailure = flat_map raised outcomes.
Proof.
  assert (St : DoExport.steps Sample.dispatched Cases.lateFailure).
  { apply sample_steps. discriminate. }
  assert (Qt : DoExport.quiescent Cases.lateFailure).
  { apply sample_finished; try reflexivity. repeat constructor. }
  destruct (finished_export_leaves_sequential_journal
              Sample.DRIVE_ARCHIVE_INDEX_SHEET 2 Sample.healthy
              (Sample.job [Sample.cities; Sample.rivers]) [] _ "UPLOAD"
              Sample.dispatched Cases.lateFailure sample_doExport St Qt)
    as (sheet & outcomes & _ & Len & _ & Pu & Re & _).
  exists outcomes. repeat split; assumption.
Defined.

Lemma reports_match_error_records_witness :
  map messageOf (DoExport.reported Cases.lateFailure) =
  errorsRecorded (DoExport.progressUpdates Cases.lateFailure).
Proof.
  assert (St : DoExport.steps Sample.dispatched Cases.lateFailure).
  { apply sample_steps. discriminate. }
  exact (proj1 (reports_match_error_records
                  Sample.DRIVE_ARCHIVE_INDEX_SHEET 2 Sample.healthy
                  (Sample.job [Sample.cities; Sample.rivers]) [] _ "UPLOAD"
                  Sample.dispatched Cases.lateFailure sample_doExport St)).
Defined.

Lemma late_failure_follows_success_record_witness :
  exists wk,
    nth_error (DoExport.pool Cases.finalizing) 0 = Some wk /\
    DoExport.resume 0
      (DoExport.logFileExportInIndexSheet_settled (Err Cases.refused))
      Cases.finalizing =
      Some (DoExport.catchBlock 0 wk Cases.refused Cases.finalizing) /\
    map (fun u => DoExport.p_status u)
      (DoExport.progressUpdates
         (DoExport.catchBlock 0 wk Cases.refused Cases.finalizing)) =
      [DoExport.success; DoExport.error].
Proof.
  assert (St : DoExport.steps Sample.dispatched Cases.finalizing).
  { apply sample_steps. discriminate. }
  eexists. split; [reflexivity | ].
  split; [ | reflexivity].
  refine (proj1 (late_failure_follows_success_record
                   Sample.DRIVE_ARCHIVE_INDEX_SHEET 2 Sample.healthy
                   (Sample.job [Sample.cities; Sample.rivers]) [] _ "UPLOAD"
                   Sample.dispatched Cases.finalizing 0 _ false false false
                   Cases.refused sample_doExport St eq_refl eq_refl eq_refl)
                eq_refl).
Defined.

Lemma prepared_export_starts_first_table_witness :
  exists s0 : DoExport.System string,
    Sample.doExport Sample.healthy [Sample.cities; Sample.rivers] =
      (Ok "UPLOAD",
       [call_getArchiveFolder; call_getDriveUploadFolder "ARCHIVE";
        call_findFile Sample.DRIVE_ARCHIVE_INDEX_SHEET "ARCHIVE";
        call_spreadsheets_get "SHEET";
        call_insertExportRowInIndexSheet Sample.indexSheet "UPLOAD"],
       s0) /\
    DoExport.exportLog s0 =
      [DoExport.logExportStart "E1" 2; DoExport.logTableStart "E1" 1] /\
    DoExport.progressUpdates s0 = [].
Proof.
  destruct (prepared_export_starts_first_table (IStyle := string)
              Sample.DRIVE_ARCHIVE_INDEX_SHEET 2 Sample.healthy
              (Sample.job [Sample.cities; Sample.rivers]) []
              [call_getArchiveFolder; call_getDriveUploadFolder "ARCHIVE";
               call_findFile Sample.DRIVE_ARCHIVE_INDEX_SHEET "ARCHIVE";
               call_spreadsheets_get "SHEET"]
              "ARCHIVE" "UPLOAD" Sample.indexSheet tt
              eq_refl eq_refl eq_refl eq_refl)
    as (s0 & D & _ & _ & _ & _ & L & P & _).
  exists s0. repeat split; assumption.
Defined.

Lemma rounded_size_is_monotone_and_idempotent_witness :
  roundedFileSizeOf (fileSizeOf (9 * 1024 * 1024)) <=
  roundedFileSizeOf (fileSizeOf (17 * 1024 * 1024)).
Proof.
  apply (proj1 rounded_size_is_monotone_and_idempotent).
  unfold fileSizeOf, Qle. simpl. lia.
Defined.

Lemma large_is_more_than_twenty_megabytes_witness :
  16 <= roundedFileSizeOf (fileSizeOf (21 * 1024 * 1024)).
Proof.
  apply (proj1 (proj2 large_is_more_than_twenty_megabytes)).
  reflexivity.
Defined.

Lemma redirect_uri_is_https_except_on_localhost_witness :
  Auth.redirectUri (Some "exporter.example") =
  "https://exporter.example/auth/callback".
Proof.
  apply (proj1 (proj2 redirect_uri_is_https_except_on_localhost)
           (Some "exporter.example")).
  discriminate.
Defined.

Lemma poll_renders_settled_tables_once_witness :
  fst (Client.onload (fun _ => true) 200
         [Cases.citiesExport; Cases.riversExport] []) = true /\
  In "T1" (snd (Client.onload (fun _ => true) 200
                  [Cases.citiesExport; Cases.riversExport] [])).
Proof.
  split; [reflexivity | ].
  destruct (proj1 (poll_renders_settled_tables_once (fun _ => true) 200
                     [Cases.citiesExport; Cases.riversExport] []))
    as (_ & _ & I & _); [lia | ].
  apply (I Cases.citiesExport).
  - left. reflexivity.
  - discriminate.
  - reflexivity.
Defined.

Lemma page_links_are_sheet_links_witness :
  Sample.rows ["blue"; "red"] true =
  mapi (fun url index =>
          LogFile.createRow Sample.MIME_TYPES_csv
            (Sample.logOptions ["blue"; "red"] true)
            "2019-12-03T10:00:00.000Z" (Some url) (Some index))
       ["https://visualizer.example/#file=F1&style=blue";
        "https://visualizer.example/#file=F1&style=red"].
Proof.
  apply (proj1 (page_links_are_sheet_links string Sample.getStyleHash
                  Sample.VISUALIZER_BASE_URI Sample.MIME_TYPES_csv
                  (Sample.logOptions ["blue"; "red"] true) Cases.citiesExport
                  "2019-12-03T10:00:00.000Z")); try reflexivity.
  repeat constructor; discriminate.
Defined.

Lemma sheet_and_page_agree_on_known_types_witness :
  LogFile.fileType Sample.MIME_TYPES_csv (Sample.logOptions [] true) =
  Client.fileType "text/csv".
Proof.
  apply (proj2 (sheet_and_page_agree_on_known_types string Sample.MIME_TYPES_csv
                  (Sample.logOptions [] true) ltac:(discriminate))).
  left. reflexivity.
Defined.


Lemma removed_orphan (i : nat) (c : Call) (l l' : list (nat * Call)) :
  withoutFirst i c l = Some l' ->
  exists o1 o2, l = (o1 ++ (i, c) :: o2)%list /\ l' = (o1 ++ o2)%list.
Proof.
  revert l'. induction l as [|[j d] l IH]; intros l' H; simpl in H;
    [discriminate | ].
  destruct (Nat.eqb i j && Call_eqb c d) eqn:E.
  - injection H as <-. apply andb_true_iff in E as [E1 E2].
    apply Nat.eqb_eq in E1. subst j.
    assert (c = d) as -> by (destruct c, d; simpl in E2; congruence).
    now exists [], l.
  - destruct (withoutFirst i c l) as [l1|]; [ | discriminate].
    injection H as <-. destruct (IH l1 eq_refl) as (o1 & o2 & -> & ->).
    now exists ((j, d) :: o1), o2.
Qed.

(** A schedule that runs through is a flight. *)
Lemma flyAll_flies {IStyle : Type} (schedule : list (Happening IStyle)) :
  forall f f' : Flight IStyle, flyAll schedule f = Some f' -> flies f f'.
Proof.
  assert (T : forall a b c : Flight IStyle, fly a b -> flies b c -> flies a c).
  { intros a b c S H. induction H as [b | b c d _ IH S'].
    - eapply flies_step; [apply flies_refl | exact S].
    - eapply flies_step; [now apply IH | exact S']. }
  induction schedule as [|[i ev|i c] rest IH]; intros f f' H; simpl in H.
  - injection H as <-. apply flies_refl.
  - destruct (DoExport.resume i ev (system f)) as [s'|] eqn:R; [ | discriminate].
    eapply T; [ | apply IH; exact H].
    destruct f as [s o]. now apply fly_resume.
  - destruct (withoutFirst i c (orphans f)) as [o'|] eqn:W; [ | discriminate].
    eapply T; [ | apply IH; exact H].
    destruct f as [s o]. simpl in *.
    destruct (removed_orphan i c o o' W) as (o1 & o2 & -> & ->).
    apply fly_settle.
Qed.

Lemma sample_flight : flies (takeoff Sample.dispatched) Cases.strayUpload.
Proof. apply (flyAll_flies Cases.straying). vm_compute. reflexivity. Qed.

(** The uploads of two tables in flight together: the one of the first
    table has been abandoned, the one of the second is awaited. *)
Example abandoned_upload_overlaps_next_table :
  inFlight Cases.strayUpload =
  [(1%nat, uploadToDrive_call); (1%nat, getFusiontableStyles_call);
   (0%nat, uploadToDrive_call)] /\
  orphans Cases.strayUpload = [(0%nat, uploadToDrive_call)].
Proof. split; vm_compute; reflexivity. Qed.

Lemma limiter_serializes_whole_workers_witness :
  In (0%nat, uploadToDrive_call) (orphans Cases.strayUpload) \/
  In (1%nat, uploadToDrive_call) (orphans Cases.strayUpload).
Proof.
  destruct (limiter_serializes_whole_workers Sample.DRIVE_ARCHIVE_INDEX_SHEET 2
              Sample.healthy (Sample.job [Sample.cities; Sample.rivers]) [] _
              "UPLOAD" Sample.dispatched Cases.strayUpload
              sample_doExport sample_flight)
    as (_ & _ & _ & _ & _ & _ & _ & _ & Cross & _).
  apply (Cross 0%nat 1%nat uploadToDrive_call uploadToDrive_call).
  - vm_compute. tauto.
  - vm_compute. tauto.
  - discriminate.
Defined.
